(** * CodePulse: the workspace scanner of [PRReviewerWebviewProvider]

    A shallow embedding of [analyzeWorkspace], the scanning, detection and
    scoring engine of the extension, together with the parts of the
    JavaScript platform it relies on: UTF-16 strings, the backtracking
    regular-expression matcher behind [String.prototype.match] and
    [RegExp.prototype.test], Node's [path.basename] and [path.extname],
    and IEEE-754 binary64 arithmetic for the progress percentage.

    A run is a pure function of the host (the VS Code API as the scanner
    sees it); it yields the trace of its interactions with the host and
    either a value or the exception that ended it.  The exception may
    come from the file search, from the read of a file, or from a
    detector: the regular-expression engine can give up on a search, and
    the host says when it does. *)

(** Beside the scanner: [getNonce], which draws the nonce of the webview
    page, and from the webview itself ([App]) the listener for the
    scanner's messages with the state it writes, and [exportPDF]. *)

From Stdlib Require Import Ascii String.
From Stdlib Require Import List ZArith NArith Lia Bool Sorted.
From Stdlib Require Import SpecFloat.
From Stdlib Require Import DecimalString.
Import ListNotations.

Set Implicit Arguments.

Local Open Scope Z_scope.

(* ================================================================== *)
(** ** JavaScript strings: sequences of UTF-16 code units *)

Module JS.

Definition code_unit := N.
Definition jsstring := list code_unit.

(** An ASCII literal of the source, as a JavaScript string. *)
Definition lit (s : string) : jsstring :=
  map N_of_ascii (list_ascii_of_string s).

(** [s.length] *)
Definition strlen (s : jsstring) : Z := Z.of_nat (length s).

(** [s.substring(start, end)]: both indices are clamped to the length and
    swapped when [start > end]. *)
Definition substring (s : jsstring) (start stop : nat) : jsstring :=
  let a := Nat.min start (length s) in
  let b := Nat.min stop (length s) in
  skipn (Nat.min a b) (firstn (Nat.max a b) s).

(** [strip_prefix p s] is what follows [p] in [s] when [s] starts with [p]. *)
Fixpoint strip_prefix (p s : jsstring) : option jsstring :=
  match p with
  | [] => Some s
  | c :: p' =>
      match s with
      | [] => None
      | d :: s' => if N.eqb c d then strip_prefix p' s' else None
      end
  end.

(** [s.replace(pat, rep)] with a string pattern: only the first occurrence
    of [pat] is replaced. *)
Fixpoint replace (s pat rep : jsstring) : jsstring :=
  match strip_prefix pat s with
  | Some rest => rep ++ rest
  | None =>
      match s with
      | [] => []
      | c :: s' => c :: replace s' pat rep
      end
  end.

(** The character U+2026 HORIZONTAL ELLIPSIS, one code unit. *)
Definition ellipsis : code_unit := 8230%N.

End JS.
Import JS.

(* ================================================================== *)
(** ** Regular expressions

    The fragment of ECMAScript patterns used by the scanner: literal
    characters, character classes, disjunction, sequence, the word
    boundary assertion, and quantifiers [{n,}] (greedy or lazy) over a
    single-character atom.  Matching is the backtracking search of the
    language definition, written with continuations. *)

Module RegExp.

Inductive cset :=
| OneOf (ranges : list (N * N))      (* [a-z...] *)
| NoneOf (ranges : list (N * N))     (* [^...]   *)
| Dot                                (* .  (no s flag) *)
| Space.                             (* \s *)

Definition in_ranges (ranges : list (N * N)) (c : code_unit) : bool :=
  existsb (fun r => N.leb (fst r) c && N.leb c (snd r))%bool ranges.

Definition line_terminators : list (N * N) :=
  [(10, 10); (13, 13); (8232, 8233)]%N.

Definition white_space : list (N * N) :=
  [(9, 13); (32, 32); (160, 160); (5760, 5760); (8192, 8202);
   (8232, 8233); (8239, 8239); (8287, 8287); (12288, 12288);
   (65279, 65279)]%N.

Definition cset_mem (cs : cset) (c : code_unit) : bool :=
  match cs with
  | OneOf rs => in_ranges rs c
  | NoneOf rs => negb (in_ranges rs c)
  | Dot => negb (in_ranges line_terminators c)
  | Space => in_ranges white_space c
  end.

Inductive regex :=
| Chars (s : jsstring)
| Class (cs : cset)
| Alt (r1 r2 : regex)
| Seq (r1 r2 : regex)
| Repeat (cs : cset) (min : nat) (greedy : bool)
| WordBoundary.

(** [\w] *)
Definition word_chars : list (N * N) :=
  [(97, 122); (65, 90); (48, 57); (95, 95)]%N.

Definition is_word_at (s : jsstring) : bool :=
  match s with
  | [] => false
  | c :: _ => in_ranges word_chars c
  end.

Section Matcher.
Variable A : Type.

(** A matcher state is the text before the current position (reversed)
    and the text from the current position on. *)
Definition cont := jsstring -> jsstring -> option A.

Fixpoint rep_greedy (cs : cset) (k : cont) (left rest : jsstring) : option A :=
  match rest with
  | c :: rest' =>
      if cset_mem cs c then
        match rep_greedy cs k (c :: left) rest' with
        | Some a => Some a
        | None => k left rest
        end
      else k left rest
  | [] => k left rest
  end.

Fixpoint rep_lazy (cs : cset) (k : cont) (left rest : jsstring) : option A :=
  match k left rest with
  | Some a => Some a
  | None =>
      match rest with
      | c :: rest' =>
          if cset_mem cs c then rep_lazy cs k (c :: left) rest' else None
      | [] => None
      end
  end.

Fixpoint rep_min (n : nat) (cs : cset) (k : cont) (left rest : jsstring) : option A :=
  match n with
  | O => k left rest
  | S n' =>
      match rest with
      | c :: rest' =>
          if cset_mem cs c then rep_min n' cs k (c :: left) rest' else None
      | [] => None
      end
  end.

Fixpoint backtrack (r : regex) (k : cont) (left rest : jsstring) : option A :=
  match r with
  | Chars s =>
      match strip_prefix s rest with
      | Some rest' => k (rev s ++ left) rest'
      | None => None
      end
  | Class cs =>
      match rest with
      | c :: rest' => if cset_mem cs c then k (c :: left) rest' else None
      | [] => None
      end
  | Alt r1 r2 =>
      match backtrack r1 k left rest with
      | Some a => Some a
      | None => backtrack r2 k left rest
      end
  | Seq r1 r2 => backtrack r1 (backtrack r2 k) left rest
  | Repeat cs n greedy =>
      rep_min n cs (if greedy then rep_greedy cs k else rep_lazy cs k) left rest
  | WordBoundary =>
      if xorb (is_word_at left) (is_word_at rest) then k left rest else None
  end.
End Matcher.

(** One match attempt at the current position; the result is the matched
    substring. *)
Definition match_here (r : regex) (left rest : jsstring) : option jsstring :=
  match backtrack r (fun _ after => Some after) left rest with
  | Some after => Some (firstn (length rest - length after) rest)
  | None => None
  end.

(** [RegExpBuiltinExec] without the sticky flag: the first position, from
    the current one on, at which the pattern matches. Returns the text
    skipped and the match. *)
Fixpoint exec_from (r : regex) (left rest : jsstring) : option (jsstring * jsstring) :=
  match match_here r left rest with
  | Some m => Some ([], m)
  | None =>
      match rest with
      | [] => None
      | c :: rest' =>
          match exec_from r (c :: left) rest' with
          | Some (skipped, m) => Some (c :: skipped, m)
          | None => None
          end
      end
  end.

(** [r.test(s)] for a pattern without the global flag. *)
Definition test (r : regex) (s : jsstring) : bool :=
  match exec_from r [] s with Some _ => true | None => false end.

(** The loop of [RegExp.prototype[Symbol.match]] for a global pattern.
    [skip] counts the positions still covered by the previous match, at
    which no attempt is made; after an empty match the index advances by
    one. *)
Fixpoint match_loop (r : regex) (left rest : jsstring) (skip : nat) : list jsstring :=
  match skip with
  | S skip' =>
      match rest with
      | [] => []
      | c :: rest' => match_loop r (c :: left) rest' skip'
      end
  | O =>
      match match_here r left rest with
      | Some m =>
          m :: match rest with
               | [] => []
               | c :: rest' => match_loop r (c :: left) rest' (pred (length m))
               end
      | None =>
          match rest with
          | [] => []
          | c :: rest' => match_loop r (c :: left) rest' 0
          end
      end
  end.

(** [s.match(r)] for a global pattern: [null] when nothing matches,
    otherwise the array of all matches. *)
Definition js_match (s : jsstring) (r : regex) : option (list jsstring) :=
  match match_loop r [] s 0 with
  | [] => None
  | ms => Some ms
  end.

(** Pattern-building helpers. *)
Definition seq (rs : list regex) : regex := fold_right Seq (Chars []) rs.

Fixpoint alt (r : regex) (rs : list regex) : regex :=
  match rs with
  | [] => r
  | r' :: rs' => Alt r (alt r' rs')
  end.

Definition str (s : string) : regex := Chars (lit s).
Definition chr (s : string) : N * N :=
  match lit s with
  | c :: _ => (c, c)
  | [] => (0, 0)%N
  end.
Definition rng (lo hi : string) : N * N := (fst (chr lo), fst (chr hi)).
Definition star (cs : cset) : regex := Repeat cs 0 true.

End RegExp.
Import RegExp.

(* ================================================================== *)
(** ** Node's [path] module (POSIX flavour)

    [path.basename] and [path.extname] are library functions; they are
    modelled after Node's documented behaviour: trailing separators are
    ignored and only the last portion of the path is considered. *)

Module Path.

Definition slash : code_unit := 47%N.
Definition dot : code_unit := 46%N.

Fixpoint drop_slashes (r : jsstring) : jsstring :=
  match r with
  | c :: r' => if N.eqb c slash then drop_slashes r' else r
  | [] => []
  end.

Fixpoint until_slash (r : jsstring) : jsstring :=
  match r with
  | c :: r' => if N.eqb c slash then [] else c :: until_slash r'
  | [] => []
  end.

(** The last portion of the path, reversed. *)
Definition last_portion_rev (p : jsstring) : jsstring :=
  until_slash (drop_slashes (rev p)).

(** [path.basename(p)] *)
Definition basename (p : jsstring) : jsstring := rev (last_portion_rev p).

(** Splits a reversed portion at its first dot, that is at the last dot of
    the portion: what follows the dot (reversed) and what precedes it
    (reversed). *)
Fixpoint split_dot (r : jsstring) : option (jsstring * jsstring) :=
  match r with
  | [] => None
  | c :: r' =>
      if N.eqb c dot then Some ([], r')
      else match split_dot r' with
           | Some (e, pre) => Some (c :: e, pre)
           | None => None
           end
  end.

(** [path.extname(p)]: from the last dot of the last portion to its end;
    empty when there is no dot, when the only dot is the first character
    of the portion, and for the portion [..]. *)
Definition extname (p : jsstring) : jsstring :=
  match split_dot (last_portion_rev p) with
  | None => []
  | Some (e, pre) =>
      match pre, e with
      | [], _ => []
      | [c], [] => if N.eqb c dot then [] else [dot]
      | _, _ => dot :: rev e
      end
  end.

End Path.

(* ================================================================== *)
(** ** JavaScript numbers used in the progress computation (binary64) *)

Module Number.

Definition prec : Z := 53.
Definition emax : Z := 1024.

Definition number := spec_float.

(** The Number value of a mathematical integer. *)
Definition of_Z (z : Z) : number := binary_normalize prec emax z 0 false.

Definition div (x y : number) : number := SFdiv prec emax x y.
Definition mul (x y : number) : number := SFmul prec emax x y.

(** [Math.round(x)]: the integer nearest to [x], ties towards positive
    infinity, that is [floor (x + 1/2)] computed exactly.  The result is
    given as an integer; NaN and the infinities, which have none, give 0
    (the scanner only rounds quotients [i / n] with [0 < i <= n], scaled
    by 85). *)
Definition Math_round (x : number) : Z :=
  match x with
  | S754_finite s m e =>
      let sm := if s then Z.neg m else Z.pos m in
      match e with
      | Z.neg p => (2 * sm + 2 ^ Z.pos p) / 2 ^ (Z.pos p + 1)
      | _ => sm * 2 ^ e
      end
  | _ => 0
  end.

End Number.

(* ================================================================== *)
(** ** Data model of the report *)

Module FileDetail.
Record t := mk {
  name : jsstring;
  path : jsstring;
  lines : Z;
  size : Z;
  ext : jsstring
}.
End FileDetail.

Module SecurityIssue.
Record t := mk {
  file : jsstring;
  line : Z;
  match_ : jsstring
}.
End SecurityIssue.

Module PerformanceIssue.
Record t := mk {
  file : jsstring;
  count : Z;
  type : jsstring
}.
End PerformanceIssue.

Record AnalysisData := {
  healthScore : Z;
  workspaceName : jsstring;
  godFiles : list FileDetail.t;
  securityIssues : list SecurityIssue.t;
  performanceIssues : list PerformanceIssue.t;
  unusedFiles : list FileDetail.t;
  allFiles : list FileDetail.t;
  totalFiles : Z;
  totalLines : Z;
  unusedExports : Z;
  circularDeps : Z;
  scanProgress : Z;
  lastScanned : jsstring
}.

(** Messages posted to the webview, by their [type]. *)
Module Message.
Inductive t :=
| analysisStarted
| progress (value : Z)
| analysisResult (data : AnalysisData)
| analysisFailed.
End Message.

(* ================================================================== *)
(** ** The host: the parts of the VS Code API the scanner calls *)

Record Uri := { fsPath : jsstring }.

Record TextDocument := { getText : jsstring; lineCount : Z }.

Record WorkspaceFolder := { folderName : jsstring }.

(** A value thrown by the host, or a rejected promise's reason. *)
Inductive thrown :=
| ErrorObject (message : jsstring)      (* [err instanceof Error] *)
| OtherValue (rendered : jsstring).     (* anything else, with [String(err)] *)

(** [regExpAborts pattern text] is the exception with which the
    regular-expression engine of the host gives up on running [pattern]
    over [text], if it does: a backtracking engine keeps a stack of
    bounded size, and a pattern run over a long enough text exhausts it
    (V8 then throws a [RangeError]).  Which inputs these are is the
    engine's business, so the host says. *)
Record Host := {
  workspaceFolders : option (list WorkspaceFolder);
  findFiles : thrown + list Uri;
  openTextDocument : Uri -> thrown + TextDocument;
  asRelativePath : Uri -> jsstring;
  toLocaleTimeString : jsstring;
  regExpAborts : regex -> jsstring -> option thrown
}.

(* ================================================================== *)
(** ** Effects: a trace of host interactions and an abrupt completion *)

Inductive Effect :=
| PostMessage (m : Message.t)
| CallFindFiles
| CallOpenTextDocument (u : Uri)
| ShowErrorMessage (text : jsstring).

Definition Run (A : Type) : Type := list Effect * (thrown + A).

Definition ret {A} (a : A) : Run A := ([], inr a).

Definition throw {A} (e : thrown) : Run A := ([], inl e).

Definition bind {A B} (c : Run A) (f : A -> Run B) : Run B :=
  match c with
  | (t, inl e) => (t, inl e)
  | (t, inr a) => let (t', r) := f a in (t ++ t', r)
  end.

Definition emit (e : Effect) : Run unit := ([e], inr tt).

(** Awaiting a host call: the call is recorded, a rejection is thrown. *)
Definition await {A} (e : Effect) (r : thrown + A) : Run A := ([e], r).

Definition try_catch {A} (c : Run A) (handler : thrown -> Run A) : Run A :=
  match c with
  | (t, inl e) => let (t', r) := handler e in (t ++ t', r)
  | (t, inr a) => (t, inr a)
  end.

Declare Scope run_scope.
Delimit Scope run_scope with run.
Notation "x <- c ;; k" := (bind c (fun x => k))
  (at level 100, c at next level, right associativity) : run_scope.
Notation "c ;; k" := (bind c (fun _ => k))
  (at level 100, right associativity) : run_scope.

Definition trace {A} (c : Run A) : list Effect := fst c.
Definition outcome {A} (c : Run A) : thrown + A := snd c.

(** The messages the webview receives, in order. *)
Fixpoint messages (t : list Effect) : list Message.t :=
  match t with
  | [] => []
  | PostMessage m :: t' => m :: messages t'
  | _ :: t' => messages t'
  end.

(** [for (const x of xs) body] threading the loop-carried variables. *)
Fixpoint for_of {X S} (xs : list X) (body : S -> X -> Run S) (s : S) : Run S :=
  match xs with
  | [] => ret s
  | x :: xs' => bind (body s x) (for_of xs' body)
  end.

(** [a.push(x)] *)
Definition push {A} (a : list A) (x : A) : list A := a ++ [x].

(** [text.match(pattern)] for a global pattern and [pattern.test(text)],
    as the engine of the host runs them: the result of the matcher, or
    the exception of an engine that gave up. *)
Definition String_match (h : Host) (text : jsstring) (pattern : regex)
    : Run (option (list jsstring)) :=
  match regExpAborts h pattern text with
  | Some err => throw err
  | None => ret (js_match text pattern)
  end.

Definition RegExp_test (h : Host) (pattern : regex) (text : jsstring) : Run bool :=
  match regExpAborts h pattern text with
  | Some err => throw err
  | None => ret (test pattern text)
  end.

(* ================================================================== *)
(** ** The scanner: [PRReviewerWebviewProvider.analyzeWorkspace] *)

Module Scanner.

Import Number.
Local Open Scope run_scope.

(** The provider; [_view] is set once [resolveWebviewView] has run. *)
Record Provider := { _view : bool }.

Definition alnum : cset := OneOf [rng "a" "z"; rng "A" "Z"; rng "0" "9"].

Definition quote : cset := OneOf [(39, 39); (34, 34); (96, 96)]%N.

(** The three patterns of the security scan, in source order. *)
Definition secPatterns : list regex :=
  [ seq [ alt (str "API_KEY")
              [str "APIKEY"; str "api_key"; str "SECRET"; str "PASSWORD";
               str "PASSWD"; str "TOKEN"; str "ACCESS_KEY"];
          star Space; Class (OneOf [chr ":"; chr "="]); star Space;
          Class quote;
          Repeat (OneOf [rng "a" "z"; rng "A" "Z"; rng "0" "9";
                         chr "_"; chr "-"; chr "/"; chr "+"]) 8 true;
          Class quote ];
    seq [ str "eyJ"; Repeat alnum 10 true ];
    seq [ alt (str "sk-") [str "pk-"]; Repeat alnum 20 true ] ].

(** [/for\s*\(.*?\)\s*\{[^}]*for\s*\(/g] *)
Definition nestedLoopPattern : regex :=
  seq [ str "for"; star Space; str "("; Repeat Dot 0 false; str ")";
        star Space; str "{"; star (NoneOf [chr "}"]);
        str "for"; star Space; str "(" ].

(** [/\beval\s*\(/] *)
Definition evalPattern : regex :=
  seq [ WordBoundary; str "eval"; star Space; str "(" ].

(** The variables carried by the file loop. *)
Record LoopState := {
  st_godFiles : list FileDetail.t;
  st_securityIssues : list SecurityIssue.t;
  st_performanceIssues : list PerformanceIssue.t;
  st_unusedFiles : list FileDetail.t;
  st_allFiles : list FileDetail.t;
  st_totalLines : Z;
  st_progress : Z
}.

Definition initialState : LoopState :=
  {| st_godFiles := []; st_securityIssues := []; st_performanceIssues := [];
     st_unusedFiles := []; st_allFiles := []; st_totalLines := 0;
     st_progress := 0 |}.

(** [Math.round((progress / files.length) * 85)] *)
Definition progressPct (progress len : Z) : Z :=
  Math_round (mul (div (of_Z progress) (of_Z len)) (of_Z 85)).

(** The inner loop over [secPatterns]; an exception of [text.match]
    leaves it. *)
Definition securityScan (h : Host) (relativePath text : jsstring)
    (issues : list SecurityIssue.t) : Run (list SecurityIssue.t) :=
  for_of secPatterns
    (fun issues pattern =>
       matches <- String_match h text pattern ;;
       ret (match matches with
            | Some matches =>
                push issues
                  (SecurityIssue.mk relativePath 0
                     (substring (nth 0 matches []) 0 40 ++ [ellipsis]))
            | None => issues
            end))
    issues.

(** The two performance checks: nested loops, then [eval]; either can
    throw. *)
Definition performanceScan (h : Host) (relativePath text : jsstring)
    (issues : list PerformanceIssue.t) : Run (list PerformanceIssue.t) :=
  nestedLoops <- String_match h text nestedLoopPattern ;;
  let issues :=
    match nestedLoops with
    | Some nestedLoops =>
        push issues
          (PerformanceIssue.mk relativePath (Z.of_nat (length nestedLoops))
             (lit "Nested Loops"))
    | None => issues
    end in
  found <- RegExp_test h evalPattern text ;;
  ret (if found
       then push issues (PerformanceIssue.mk relativePath 1 (lit "eval() usage"))
       else issues).

(** The body of [for (const file of files)]. *)
Definition scanFile (h : Host) (len : Z) (st : LoopState) (file : Uri)
    : Run LoopState :=
  let progress := st_progress st + 1 in
  emit (PostMessage (Message.progress (progressPct progress len))) ;;
  doc <- await (CallOpenTextDocument file) (openTextDocument h file) ;;
  let text := getText doc in
  let lines := lineCount doc in
  let relativePath := asRelativePath h file in
  let fileName := Path.basename (fsPath file) in
  let ext := replace (Path.extname (fsPath file)) (lit ".") (lit "") in
  let size := strlen text in
  let fd := FileDetail.mk fileName (fsPath file) lines size ext in
  securityIssues <- securityScan h relativePath text (st_securityIssues st) ;;
  performanceIssues <-
    performanceScan h relativePath text (st_performanceIssues st) ;;
  ret {| st_totalLines := st_totalLines st + lines;
         st_allFiles := push (st_allFiles st) fd;
         st_godFiles :=
           if lines >? 500 then push (st_godFiles st) fd else st_godFiles st;
         st_unusedFiles :=
           if (lines <? 5) && (lines >? 0) then push (st_unusedFiles st) fd
           else st_unusedFiles st;
         st_securityIssues := securityIssues;
         st_performanceIssues := performanceIssues;
         st_progress := progress |}.

(** The weighted health score. *)
Definition deductionsOf (st : LoopState) : Z :=
  Z.of_nat (length (st_securityIssues st)) * 15 +
  Z.of_nat (length (st_godFiles st)) * 5 +
  Z.of_nat (length (st_performanceIssues st)) * 8 +
  Z.of_nat (length (st_unusedFiles st)) * 2.

Definition report (h : Host) (workspaceName : jsstring) (files : list Uri)
    (st : LoopState) : AnalysisData :=
  let deductions := deductionsOf st in
  let healthScore := Z.max 0 (Z.min 100 (100 - deductions)) in
  {| healthScore := healthScore;
     workspaceName := workspaceName;
     godFiles := st_godFiles st;
     securityIssues := st_securityIssues st;
     performanceIssues := st_performanceIssues st;
     unusedFiles := st_unusedFiles st;
     allFiles := st_allFiles st;
     totalFiles := Z.of_nat (length files);
     totalLines := st_totalLines st;
     unusedExports := Z.of_nat (length (st_unusedFiles st));
     circularDeps := 0;
     scanProgress := 100;
     lastScanned := toLocaleTimeString h |}.

(** [workspaceFolders ? workspaceFolders[0].name : 'Unknown']; reading
    [.name] of the missing first element of an empty array throws a
    [TypeError]. *)
Definition resolveWorkspaceName (h : Host) : Run jsstring :=
  match workspaceFolders h with
  | None => ret (lit "Unknown")
  | Some [] =>
      throw (ErrorObject
               (lit "Cannot read properties of undefined (reading 'name')"))
  | Some (folder :: _) => ret (folderName folder)
  end.

Definition analyzeWorkspace (this : Provider) (h : Host) : Run unit :=
  if negb (_view this) then ret tt else
  emit (PostMessage Message.analysisStarted) ;;
  workspaceName <- resolveWorkspaceName h ;;
  try_catch
    (files <- await CallFindFiles (findFiles h) ;;
     st <- for_of files (scanFile h (Z.of_nat (length files))) initialState ;;
     emit (PostMessage (Message.progress 100)) ;;
     emit (PostMessage (Message.analysisResult (report h workspaceName files st))))
    (fun err =>
       let msg := match err with
                  | ErrorObject message => message
                  | OtherValue rendered => rendered
                  end in
       emit (ShowErrorMessage (lit "Analysis failed: " ++ msg)) ;;
       emit (PostMessage Message.analysisFailed)).

End Scanner.
Import Scanner.

(* ================================================================== *)
(** ** Sample hosts *)

Module Samples.

Definition view : Provider := {| _view := true |}.

(** A host serving the given (path, text, line count) triples. *)
Definition lookup (fs : list (jsstring * (jsstring * Z))) (u : Uri)
    : thrown + TextDocument :=
  match find (fun f => if list_eq_dec N.eq_dec (fst f) (fsPath u) then true else false) fs with
  | Some (_, (text, n)) => inr {| getText := text; lineCount := n |}
  | None => inl (ErrorObject (lit "cannot open file"))
  end.

(** The engine of this host has room for every text it is given. *)
Definition host (fs : list (jsstring * (jsstring * Z))) (listed : list jsstring) : Host :=
  {| workspaceFolders := Some [ {| folderName := lit "demo" |} ];
     findFiles := inr (map (fun p => {| fsPath := p |}) listed);
     openTextDocument := lookup fs;
     asRelativePath := fun u => Path.basename (fsPath u);
     toLocaleTimeString := lit "10:00:00 AM";
     regExpAborts := fun _ _ => None |}.

(** What V8 throws when a pattern exhausts the backtrack stack. *)
Definition stackOverflow : thrown :=
  ErrorObject (lit "Maximum call stack size exceeded").

(** The host [h] with an engine that gives up on texts of more than
    [limit] code units. *)
Definition withEngineLimit (limit : nat) (h : Host) : Host :=
  {| workspaceFolders := workspaceFolders h;
     findFiles := findFiles h;
     openTextDocument := openTextDocument h;
     asRelativePath := asRelativePath h;
     toLocaleTimeString := toLocaleTimeString h;
     regExpAborts := fun _ text =>
       if (limit <? length text)%nat then Some stackOverflow else None |}.

End Samples.

(* ================================================================== *)
(** ** Vocabulary of the properties *)

(** The workspace name when resolving it does not throw. *)
Definition workspaceNameOf (h : Host) : option jsstring :=
  match workspaceFolders h with
  | None => Some (lit "Unknown")
  | Some [] => None
  | Some (folder :: _) => Some (folderName folder)
  end.

Definition theLoop (h : Host) (files : list Uri) : Run LoopState :=
  for_of files (scanFile h (Z.of_nat (length files))) initialState.

(** The patterns the engine is run with on the text of a file, in the
    order of the calls. *)
Definition detectors : list regex := secPatterns ++ [nestedLoopPattern; evalPattern].

(** The exception of the first of the patterns on which the engine gives
    up, if any. *)
Fixpoint firstAbort (h : Host) (text : jsstring) (patterns : list regex)
    : option thrown :=
  match patterns with
  | [] => None
  | pattern :: patterns' =>
      match regExpAborts h pattern text with
      | Some err => Some err
      | None => firstAbort h text patterns'
      end
  end.

(** How the iteration for a file ends: with the exception of the read or
    of the first detector that throws, or else normally, with the
    document it scanned. *)
Definition scanned (h : Host) (file : Uri) : thrown + TextDocument :=
  match openTextDocument h file with
  | inl err => inl err
  | inr doc =>
      match firstAbort h (getText doc) detectors with
      | Some err => inl err
      | None => inr doc
      end
  end.

(** The lists of findings after the scan of a text on which no detector
    throws. *)
Definition securityIssuesAfter (relativePath text : jsstring)
    (issues : list SecurityIssue.t) : list SecurityIssue.t :=
  fold_left
    (fun issues pattern =>
       match js_match text pattern with
       | Some matches =>
           push issues
             (SecurityIssue.mk relativePath 0
                (substring (nth 0 matches []) 0 40 ++ [ellipsis]))
       | None => issues
       end)
    secPatterns issues.

Definition performanceIssuesAfter (relativePath text : jsstring)
    (issues : list PerformanceIssue.t) : list PerformanceIssue.t :=
  let issues :=
    match js_match text nestedLoopPattern with
    | Some nestedLoops =>
        push issues
          (PerformanceIssue.mk relativePath (Z.of_nat (length nestedLoops))
             (lit "Nested Loops"))
    | None => issues
    end in
  if test evalPattern text then
    push issues (PerformanceIssue.mk relativePath 1 (lit "eval() usage"))
  else issues.

(** What the loop does to the trace, file by file: the notification for
    file number [k + 1] goes out, then the file is opened; an exception
    in the iteration, of the read or of a detector, ends the loop. *)
Fixpoint loop_trace (h : Host) (len k : Z) (files : list Uri) : list Effect :=
  match files with
  | [] => []
  | file :: files' =>
      PostMessage (Message.progress (progressPct (k + 1) len))
      :: CallOpenTextDocument file
      :: match scanned h file with
         | inl _ => []
         | inr _ => loop_trace h len (k + 1) files'
         end
  end.

(** The files the loop gets to: all of them up to and including the first
    one whose iteration ends with an exception. *)
Fixpoint attempted (h : Host) (files : list Uri) : list Uri :=
  match files with
  | [] => []
  | file :: files' =>
      file :: match scanned h file with
              | inl _ => []
              | inr _ => attempted h files'
              end
  end.

(** [countFrom k n] is [k; k + 1; ...], [n] numbers. *)
Fixpoint countFrom (k : Z) (n : nat) : list Z :=
  match n with
  | O => []
  | S n' => k :: countFrom (k + 1) n'
  end.

Definition opens (h : Host) (file : Uri) : Prop :=
  exists doc, openTextDocument h file = inr doc.

(** The iteration for the file runs to its end: the file can be opened
    and the engine completes every detector on its text. *)
Definition completes (h : Host) (file : Uri) : Prop :=
  exists doc,
    openTextDocument h file = inr doc /\
    forall pattern, In pattern detectors ->
      regExpAborts h pattern (getText doc) = None.

(** A detector throws on the text. *)
Definition detectorThrows (h : Host) (text : jsstring) : Prop :=
  exists pattern err, In pattern detectors /\ regExpAborts h pattern text = Some err.

(** The notifications and reads of the loop over the files it gets to:
    the notification of a file precedes its read. *)
Fixpoint announce (len k : Z) (files : list Uri) : list Effect :=
  match files with
  | [] => []
  | file :: files' =>
      PostMessage (Message.progress (progressPct (k + 1) len))
      :: CallOpenTextDocument file :: announce len (k + 1) files'
  end.

(** The files whose read a trace records, in order. *)
Fixpoint reads (t : list Effect) : list Uri :=
  match t with
  | [] => []
  | CallOpenTextDocument file :: t' => file :: reads t'
  | _ :: t' => reads t'
  end.

(** The number of files read so far in a trace. *)
Fixpoint completedIn (t : list Effect) : Z :=
  match t with
  | [] => 0
  | CallOpenTextDocument _ :: t' => Z.succ (completedIn t')
  | _ :: t' => completedIn t'
  end.

(** The values of the progress notifications among some messages. *)
Fixpoint progressValues (ms : list Message.t) : list Z :=
  match ms with
  | [] => []
  | Message.progress v :: ms' => v :: progressValues ms'
  | _ :: ms' => progressValues ms'
  end.

(** The claim as the specification words it: a notification posted by the
    loop tells how many files are complete at that moment. *)
Definition postedAfterCompletion (len : Z) (t : list Effect) : Prop :=
  forall before v after,
    t = before ++ PostMessage (Message.progress v) :: after ->
    v = progressPct (completedIn before) len.

(** What the loop does: the notification counts the file about to be
    read as well. *)
Definition postedBeforeReading (len : Z) (t : list Effect) : Prop :=
  forall before v after,
    t = before ++ PostMessage (Message.progress v) :: after ->
    v = progressPct (completedIn before + 1) len.

(** [clamp x lo hi] as the specification writes it. *)
Definition clamp (x lo hi : Z) : Z := Z.max lo (Z.min hi x).

Definition strict_subset {A} (l1 l2 : list A) : Prop :=
  incl l1 l2 /\ ~ incl l2 l1.

Definition isGodFile (fd : FileDetail.t) : bool := FileDetail.lines fd >? 500.

Definition isNearEmpty (fd : FileDetail.t) : bool :=
  (FileDetail.lines fd <? 5) && (FileDetail.lines fd >? 0).

(** What one pattern contributes for one file. *)
Definition findingFor (relativePath text : jsstring) (pattern : regex)
    : list SecurityIssue.t :=
  match js_match text pattern with
  | Some (first :: _) =>
      [SecurityIssue.mk relativePath 0 (firstn 40 first ++ [ellipsis])]
  | _ => []
  end.

(** Every security finding of the loop state comes from the leftmost
    match of one of the patterns in one of the opened files. *)
Definition fromFirstMatch (h : Host) (files : list Uri) (issue : SecurityIssue.t)
    : Prop :=
  exists file doc pattern skipped first,
    In file files /\ openTextDocument h file = inr doc /\
    In pattern secPatterns /\
    exec_from pattern [] (getText doc) = Some (skipped, first) /\
    issue = SecurityIssue.mk (asRelativePath h file) 0
              (firstn 40 first ++ [ellipsis]).

Definition isNestedLoops (issue : PerformanceIssue.t) : bool :=
  if list_eq_dec N.eq_dec (PerformanceIssue.type issue) (lit "Nested Loops")
  then true else false.

(** No letter [A]-[Z]: what a lowercase string must at least satisfy. *)
Definition noUpperCase (s : jsstring) : bool :=
  forallb (fun c => negb (in_ranges [(65, 90)%N] c)) s.

Definition extFromPath (fd : FileDetail.t) : Prop :=
  FileDetail.ext fd =
  replace (Path.extname (FileDetail.path fd)) (lit ".") (lit "").

(** ** Sample inputs *)

Module Examples.
Import Samples.

Definition nested : jsstring :=
  lit "for (i=0;i<n;i++) { for (j=0;j<n;j++) {} }".

Definition secrets : jsstring :=
  lit "SECRET = 'abcd1234efgh'; API_KEY: `ABCDEFGH12345` TOKEN='zzzzzzzzzzzz'".

(** The double loop twice over, and three loops inside each other. *)
Definition nestedTwice : jsstring := nested ++ lit "; " ++ nested.

Definition nestedThreeDeep : jsstring :=
  lit "for (a) { for (b) { for (c) { } } }".

(** Two files: a three-line one with a nested loop, and a 501-line one
    with three secret assignments. *)
Definition twoFiles : Host :=
  host [(lit "/w/a.ts", (nested, 3)); (lit "/w/B.TS", (secrets, 501))]
       [lit "/w/a.ts"; lit "/w/B.TS"].

(** One file of 501 lines and nothing else to report. *)
Definition oneBig : Host :=
  host [(lit "/w/big.ts", (lit "let x = 1", 501))] [lit "/w/big.ts"].

(** One file of three lines. *)
Definition oneStub : Host :=
  host [(lit "/w/stub.ts", (lit "let x = 1", 3))] [lit "/w/stub.ts"].

(** No files at all. *)
Definition noFiles : Host := host [] [].

(** One listed file that cannot be opened. *)
Definition unreadable : Host := host [] [lit "/w/gone.ts"].

(** The two files on an engine that gives up on texts of more than 50
    code units: the first file is scanned, on the second, which can be
    read, the first pattern of the security scan throws. *)
Definition overflowing : Host := withEngineLimit 50 twoFiles.

(** The report a sample host produces. *)
Definition reportOf (h : Host) : AnalysisData :=
  let files := match findFiles h with inr files => files | inl _ => [] end in
  report h (lit "demo") files
    (match outcome (theLoop h files) with
     | inr st => st
     | inl _ => initialState
     end).

End Examples.

(** *** Binary64 rounding *)

Import Number.

(** The state of a right shift of the fraction [N / D]: the quotient, the
    round bit and the sticky bit. *)
Definition shifted (N D : Z) : shr_record :=
  {| shr_m := N / D;
     shr_r := D <=? 2 * (N mod D);
     shr_s := negb (N mod D =? 0) && negb (2 * (N mod D) =? D) |}.

(** Rounding the fraction [N / D] to the nearest integer, ties to even. *)
Definition RNE (N D : Z) : Z :=
  match 2 * (N mod D) ?= D with
  | Lt => N / D
  | Eq => if Z.even (N / D) then N / D else N / D + 1
  | Gt => N / D + 1
  end.

(** The value of a positive finite number, scaled by [2 ^ 200] so that it
    is an integer for every exponent that occurs below. *)
Definition scaled (x : number) : Z :=
  match x with
  | S754_finite false m e => Z.pos m * 2 ^ (e + 200)
  | _ => 0
  end.

(** Positive, normalised, with its exponent within bounds. *)
Definition normal (x : number) (lo hi : Z) : Prop :=
  exists m e, x = S754_finite false m e /\
              2 ^ 52 <= Z.pos m < 2 ^ 53 /\ lo <= e <= hi.

(** What [binary_round_aux_spec] returns. *)
Definition rounded (N D e k : Z) : number :=
  if RNE N (D * 2 ^ k) <? 2 ^ 53
  then S754_finite false (Z.to_pos (RNE N (D * 2 ^ k))) (e + k)
  else S754_finite false (Z.to_pos (2 ^ 52)) (e + k + 1).

Ltac bool_cases :=
  repeat match goal with
  | |- context [?a <=? ?b] => destruct (Z.leb_spec a b)
  | |- context [?a =? ?b] => destruct (Z.eqb_spec a b)
  | |- context [?a <? ?b] => destruct (Z.ltb_spec a b)
  end; cbn [negb andb orb]; try reflexivity; try lia.

(** ** Vocabulary of the further properties *)

(** The record, the security findings and the performance findings one
    file contributes; nothing for a file that cannot be opened. *)
Definition recordOf (h : Host) (file : Uri) : list FileDetail.t :=
  match openTextDocument h file with
  | inr doc =>
      [FileDetail.mk (Path.basename (fsPath file)) (fsPath file)
         (lineCount doc) (strlen (getText doc))
         (replace (Path.extname (fsPath file)) (lit ".") (lit ""))]
  | inl _ => []
  end.

Definition securityFindingsOf (h : Host) (file : Uri) : list SecurityIssue.t :=
  match openTextDocument h file with
  | inr doc =>
      flat_map (findingFor (asRelativePath h file) (getText doc)) secPatterns
  | inl _ => []
  end.

Definition performanceFindingsOf (h : Host) (file : Uri)
    : list PerformanceIssue.t :=
  match openTextDocument h file with
  | inr doc => performanceIssuesAfter (asRelativePath h file) (getText doc) []
  | inl _ => []
  end.

(** The sum of a list of numbers. *)
Definition sumZ (l : list Z) : Z := fold_right Z.add 0 l.

(** [String(err)] or [err.message], as the handler picks it. *)
Definition errorText (err : thrown) : jsstring :=
  match err with
  | ErrorObject message => message
  | OtherValue rendered => rendered
  end.

(** What the handler of the [catch] block does. *)
Definition failureReport (err : thrown) : list Effect :=
  [ShowErrorMessage (lit "Analysis failed: " ++ errorText err);
   PostMessage Message.analysisFailed].

(** The four shapes of a run's message stream. *)
Inductive stream_shape : list Message.t -> Prop :=
| shape_silent : stream_shape []
| shape_cut : stream_shape [Message.analysisStarted]
| shape_failed values :
    stream_shape (Message.analysisStarted :: map Message.progress values ++
                  [Message.analysisFailed])
| shape_result values data :
    stream_shape (Message.analysisStarted :: map Message.progress values ++
                  [Message.progress 100; Message.analysisResult data]).

(** The error messages shown in a trace. *)
Fixpoint errorMessages (t : list Effect) : list jsstring :=
  match t with
  | [] => []
  | ShowErrorMessage text :: t' => text :: errorMessages t'
  | _ :: t' => errorMessages t'
  end.

(** The host with another result of the file search. *)
Definition withFiles (h : Host) (files : list Uri) : Host :=
  {| workspaceFolders := workspaceFolders h;
     findFiles := inr files;
     openTextDocument := openTextDocument h;
     asRelativePath := asRelativePath h;
     toLocaleTimeString := toLocaleTimeString h;
     regExpAborts := regExpAborts h |}.

(** *** What the patterns match *)

(** Every code unit of [run] belongs to the class [cs]. *)
Definition allIn (cs : cset) (run : jsstring) : Prop :=
  Forall (fun c => cset_mem cs c = true) run.

(** The texts a pattern matches, declaratively: [Matches r left m right]
    says that [m] is a match of [r] when preceded by [left] (reversed) and
    followed by [right]. *)
Inductive Matches : regex -> jsstring -> jsstring -> jsstring -> Prop :=
| M_Chars s left right : Matches (Chars s) left s right
| M_Class cs c left right :
    cset_mem cs c = true -> Matches (Class cs) left [c] right
| M_Alt_l r1 r2 left m right :
    Matches r1 left m right -> Matches (Alt r1 r2) left m right
| M_Alt_r r1 r2 left m right :
    Matches r2 left m right -> Matches (Alt r1 r2) left m right
| M_Seq r1 r2 left m1 m2 right :
    Matches r1 left m1 (m2 ++ right) ->
    Matches r2 (rev m1 ++ left) m2 right ->
    Matches (Seq r1 r2) left (m1 ++ m2) right
| M_Repeat cs n greedy left m right :
    (n <= length m)%nat -> allIn cs m ->
    Matches (Repeat cs n greedy) left m right
| M_WordBoundary left right :
    xorb (is_word_at left) (is_word_at right) = true ->
    Matches WordBoundary left [] right.

(** A match of the pattern begins at the current position. *)
Definition matchesAt (r : regex) (left rest : jsstring) : Prop :=
  exists m after, rest = m ++ after /\ Matches r left m after.

(** The matches a global search collects from [rest], left to right:
    none when no match begins at any position; otherwise the match the
    engine finds at the first position where one begins, followed by the
    matches collected from the end of that match on.  Matches do not
    overlap.  (For patterns that do not match the empty string.) *)
Inductive Successive (r : regex) : jsstring -> jsstring -> list jsstring -> Prop :=
| Successive_none left rest :
    (forall k, (k <= length rest)%nat ->
       ~ matchesAt r (rev (firstn k rest) ++ left) (skipn k rest)) ->
    Successive r left rest []
| Successive_next left gap m after ms :
    (forall k, (k < length gap)%nat ->
       ~ matchesAt r (rev (firstn k gap) ++ left) (skipn k (gap ++ m ++ after))) ->
    match_here r (rev gap ++ left) (m ++ after) = Some m ->
    m <> [] ->
    Successive r (rev m ++ rev gap ++ left) after ms ->
    Successive r left (gap ++ m ++ after) (m :: ms).

(** The text contains a match of the pattern. *)
Definition occursIn (r : regex) (text : jsstring) : Prop :=
  exists before m after,
    text = before ++ m ++ after /\ Matches r (rev before) m after.

(** The text holds [eval], optional white space and an opening
    parenthesis, and no word character right before [eval]. *)
Definition evalCall (text : jsstring) : Prop :=
  exists before spaces after,
    text = before ++ lit "eval" ++ spaces ++ lit "(" ++ after /\
    allIn Space spaces /\ is_word_at (rev before) = false.

(** The three kinds of secret the security scan looks for. *)
Definition keyNames : list jsstring :=
  [lit "API_KEY"; lit "APIKEY"; lit "api_key"; lit "SECRET"; lit "PASSWORD";
   lit "PASSWD"; lit "TOKEN"; lit "ACCESS_KEY"].

Definition keyChars : cset :=
  OneOf [rng "a" "z"; rng "A" "Z"; rng "0" "9";
         chr "_"; chr "-"; chr "/"; chr "+"].

Definition keyAssignment (text : jsstring) : Prop :=
  exists before key spaces1 sep spaces2 open value close after,
    text = before ++ key ++ spaces1 ++ [sep] ++ spaces2 ++ [open] ++ value ++
           [close] ++ after /\
    In key keyNames /\ allIn Space spaces1 /\
    cset_mem (OneOf [chr ":"; chr "="]) sep = true /\ allIn Space spaces2 /\
    cset_mem quote open = true /\
    (8 <= length value)%nat /\ allIn keyChars value /\
    cset_mem quote close = true.

Definition jwtLike (text : jsstring) : Prop :=
  exists before run after,
    text = before ++ lit "eyJ" ++ run ++ after /\
    (10 <= length run)%nat /\ allIn alnum run.

Definition vendorKey (text : jsstring) : Prop :=
  exists before prefix run after,
    text = before ++ prefix ++ run ++ after /\
    (prefix = lit "sk-" \/ prefix = lit "pk-") /\
    (20 <= length run)%nat /\ allIn alnum run.

(** The textual condition of the nested-loop check: a [for (...)] header
    without line break, an opening brace, and a second [for (] before any
    closing brace. *)
Definition nestedFor (text : jsstring) : Prop :=
  exists before spaces1 header spaces2 body spaces3 after,
    text = before ++ lit "for" ++ spaces1 ++ lit "(" ++ header ++ lit ")" ++
           spaces2 ++ lit "{" ++ body ++ lit "for" ++ spaces3 ++ lit "(" ++ after /\
    allIn Space spaces1 /\ allIn Dot header /\ allIn Space spaces2 /\
    allIn (NoneOf [chr "}"]) body /\ allIn Space spaces3.

Definition isEvalUsage (issue : PerformanceIssue.t) : bool :=
  if list_eq_dec N.eq_dec (PerformanceIssue.type issue) (lit "eval() usage")
  then true else false.

(** The length of the shortest text a pattern can match. *)
Fixpoint minLength (r : regex) : nat :=
  match r with
  | Chars s => length s
  | Class _ => 1
  | Alt r1 r2 => Nat.min (minLength r1) (minLength r2)
  | Seq r1 r2 => minLength r1 + minLength r2
  | Repeat _ n _ => n
  | WordBoundary => 0
  end.

(** ** The nonce of the webview page: [getNonce] *)

(** [ToIntegerOrInfinity] of a Number. *)
Inductive integer_or_infinity :=
| Int (z : Z)
| PlusInfinity
| MinusInfinity.

Definition ToIntegerOrInfinity (x : number) : integer_or_infinity :=
  match x with
  | S754_nan => Int 0
  | S754_zero _ => Int 0
  | S754_infinity s => if s then MinusInfinity else PlusInfinity
  | S754_finite s m e =>
      let sm := if s then Z.neg m else Z.pos m in
      match e with
      | Z.neg p => Int (Z.quot sm (2 ^ Z.pos p))
      | _ => Int (sm * 2 ^ e)
      end
  end.

(** [Math.floor(x)]: the greatest integral Number not above [x]; zeros,
    NaN and the infinities are returned as they are. *)
Definition Math_floor (x : number) : number :=
  match x with
  | S754_finite s m (Z.neg p) =>
      of_Z ((if s then Z.neg m else Z.pos m) / 2 ^ Z.pos p)
  | _ => x
  end.

(** [s.charAt(pos)]: the code unit at the position, or the empty string
    when the position is outside the string. *)
Definition charAt (s : jsstring) (pos : number) : jsstring :=
  match ToIntegerOrInfinity pos with
  | Int z => if (0 <=? z) && (z <? strlen s) then [nth (Z.to_nat z) s 0%N] else []
  | _ => []
  end.

Definition possible : jsstring :=
  lit "ABCDEFGHIJKLMNOPQRSTUVWXYZabcdefghijklmnopqrstuvwxyz0123456789".

(** The loop of [getNonce] from counter [i] with [n] rounds to go;
    [random i] is what the call of [Math.random()] in round [i] returns. *)
Fixpoint getNonce_from (random : nat -> number) (i n : nat) (text : jsstring)
  : jsstring :=
  match n with
  | O => text
  | S n' =>
      getNonce_from random (S i) n'
        (text ++ charAt possible
                   (Math_floor (mul (random i) (of_Z (strlen possible)))))
  end.

Definition getNonce (random : nat -> number) : jsstring :=
  getNonce_from random 0 32 [].

(** What [Math.random] promises: a binary64 number, at least 0 and less
    than 1. *)
Definition unit_interval (x : number) : Prop :=
  valid_binary prec emax x = true /\
  SFleb (S754_zero false) x = true /\
  SFltb x (of_Z 1) = true.

(** A source of random numbers for the examples: a linear congruential
    generator whose states are scaled into the unit interval. *)
Fixpoint lcg (state : Z) (i : nat) : Z :=
  match i with
  | O => state
  | S i' => lcg ((state * 1103515245 + 12345) mod 2 ^ 31) i'
  end.

Definition sampleRandom (i : nat) : number :=
  div (of_Z (lcg 42 i)) (of_Z (2 ^ 31)).

(** ** The webview: the message handler of [App] *)

Module Webview.

Definition EMPTY_DATA : AnalysisData :=
  {| healthScore := 0;
     workspaceName := lit "CodePulse Engine...";
     godFiles := [];
     securityIssues := [];
     performanceIssues := [];
     unusedFiles := [];
     allFiles := [];
     totalFiles := 0;
     totalLines := 0;
     unusedExports := 0;
     circularDeps := 0;
     scanProgress := 0;
     lastScanned := lit "Never" |}.

(** The state hooks of [App] that the message handler writes, and the
    callbacks handed to [setTimeout] that have not run yet. *)
Record State := {
  data : AnalysisData;
  scanning : bool;
  progress : Z;
  history : list Z;
  hasAlert : bool;
  scanned : bool;
  timers : nat
}.

Definition initial : State :=
  {| data := EMPTY_DATA;
     scanning := true;
     progress := 0;
     history := [70; 75; 82; 80];
     hasAlert := false;
     scanned := false;
     timers := 0 |}.

Definition setData (d : AnalysisData) (s : State) : State :=
  {| data := d; scanning := scanning s; progress := progress s;
     history := history s; hasAlert := hasAlert s; scanned := scanned s;
     timers := timers s |}.

Definition setScanning (b : bool) (s : State) : State :=
  {| data := data s; scanning := b; progress := progress s;
     history := history s; hasAlert := hasAlert s; scanned := scanned s;
     timers := timers s |}.

Definition setProgress (v : Z) (s : State) : State :=
  {| data := data s; scanning := scanning s; progress := v;
     history := history s; hasAlert := hasAlert s; scanned := scanned s;
     timers := timers s |}.

Definition setHistory (f : list Z -> list Z) (s : State) : State :=
  {| data := data s; scanning := scanning s; progress := progress s;
     history := f (history s); hasAlert := hasAlert s; scanned := scanned s;
     timers := timers s |}.

Definition setHasAlert (b : bool) (s : State) : State :=
  {| data := data s; scanning := scanning s; progress := progress s;
     history := history s; hasAlert := b; scanned := scanned s;
     timers := timers s |}.

Definition setScanned (b : bool) (s : State) : State :=
  {| data := data s; scanning := scanning s; progress := progress s;
     history := history s; hasAlert := hasAlert s; scanned := b;
     timers := timers s |}.

(** [setTimeout(callback, 800)] with the one callback of [App]. *)
Definition setTimeout (s : State) : State :=
  {| data := data s; scanning := scanning s; progress := progress s;
     history := history s; hasAlert := hasAlert s; scanned := scanned s;
     timers := S (timers s) |}.

(** [l.slice(-n)]: the last [n] elements. *)
Definition slice_last {A} (n : nat) (l : list A) : list A :=
  skipn (length l - n) l.

(** The listener for [message] events. *)
Definition handler (s : State) (msg : Message.t) : State :=
  match msg with
  | Message.analysisStarted => setProgress 0 (setScanning true s)
  | Message.progress value => setProgress value s
  | Message.analysisFailed => setScanning false s
  | Message.analysisResult d =>
      let s := setData d s in
      let s := setTimeout s in
      let s := setProgress 100 s in
      let s := setHistory (fun h => slice_last 5 h ++ [healthScore d]) s in
      if 0 <? Z.of_nat (length (securityIssues d)) then setHasAlert true s else s
  end.

(** The callback of the timer: [setScanning(false); setScanned(true)]. *)
Definition timeout (s : State) : State :=
  let s := setScanned true (setScanning false s) in
  {| data := data s; scanning := scanning s; progress := progress s;
     history := history s; hasAlert := hasAlert s; scanned := scanned s;
     timers := pred (timers s) |}.

Inductive Event :=
| Receive (msg : Message.t)
| TimerFires
| ClickBell.

Definition step (s : State) (ev : Event) : State :=
  match ev with
  | Receive msg => handler s msg
  | TimerFires => match timers s with O => s | S _ => timeout s end
  | ClickBell => setHasAlert false s
  end.

(** The loading page is rendered instead of the dashboard. *)
Definition loadingPage (s : State) : bool := scanning s && negb (scanned s).

(** The messages of a run arrive in order. *)
Definition deliver (s : State) (ms : list Message.t) : State :=
  fold_left handler ms s.

(** Every pending timer fires. *)
Definition settle (s : State) : State := Nat.iter (timers s) timeout s.

(** The states after each message. *)
Fixpoint states (s : State) (ms : list Message.t) : list State :=
  match ms with
  | [] => []
  | msg :: ms' => handler s msg :: states (handler s msg) ms'
  end.

End Webview.

(** The health scores of the reports among some events. *)
Fixpoint scoresOf (evs : list Webview.Event) : list Z :=
  match evs with
  | [] => []
  | Webview.Receive (Message.analysisResult d) :: evs' => healthScore d :: scoresOf evs'
  | _ :: evs' => scoresOf evs'
  end.

Definition reported (ms : list Message.t) : Prop :=
  exists d, In (Message.analysisResult d) ms.

(** ** The PDF report of the webview: [exportPDF] *)

(** The calls on the [jsPDF] document, in order. *)
Module Pdf.
Inductive Op :=
| setFillColor (r g b : Z)
| rect (x y w h : Z) (style : jsstring)
| setTextColor (r g b : Z)
| setDrawColor (r g b : Z)
| setFontSize (size : Z)
| text (s : jsstring) (x y : Z)
| line (x1 y1 x2 y2 : Z)
| addPage
| save (filename : jsstring).
End Pdf.

(** What the webview posts to the extension. *)
Module Posted.
Inductive t :=
| openFile (path : jsstring)
| showInfo (value : jsstring)
| fixIssue (issueId : jsstring).
End Posted.

(** An integral Number in a template literal: its decimal digits (the
    form JavaScript prints below [10 ^ 21]). *)
Definition toString (z : Z) : jsstring := lit (NilZero.string_of_int (Z.to_int z)).

Definition background : list Pdf.Op :=
  [Pdf.setFillColor 8 13 23; Pdf.rect 0 0 210 297 (lit "F")].

(** The body of the three [forEach] loops: a page break when [y] is
    beyond 270, then one line of text. *)
Definition itemLine {A} (render : A -> jsstring) (acc : list Pdf.Op * Z) (item : A)
  : list Pdf.Op * Z :=
  let '(ops, y) := acc in
  let '(ops, y) :=
    if y >? 270 then (ops ++ Pdf.addPage :: background, 20) else (ops, y) in
  (ops ++ [Pdf.text (render item) 25 y], y + 6).

Definition forEach {A} (render : A -> jsstring) (items : list A)
    (acc : list Pdf.Op * Z) : list Pdf.Op * Z :=
  fold_left (itemLine render) items acc.

Definition securityLine (s : SecurityIssue.t) : jsstring :=
  lit "[CRITICAL] Hardcoded Token in " ++ SecurityIssue.file s.

Definition godFileLine (f : FileDetail.t) : jsstring :=
  lit "[WARNING] Large File Detected: " ++ FileDetail.name f ++ lit " (" ++
  toString (FileDetail.lines f) ++ lit " lines)".

Definition performanceLine (p : PerformanceIssue.t) : jsstring :=
  lit "[ISSUE] " ++ PerformanceIssue.type p ++ lit " in " ++ PerformanceIssue.file p.

(** The document up to the findings, and the value of [y] after it. *)
Definition pdfHeader (now : jsstring) (data : AnalysisData) : list Pdf.Op * Z :=
  let y := 20 in
  let ops := background ++
    [Pdf.setTextColor 45 126 255; Pdf.setFontSize 26;
     Pdf.text (lit "CodePulse Health Audit") 20 y] in
  let y := y + 10 in
  let ops := ops ++ [Pdf.setDrawColor 45 126 255; Pdf.line 20 y 190 y] in
  let y := y + 15 in
  let ops := ops ++ [Pdf.setTextColor 255 255 255; Pdf.setFontSize 14;
                     Pdf.text (lit "Project: " ++ workspaceName data) 20 y] in
  let y := y + 8 in
  let ops := ops ++ [Pdf.text (lit "Generated: " ++ now) 20 y] in
  let y := y + 8 in
  let ops := ops ++ [Pdf.setTextColor 0 229 160;
                     Pdf.text (lit "Overall Health Score: " ++
                               toString (healthScore data) ++ lit "/100") 20 y] in
  let y := y + 15 in
  let ops := ops ++ [Pdf.setTextColor 255 255 255; Pdf.setFontSize 16;
                     Pdf.text (lit "Executive Summary") 20 y] in
  let y := y + 10 in
  let ops := ops ++ [Pdf.setFontSize 12; Pdf.setTextColor 200 200 200;
                     Pdf.text (lit "- Total Files Analyzed: " ++
                               toString (totalFiles data)) 25 y] in
  let y := y + 7 in
  let ops := ops ++ [Pdf.text (lit "- Total Lines of Code: " ++
                               toString (totalLines data)) 25 y] in
  let y := y + 7 in
  let ops := ops ++ [Pdf.text (lit "- Security Risks Detected: " ++
                               toString (Z.of_nat (length (securityIssues data)))) 25 y] in
  let y := y + 7 in
  let ops := ops ++ [Pdf.text (lit "- Performance Smells Identified: " ++
                               toString (Z.of_nat (length (performanceIssues data)))) 25 y] in
  let y := y + 7 in
  let ops := ops ++ [Pdf.text (lit "- God Files (High Complexity): " ++
                               toString (Z.of_nat (length (godFiles data)))) 25 y] in
  let y := y + 15 in
  (ops, y).

(** One section of findings: its title, its lines, and the gap after
    it when [gap] is set; nothing at all for an empty list. *)
Definition pdfSection {A} (r g b : Z) (title : jsstring) (render : A -> jsstring)
    (items : list A) (gap : Z) (acc : list Pdf.Op * Z) : list Pdf.Op * Z :=
  if 0 <? Z.of_nat (length items) then
    let '(ops, y) := acc in
    let ops := ops ++ [Pdf.setTextColor r g b; Pdf.setFontSize 16; Pdf.text title 20 y] in
    let y := y + 10 in
    let ops := ops ++ [Pdf.setFontSize 10; Pdf.setTextColor 200 200 200] in
    let '(ops, y) := forEach render items (ops, y) in
    (ops, y + gap)
  else acc.

(** [exportPDF], with [now] for [new Date().toLocaleString()]: the calls
    on the document and the message posted to the extension. *)
Definition exportPDF (now : jsstring) (data : AnalysisData) : list Pdf.Op * Posted.t :=
  let acc := pdfHeader now data in
  let acc := pdfSection 255 45 85 (lit "Security Findings") securityLine
               (securityIssues data) 10 acc in
  let acc := pdfSection 255 184 0 (lit "Architecture Warnings (God Files)") godFileLine
               (godFiles data) 10 acc in
  let acc := pdfSection 0 242 254 (lit "Performance Insights") performanceLine
               (performanceIssues data) 0 acc in
  (fst acc ++ [Pdf.save (lit "CodePulse_Report_" ++ workspaceName data ++ lit ".pdf")],
   Posted.showInfo (lit "Full Comprehensive Report Exported!")).

(** The heights at which text is placed. *)
Fixpoint textHeights (ops : list Pdf.Op) : list Z :=
  match ops with
  | [] => []
  | Pdf.text _ _ y :: ops' => y :: textHeights ops'
  | _ :: ops' => textHeights ops'
  end.

(** Where a call places text: between the top margin and the bottom of
    the page, a finding or a summary line (at [x = 25]) not below 270. *)
Definition onPage (op : Pdf.Op) : Prop :=
  match op with
  | Pdf.text _ x y => 20 <= y <= 286 /\ (x = 25 -> y <= 270)
  | _ => True
  end.

(** The lines of text of a section of [n] findings: none for an empty
    section, otherwise the title and one line per finding. *)
Definition sectionLines (n : nat) : nat :=
  match n with
  | O => O
  | S _ => S n
  end.

(** A report with the given numbers of findings, for the examples. *)
Definition sampleReport (sec god perf : nat) : AnalysisData :=
  {| healthScore := 0;
     workspaceName := lit "demo";
     godFiles := repeat (FileDetail.mk (lit "a.ts") (lit "/w/a.ts") 501 10 (lit "ts")) god;
     securityIssues := repeat (SecurityIssue.mk (lit "a.ts") 0 (lit "sk-...")) sec;
     performanceIssues := repeat (PerformanceIssue.mk (lit "a.ts") 1 (lit "eval() usage")) perf;
     unusedFiles := [];
     allFiles := [];
     totalFiles := 1;
     totalLines := 501;
     unusedExports := 0;
     circularDeps := 0;
     scanProgress := 100;
     lastScanned := lit "10:00:00 AM" |}.

(* ================================================================== *)
(** * Properties *)

(** ** The effect monad *)

Section RunLemmas.
Context {A B : Type}.

Lemma outcome_bind (c : Run A) (f : A -> Run B) :
  outcome (bind c f) =
  match outcome c with
  | inl e => inl e
  | inr a => outcome (f a)
  end.
Proof.
  destruct c as [t [e|a]]; simpl; [reflexivity|].
  destruct (f a); reflexivity.
Qed.

Lemma trace_bind (c : Run A) (f : A -> Run B) :
  trace (bind c f) =
  trace c ++ match outcome c with
             | inl _ => []
             | inr a => trace (f a)
             end.
Proof.
  destruct c as [t [e|a]]; simpl.
  - now rewrite app_nil_r.
  - destruct (f a); reflexivity.
Qed.
End RunLemmas.

Lemma outcome_try_catch {A} (c : Run A) (handler : thrown -> Run A) :
  outcome (try_catch c handler) =
  match outcome c with
  | inl e => outcome (handler e)
  | inr a => inr a
  end.
Proof.
  destruct c as [t [e|a]]; simpl; [|reflexivity].
  destruct (handler e); reflexivity.
Qed.

Lemma trace_try_catch {A} (c : Run A) (handler : thrown -> Run A) :
  trace (try_catch c handler) =
  trace c ++ match outcome c with
             | inl e => trace (handler e)
             | inr _ => []
             end.
Proof.
  destruct c as [t [e|a]]; simpl.
  - destruct (handler e); reflexivity.
  - now rewrite app_nil_r.
Qed.

Lemma messages_app (t1 t2 : list Effect) :
  messages (t1 ++ t2) = messages t1 ++ messages t2.
Proof.
  induction t1 as [|e t1 IH]; simpl; [reflexivity|].
  destruct e; simpl; now rewrite IH.
Qed.

(** An invariant of the loop body is an invariant of the loop. *)
Lemma for_of_invariant {X S} (P : S -> Prop) (body : S -> X -> Run S) xs :
  (forall s x s', In x xs -> P s -> outcome (body s x) = inr s' -> P s') ->
  forall s s', P s -> outcome (for_of xs body s) = inr s' -> P s'.
Proof.
  induction xs as [|x xs IH]; simpl; intros Hbody s s' Hs Hrun.
  - injection Hrun as <-. exact Hs.
  - rewrite outcome_bind in Hrun.
    destruct (outcome (body s x)) as [e|s1] eqn:Hstep; [discriminate|].
    eapply IH; [| |exact Hrun].
    + intros s2 y s3 Hy. apply Hbody. now right.
    + eapply Hbody; eauto.
Qed.

(** ** The file loop *)

Lemma firstAbort_app h text patterns patterns' :
  firstAbort h text (patterns ++ patterns') =
  match firstAbort h text patterns with
  | Some err => Some err
  | None => firstAbort h text patterns'
  end.
Proof.
  induction patterns as [|p ps IH]; cbn [app firstAbort]; [reflexivity|].
  destruct (regExpAborts h p text); [reflexivity | exact IH].
Qed.

Lemma firstAbort_None h text patterns :
  firstAbort h text patterns = None <->
  forall pattern, In pattern patterns -> regExpAborts h pattern text = None.
Proof.
  induction patterns as [|p ps IH]; cbn [firstAbort].
  - split; [intros _ pattern [] | reflexivity].
  - destruct (regExpAborts h p text) as [err|] eqn:Hp.
    + split; [discriminate|]. intros Hall.
      rewrite (Hall p (or_introl eq_refl)) in Hp. discriminate.
    + rewrite IH. split.
      * intros Hall pattern [<-|Hin]; [exact Hp | now apply Hall].
      * intros Hall pattern Hin. apply Hall. now right.
Qed.

Lemma firstAbort_Some h text patterns err :
  firstAbort h text patterns = Some err ->
  exists pattern, In pattern patterns /\ regExpAborts h pattern text = Some err.
Proof.
  induction patterns as [|p ps IH]; cbn [firstAbort]; [discriminate|].
  destruct (regExpAborts h p text) as [e|] eqn:Hp.
  - intros [= <-]. exists p. split; [now left | exact Hp].
  - intros H. destruct (IH H) as (q & Hq & Hab). exists q. split; [now right | exact Hab].
Qed.

(** The inner loop of the security scan leaves no trace; it ends with
    the exception of the first pattern the engine gives up on. *)
Lemma securityScan_run h relativePath text : forall patterns issues,
  for_of patterns
    (fun issues pattern =>
       bind (String_match h text pattern)
         (fun matches =>
            ret (match matches with
                 | Some matches =>
                     push issues
                       (SecurityIssue.mk relativePath 0
                          (substring (nth 0 matches []) 0 40 ++ [ellipsis]))
                 | None => issues
                 end)))
    issues =
  ([], match firstAbort h text patterns with
       | Some err => inl err
       | None =>
           inr (fold_left
                  (fun issues pattern =>
                     match js_match text pattern with
                     | Some matches =>
                         push issues
                           (SecurityIssue.mk relativePath 0
                              (substring (nth 0 matches []) 0 40 ++ [ellipsis]))
                     | None => issues
                     end) patterns issues)
       end).
Proof.
  induction patterns as [|p ps IH]; intros issues; cbn [for_of firstAbort fold_left].
  - reflexivity.
  - unfold String_match at 1.
    destruct (regExpAborts h p text) as [err|]; [reflexivity|].
    cbn [ret bind app]. rewrite IH. reflexivity.
Qed.

Lemma securityScan_eq h relativePath text issues :
  securityScan h relativePath text issues =
  ([], match firstAbort h text secPatterns with
       | Some err => inl err
       | None => inr (securityIssuesAfter relativePath text issues)
       end).
Proof. apply securityScan_run. Qed.

Lemma performanceScan_eq h relativePath text issues :
  performanceScan h relativePath text issues =
  ([], match firstAbort h text [nestedLoopPattern; evalPattern] with
       | Some err => inl err
       | None => inr (performanceIssuesAfter relativePath text issues)
       end).
Proof.
  unfold performanceScan, String_match, RegExp_test, performanceIssuesAfter.
  cbn [firstAbort].
  destruct (regExpAborts h nestedLoopPattern text) as [err|]; [reflexivity|].
  destruct (regExpAborts h evalPattern text) as [err|]; reflexivity.
Qed.

Lemma scanned_opens h file doc :
  scanned h file = inr doc -> openTextDocument h file = inr doc.
Proof.
  unfold scanned. destruct (openTextDocument h file) as [e|d]; [discriminate|].
  destruct (firstAbort h (getText d) detectors); [discriminate|]. congruence.
Qed.

Lemma completes_scanned h file :
  completes h file <-> exists doc, scanned h file = inr doc.
Proof.
  unfold completes, scanned. split.
  - intros (doc & -> & Hall). apply firstAbort_None in Hall. rewrite Hall.
    now exists doc.
  - intros [doc Hsc]. destruct (openTextDocument h file) as [e|d]; [discriminate|].
    destruct (firstAbort h (getText d) detectors) eqn:Hab; [discriminate|].
    exists d. split; [reflexivity|]. now apply firstAbort_None.
Qed.

Lemma completes_opens h file : completes h file -> opens h file.
Proof. intros (doc & Hdoc & _). now exists doc. Qed.

(** An iteration ends with an exception exactly when the read fails or a
    detector throws. *)
Lemma scanned_fails h file :
  (exists err, scanned h file = inl err) <->
  (exists err, openTextDocument h file = inl err) \/
  (exists doc, openTextDocument h file = inr doc /\ detectorThrows h (getText doc)).
Proof.
  unfold scanned, detectorThrows.
  destruct (openTextDocument h file) as [e|doc].
  - split; [intros _; left; now exists e | intros _; now exists e].
  - destruct (firstAbort h (getText doc) detectors) as [err|] eqn:Hab.
    + split; [|intros _; now exists err].
      intros _. right. exists doc. split; [reflexivity|].
      destruct (firstAbort_Some _ _ _ Hab) as (p & Hp & Hpe). now exists p, err.
    + split; [intros [err Habs]; discriminate|].
      intros [[err Habs]|(d & [= <-] & p & err & Hp & Hpe)]; [discriminate|].
      rewrite firstAbort_None in Hab. rewrite (Hab p Hp) in Hpe. discriminate.
Qed.

Section Loop.
Variable h : Host.
Variable len : Z.

Lemma scanFile_outcome st file :
  outcome (scanFile h len st file) =
  match scanned h file with
  | inl e => inl e
  | inr doc =>
      let fd := FileDetail.mk (Path.basename (fsPath file)) (fsPath file)
                  (lineCount doc) (strlen (getText doc))
                  (replace (Path.extname (fsPath file)) (lit ".") (lit "")) in
      inr {| st_totalLines := st_totalLines st + lineCount doc;
             st_allFiles := push (st_allFiles st) fd;
             st_godFiles :=
               if lineCount doc >? 500 then push (st_godFiles st) fd
               else st_godFiles st;
             st_unusedFiles :=
               if (lineCount doc <? 5) && (lineCount doc >? 0)
               then push (st_unusedFiles st) fd else st_unusedFiles st;
             st_securityIssues :=
               securityIssuesAfter (asRelativePath h file) (getText doc)
                 (st_securityIssues st);
             st_performanceIssues :=
               performanceIssuesAfter (asRelativePath h file) (getText doc)
                 (st_performanceIssues st);
             st_progress := st_progress st + 1 |}
  end.
Proof.
  unfold scanFile, scanned, detectors.
  unfold emit, await, outcome. cbn [bind snd].
  destruct (openTextDocument h file) as [e|doc]; [reflexivity|].
  rewrite firstAbort_app, securityScan_eq, performanceScan_eq.
  destruct (firstAbort h (getText doc) secPatterns) as [err|]; [reflexivity|].
  cbn [bind].
  destruct (firstAbort h (getText doc) [nestedLoopPattern; evalPattern]) as [err|];
    reflexivity.
Qed.

Lemma scanFile_trace st file :
  trace (scanFile h len st file) =
  [PostMessage (Message.progress (progressPct (st_progress st + 1) len));
   CallOpenTextDocument file].
Proof.
  unfold scanFile, emit, await, trace. cbn [bind fst snd].
  destruct (openTextDocument h file) as [e|doc]; [reflexivity|].
  rewrite securityScan_eq, performanceScan_eq.
  destruct (firstAbort h (getText doc) secPatterns) as [err|]; [reflexivity|].
  cbn [bind].
  destruct (firstAbort h (getText doc) [nestedLoopPattern; evalPattern]) as [err|];
    reflexivity.
Qed.

(** The state of a completed iteration, from the document it read. *)
Lemma scanFile_completed st file doc st' :
  openTextDocument h file = inr doc ->
  outcome (scanFile h len st file) = inr st' ->
  scanned h file = inr doc.
Proof.
  intros Hdoc Hstep. rewrite scanFile_outcome in Hstep.
  destruct (scanned h file) as [e|d] eqn:Hsc; [discriminate|].
  apply scanned_opens in Hsc. congruence.
Qed.

Lemma for_of_trace files st :
  trace (for_of files (scanFile h len) st) =
loop_trace h len (st_progress st) files.
Proof.
  revert st; induction files as [|file files IH]; intros st; simpl.
  - reflexivity.
  - rewrite trace_bind, scanFile_trace, scanFile_outcome. simpl.
    destruct (scanned h file) as [e|doc]; [reflexivity|].
    now rewrite IH.
Qed.

(** The loop succeeds when every iteration runs to its end. *)
Lemma for_of_succeeds files st :
  Forall (completes h) files ->
  exists st', outcome (for_of files (scanFile h len) st) = inr st'.
Proof.
  intros Hall; revert st; induction Hall as [|f files Hf _ IH]; intros st; simpl.
  - now eexists.
  - apply completes_scanned in Hf. destruct Hf as [doc Hf].
    rewrite outcome_bind, scanFile_outcome, Hf. apply IH.
Qed.

(** Conversely, the loop succeeds only when every iteration runs to its
    end. *)
Lemma for_of_completes files st st' :
  outcome (for_of files (scanFile h len) st) = inr st' ->
  Forall (completes h) files.
Proof.
  revert st; induction files as [|f files IH]; intros st; simpl.
  - constructor.
  - rewrite outcome_bind, scanFile_outcome.
    destruct (scanned h f) as [e|doc] eqn:Hf; [discriminate|].
    intros Hrest. constructor; [|exact (IH _ Hrest)].
    apply completes_scanned. now exists doc.
Qed.

Lemma for_of_fails pre f post e st :
  Forall (completes h) pre ->
  scanned h f = inl e ->
  outcome (for_of (pre ++ f :: post) (scanFile h len) st) = inl e.
Proof.
  intros Hpre Hf; revert st; induction Hpre as [|g pre Hg _ IH]; intros st; simpl.
  - now rewrite outcome_bind, scanFile_outcome, Hf.
  - apply completes_scanned in Hg. destruct Hg as [doc Hg].
    rewrite outcome_bind, scanFile_outcome, Hg. apply IH.
Qed.
End Loop.

(** ** The shape of a run *)

Lemma analyzeWorkspace_messages this h :
  messages (trace (analyzeWorkspace this h)) =
  if negb (_view this) then [] else
  Message.analysisStarted ::
  match workspaceNameOf h with
  | None => []
  | Some workspaceName =>
      match findFiles h with
      | inl _ => [Message.analysisFailed]
      | inr files =>
          messages (loop_trace h (Z.of_nat (length files)) 0 files) ++
          match outcome (theLoop h files) with
          | inl _ => [Message.analysisFailed]
          | inr st =>
              [Message.progress 100;
               Message.analysisResult (report h workspaceName files st)]
          end
      end
  end.
Proof.
  unfold analyzeWorkspace.
  destruct (_view this); cbn [negb]; [|reflexivity].
  rewrite trace_bind. cbn [emit trace outcome fst snd app messages]. f_equal.
  rewrite trace_bind. unfold resolveWorkspaceName, workspaceNameOf.
  destruct (workspaceFolders h) as [[|folder folders]|];
    cbn [throw ret trace outcome fst snd app messages]; [reflexivity| |].
  all: rewrite trace_try_catch, outcome_bind, trace_bind.
  all: cbn [await trace outcome fst snd app messages].
  all: destruct (findFiles h) as [e|files];
    [ destruct e; reflexivity | ].
  all: rewrite outcome_bind, trace_bind, for_of_trace; fold (theLoop h files).
  all: destruct (outcome (theLoop h files)) as [e|st];
    cbn [initialState st_progress];
    rewrite ?app_nil_r, !messages_app;
    [ destruct e; reflexivity | reflexivity ].
Qed.

(** Only progress notifications are posted from inside the loop. *)
Lemma loop_trace_messages h len k files :
  exists values, messages (loop_trace h len k files) = map Message.progress values.
Proof.
  revert k; induction files as [|f files IH]; intros k; simpl.
  - now exists [].
  - destruct (scanned h f).
    + now exists [progressPct (k + 1) len].
    + destruct (IH (k + 1)) as [vs ->]. now exists (progressPct (k + 1) len :: vs).
Qed.

Lemma reads_app (t1 t2 : list Effect) : reads (t1 ++ t2) = reads t1 ++ reads t2.
Proof.
  induction t1 as [|e t1 IH]; simpl; [reflexivity|].
  destruct e; simpl; now rewrite IH.
Qed.

Lemma reads_In file t : In (CallOpenTextDocument file) t <-> In file (reads t).
Proof.
  induction t as [|e t IH]; simpl; [tauto|].
  destruct e; simpl; rewrite <- IH; try (intuition congruence).
Qed.

Lemma loop_trace_reads h len files : forall k,
  reads (loop_trace h len k files) = attempted h files.
Proof.
  induction files as [|f files IH]; intros k; simpl; [reflexivity|].
  f_equal. destruct (scanned h f); [reflexivity | apply IH].
Qed.

(** The files a run reads are those the loop gets to. *)
Lemma analyzeWorkspace_reads this h :
  reads (trace (analyzeWorkspace this h)) =
  if negb (_view this) then [] else
  match workspaceNameOf h with
  | None => []
  | Some _ =>
      match findFiles h with
      | inl _ => []
      | inr files => attempted h files
      end
  end.
Proof.
  unfold analyzeWorkspace.
  destruct (_view this); cbn [negb]; [|reflexivity].
  rewrite trace_bind. cbn [emit trace outcome fst snd app reads].
  rewrite trace_bind. unfold resolveWorkspaceName, workspaceNameOf.
  destruct (workspaceFolders h) as [[|folder folders]|];
    cbn [throw ret trace outcome fst snd app reads]; [reflexivity| |].
  all: rewrite trace_try_catch, outcome_bind, trace_bind.
  all: cbn [await trace outcome fst snd app reads].
  all: destruct (findFiles h) as [e|files];
    [ destruct e; reflexivity | ].
  all: rewrite outcome_bind, trace_bind, for_of_trace; fold (theLoop h files).
  all: rewrite !reads_app, loop_trace_reads.
  all: destruct (outcome (theLoop h files)) as [e|st];
    [ destruct e | ]; cbn [emit bind trace fst snd app reads];
    now rewrite ?app_nil_r.
Qed.

(** A result message is the report built from the final loop state of a
    loop that ran to its end. *)
Lemma analysisResult_inv this h data :
  In (Message.analysisResult data) (messages (trace (analyzeWorkspace this h))) ->
  exists workspaceName files st,
    _view this = true /\
    workspaceNameOf h = Some workspaceName /\
    findFiles h = inr files /\
    outcome (theLoop h files) = inr st /\
    data = report h workspaceName files st.
Proof.
  rewrite analyzeWorkspace_messages.
  destruct (_view this); simpl; [|tauto].
  intros [Hin|Hin]; [discriminate|].
  destruct (workspaceNameOf h) as [wn|]; [|destruct Hin].
  destruct (findFiles h) as [e|files].
  { destruct Hin as [Hin|[]]; discriminate. }
  apply in_app_or in Hin.
  destruct (loop_trace_messages h (Z.of_nat (length files)) 0 files) as [vs Hvs].
  rewrite Hvs in Hin. destruct Hin as [Hin|Hin].
  { apply in_map_iff in Hin. destruct Hin as (v & Hv & _). discriminate. }
  destruct (outcome (theLoop h files)) as [e|st] eqn:Hloop.
  { destruct Hin as [Hin|[]]; discriminate. }
  destruct Hin as [Hin|[Hin|[]]]; [discriminate|].
  injection Hin as <-. now exists wn, files, st.
Qed.

(** ** Invariants of the loop state *)

Lemma filter_push {A} (p : A -> bool) (l : list A) (x : A) :
  filter p (push l x) = if p x then push (filter p l) x else filter p l.
Proof.
  unfold push. rewrite filter_app. simpl.
  destruct (p x); [reflexivity | apply app_nil_r].
Qed.

Lemma size_classes_invariant h files st :
  outcome (theLoop h files) = inr st ->
  st_godFiles st = filter isGodFile (st_allFiles st) /\
  st_unusedFiles st = filter isNearEmpty (st_allFiles st).
Proof.
  unfold theLoop.
  apply (for_of_invariant
           (fun st => st_godFiles st = filter isGodFile (st_allFiles st) /\
                      st_unusedFiles st = filter isNearEmpty (st_allFiles st))).
  - intros s x s' _ [Hg Hu] Hstep. rewrite scanFile_outcome in Hstep.
    destruct (scanned h x) as [e|doc]; [discriminate|].
    injection Hstep as <-. simpl. rewrite !filter_push.
    unfold isGodFile, isNearEmpty; simpl. rewrite Hg, Hu. split; reflexivity.
  - split; reflexivity.
Qed.

(** ** Matching *)

Lemma substring_from_0 (s : jsstring) (n : nat) : substring s 0 n = firstn n s.
Proof.
  unfold substring. rewrite Nat.min_0_l, Nat.min_0_l, Nat.max_0_l. simpl.
  destruct (Nat.le_gt_cases n (length s)) as [Hle|Hgt].
  - now rewrite Nat.min_l.
  - rewrite Nat.min_r by lia. now rewrite !firstn_all2 by lia.
Qed.

Lemma firstn_min_length {A} (n : nat) (l : list A) :
  firstn (Nat.min n (length l)) l = firstn n l.
Proof.
  destruct (Nat.le_gt_cases n (length l)) as [Hle|Hgt].
  - now rewrite Nat.min_l.
  - rewrite Nat.min_r by lia. now rewrite !firstn_all2 by lia.
Qed.

(** A match is a prefix of the text it was attempted on. *)
Lemma match_here_prefix r left rest m :
  match_here r left rest = Some m -> exists after, rest = m ++ after.
Proof.
  unfold match_here.
  destruct (backtrack r _ left rest) as [after|]; [|discriminate].
  intros [= <-]. eexists. symmetry. apply firstn_skipn.
Qed.

(** [exec_from] finds the leftmost position at which the pattern matches. *)
Lemma exec_from_leftmost r rest : forall left skipped m,
  exec_from r left rest = Some (skipped, m) ->
  (exists after, rest = skipped ++ m ++ after) /\
  match_here r (rev skipped ++ left) (skipn (length skipped) rest) = Some m /\
  forall k, (k < length skipped)%nat ->
    match_here r (rev (firstn k skipped) ++ left) (skipn k rest) = None.
Proof.
  induction rest as [|c rest IH]; intros left skipped m; simpl.
  - destruct (match_here r left []) as [m'|] eqn:Hm; [|discriminate].
    intros [= <- <-]. simpl. repeat split.
    + apply match_here_prefix in Hm. exact Hm.
    + exact Hm.
    + intros k Hk. inversion Hk.
  - destruct (match_here r left (c :: rest)) as [m'|] eqn:Hm.
    + intros [= <- <-]. simpl. repeat split.
      * apply match_here_prefix in Hm. exact Hm.
      * exact Hm.
      * intros k Hk. inversion Hk.
    + destruct (exec_from r (c :: left) rest) as [[sk m']|] eqn:He; [|discriminate].
      intros [= <- <-]. destruct (IH _ _ _ He) as ((after & Hrest) & Hat & Hbefore).
      simpl. repeat split.
      * exists after. now rewrite Hrest.
      * now rewrite <- app_assoc.
      * intros [|k] Hk; simpl; [exact Hm|].
        rewrite <- app_assoc. apply Hbefore. lia.
Qed.

(** The array returned by a global match starts with the leftmost match,
    and is [null] exactly when [exec_from] finds nothing. *)
Lemma match_loop_exec r rest : forall left,
  match exec_from r left rest with
  | Some (_, m) => exists ms, match_loop r left rest 0 = m :: ms
  | None => match_loop r left rest 0 = []
  end.
Proof.
  induction rest as [|c rest IH]; intros left; simpl.
  - destruct (match_here r left []); [now eexists | reflexivity].
  - destruct (match_here r left (c :: rest)); [now eexists|].
    specialize (IH (c :: left)).
    destruct (exec_from r (c :: left) rest) as [[sk m]|]; exact IH.
Qed.

Lemma js_match_Some text pattern matches :
  js_match text pattern = Some matches ->
  exists skipped first others,
    matches = first :: others /\ exec_from pattern [] text = Some (skipped, first).
Proof.
  unfold js_match. intros H.
  pose proof (match_loop_exec pattern text []) as Hx.
  destruct (exec_from pattern [] text) as [[sk m]|].
  - destruct Hx as [ms Hx]. rewrite Hx in H. injection H as <-. now exists sk, m, ms.
  - rewrite Hx in H. discriminate.
Qed.

Lemma js_match_None text pattern :
  js_match text pattern = None <-> exec_from pattern [] text = None.
Proof.
  unfold js_match.
  pose proof (match_loop_exec pattern text []) as Hx.
  destruct (exec_from pattern [] text) as [[sk m]|].
  - destruct Hx as [ms ->]. split; discriminate.
  - rewrite Hx. split; reflexivity.
Qed.

(** ** The matcher against the declarative reading of a pattern *)

Lemma strip_prefix_Some p : forall s rest,
  strip_prefix p s = Some rest <-> s = p ++ rest.
Proof.
  induction p as [|c p IH]; intros s rest; simpl.
  - split; congruence.
  - destruct s as [|d s]; [split; discriminate|].
    destruct (N.eqb_spec c d) as [->|Hne].
    + rewrite IH. split; congruence.
    + split; [discriminate | congruence].
Qed.

Section Soundness.
Variable A : Type.
Implicit Types k : cont A.

Lemma rep_greedy_sound cs k rest : forall left a,
  rep_greedy cs k left rest = Some a ->
  exists m rest', rest = m ++ rest' /\ allIn cs m /\
                  k (rev m ++ left) rest' = Some a.
Proof.
  induction rest as [|c rest IH]; intros left a; simpl.
  - intros Hk. exists [], []. repeat split; [constructor | exact Hk].
  - destruct (cset_mem cs c) eqn:Hc.
    + destruct (rep_greedy cs k (c :: left) rest) as [a'|] eqn:Hrec.
      * intros [= <-]. destruct (IH _ _ Hrec) as (m & rest' & -> & Hm & Hk).
        exists (c :: m), rest'. split; [reflexivity|].
        split; [constructor; assumption|].
        simpl. now rewrite <- app_assoc.
      * intros Hk. exists [], (c :: rest). repeat split; [constructor | exact Hk].
    + intros Hk. exists [], (c :: rest). repeat split; [constructor | exact Hk].
Qed.

Lemma rep_lazy_sound cs k rest : forall left a,
  rep_lazy cs k left rest = Some a ->
  exists m rest', rest = m ++ rest' /\ allIn cs m /\
                  k (rev m ++ left) rest' = Some a.
Proof.
  induction rest as [|c rest IH]; intros left a; simpl.
  - destruct (k left []) eqn:Hk; [|discriminate].
    intros [= <-]. exists [], []. repeat split; [constructor | exact Hk].
  - destruct (k left (c :: rest)) eqn:Hk.
    + intros [= <-]. exists [], (c :: rest). repeat split; [constructor | exact Hk].
    + destruct (cset_mem cs c) eqn:Hc; [|discriminate].
      intros Hrec. destruct (IH _ _ Hrec) as (m & rest' & -> & Hm & Hk').
      exists (c :: m), rest'. split; [reflexivity|].
      split; [constructor; assumption|].
      simpl. now rewrite <- app_assoc.
Qed.

Lemma rep_min_sound cs k n : forall left rest a,
  rep_min n cs k left rest = Some a ->
  exists m rest', rest = m ++ rest' /\ allIn cs m /\ length m = n /\
                  k (rev m ++ left) rest' = Some a.
Proof.
  induction n as [|n IH]; intros left rest a; simpl.
  - intros Hk. exists [], rest. repeat split; [constructor | exact Hk].
  - destruct rest as [|c rest]; [discriminate|].
    destruct (cset_mem cs c) eqn:Hc; [|discriminate].
    intros Hrec. destruct (IH _ _ _ Hrec) as (m & rest' & -> & Hm & Hlen & Hk).
    exists (c :: m), rest'. split; [reflexivity|].
    split; [constructor; assumption|]. split; [simpl; lia|].
    simpl. now rewrite <- app_assoc.
Qed.

(** A successful backtracking search has found a match, after which the
    continuation succeeded. *)
Lemma backtrack_sound r : forall k left rest a,
  backtrack r k left rest = Some a ->
  exists m rest', rest = m ++ rest' /\ Matches r left m rest' /\
                  k (rev m ++ left) rest' = Some a.
Proof.
  induction r as [s|cs|r1 IH1 r2 IH2|r1 IH1 r2 IH2|cs n greedy|];
    intros k left rest a; cbn [backtrack].
  - destruct (strip_prefix s rest) as [rest'|] eqn:Hs; [|discriminate].
    apply strip_prefix_Some in Hs. intros Hk.
    exists s, rest'. repeat split; [exact Hs | constructor | exact Hk].
  - destruct rest as [|c rest]; [discriminate|].
    destruct (cset_mem cs c) eqn:Hc; [|discriminate].
    intros Hk. exists [c], rest. repeat split; [now constructor | exact Hk].
  - destruct (backtrack r1 k left rest) as [a'|] eqn:H1.
    + intros [= <-]. destruct (IH1 _ _ _ _ H1) as (m & rest' & -> & Hm & Hk).
      exists m, rest'. repeat split; [now apply M_Alt_l | exact Hk].
    + intros H2. destruct (IH2 _ _ _ _ H2) as (m & rest' & -> & Hm & Hk).
      exists m, rest'. repeat split; [now apply M_Alt_r | exact Hk].
  - intros H. destruct (IH1 _ _ _ _ H) as (m1 & rest1 & -> & Hm1 & H2).
    destruct (IH2 _ _ _ _ H2) as (m2 & rest2 & -> & Hm2 & Hk).
    exists (m1 ++ m2), rest2. split; [now rewrite app_assoc|].
    split; [now constructor|].
    now rewrite rev_app_distr, <- app_assoc.
  - intros H. destruct (rep_min_sound _ _ _ _ _ H)
      as (m1 & rest1 & -> & Hm1 & Hlen & H2).
    assert (Hmore : exists m2 rest2, rest1 = m2 ++ rest2 /\ allIn cs m2 /\
                      k (rev m2 ++ rev m1 ++ left) rest2 = Some a).
    { destruct greedy; [apply rep_greedy_sound | apply rep_lazy_sound]; exact H2. }
    destruct Hmore as (m2 & rest2 & -> & Hm2 & Hk).
    exists (m1 ++ m2), rest2. split; [now rewrite app_assoc|]. split.
    + constructor; [rewrite length_app; lia | now apply Forall_app].
    + now rewrite rev_app_distr, <- app_assoc.
  - destruct (xorb (is_word_at left) (is_word_at rest)) eqn:Hb; [|discriminate].
    intros Hk. exists [], rest. repeat split; [now constructor | exact Hk].
Qed.

Lemma rep_greedy_complete cs k m : forall left rest a,
  allIn cs m -> k (rev m ++ left) rest = Some a ->
  exists a', rep_greedy cs k left (m ++ rest) = Some a'.
Proof.
  induction m as [|c m IH]; intros left rest a Hm Hk; simpl in *.
  - destruct rest as [|c rest]; simpl; [now exists a|].
    destruct (cset_mem cs c); [|now exists a].
    destruct (rep_greedy cs k (c :: left) rest) as [a'|]; [now exists a' | now exists a].
  - inversion Hm as [|? ? Hc Hm']; subst. rewrite Hc.
    rewrite <- app_assoc in Hk. destruct (IH (c :: left) rest a Hm' Hk) as [a' ->].
    now exists a'.
Qed.

Lemma rep_lazy_complete cs k m : forall left rest a,
  allIn cs m -> k (rev m ++ left) rest = Some a ->
  exists a', rep_lazy cs k left (m ++ rest) = Some a'.
Proof.
  induction m as [|c m IH]; intros left rest a Hm Hk; simpl in *.
  - destruct rest; simpl; rewrite Hk; now exists a.
  - inversion Hm as [|? ? Hc Hm']; subst.
    destruct (k left (c :: m ++ rest)) as [a'|]; [now exists a'|].
    rewrite Hc. rewrite <- app_assoc in Hk. exact (IH (c :: left) rest a Hm' Hk).
Qed.

Lemma rep_min_complete cs k n : forall m left rest,
  allIn cs m -> length m = n ->
  rep_min n cs k left (m ++ rest) = k (rev m ++ left) rest.
Proof.
  induction n as [|n IH]; intros m left rest Hm Hlen.
  - destruct m; [reflexivity | discriminate].
  - destruct m as [|c m]; [discriminate|]. simpl.
    inversion Hm as [|? ? Hc Hm']; subst. rewrite Hc.
    rewrite IH by (try assumption; simpl in Hlen; lia).
    now rewrite <- app_assoc.
Qed.

Lemma split_run cs n m :
  (n <= length m)%nat -> allIn cs m ->
  exists m1 m2, m = m1 ++ m2 /\ length m1 = n /\ allIn cs m1 /\ allIn cs m2.
Proof.
  intros Hn Hm. exists (firstn n m), (skipn n m).
  split; [symmetry; apply firstn_skipn|].
  split; [rewrite length_firstn; lia|].
  apply Forall_app. rewrite firstn_skipn. exact Hm.
Qed.

(** If the text starts with a match after which the continuation
    succeeds, the backtracking search succeeds. *)
Lemma backtrack_complete r left m right :
  Matches r left m right ->
  forall k a, k (rev m ++ left) right = Some a ->
  exists a', backtrack r k left (m ++ right) = Some a'.
Proof.
  induction 1 as [s left right|cs c left right Hc|r1 r2 left m right _ IH
                 |r1 r2 left m right _ IH|r1 r2 left m1 m2 right _ IH1 _ IH2
                 |cs n greedy left m right Hn Hm|left right Hb];
    intros k a Hk; cbn [backtrack].
  - rewrite (proj2 (strip_prefix_Some s (s ++ right) right) eq_refl). now exists a.
  - simpl. rewrite Hc. now exists a.
  - destruct (IH _ _ Hk) as [a' ->]. now exists a'.
  - destruct (backtrack r1 k left (m ++ right)) as [a1|]; [now exists a1|].
    exact (IH _ _ Hk).
  - rewrite rev_app_distr, <- app_assoc in Hk.
    destruct (IH2 _ _ Hk) as [a2 H2].
    rewrite <- app_assoc. exact (IH1 _ _ H2).
  - destruct (split_run Hn Hm) as (m1 & m2 & -> & Hlen & Hm1 & Hm2).
    rewrite <- app_assoc, rep_min_complete by assumption.
    rewrite rev_app_distr, <- app_assoc in Hk.
    destruct greedy; [eapply rep_greedy_complete | eapply rep_lazy_complete]; eauto.
  - simpl. rewrite Hb. now exists a.
Qed.
End Soundness.

Lemma match_here_Matches r left rest m :
  match_here r left rest = Some m ->
  exists after, rest = m ++ after /\ Matches r left m after.
Proof.
  unfold match_here.
  destruct (backtrack r _ left rest) as [after|] eqn:Hb; [|discriminate].
  intros [= <-]. apply backtrack_sound in Hb.
  destruct Hb as (m & rest' & -> & Hm & [= <-]).
  exists rest'. rewrite length_app, Nat.add_sub, firstn_app, Nat.sub_diag.
  rewrite firstn_all, firstn_O, app_nil_r. split; [reflexivity | exact Hm].
Qed.

Lemma Matches_match_here r left m after :
  Matches r left m after -> exists m', match_here r left (m ++ after) = Some m'.
Proof.
  intros Hm. unfold match_here.
  destruct (@backtrack_complete jsstring r left m after Hm
              (fun _ after => Some after) after eq_refl) as [a' ->].
  now eexists.
Qed.

Lemma exec_from_None r rest : forall left,
  exec_from r left rest = None ->
  forall before m after, rest = before ++ m ++ after ->
    ~ Matches r (rev before ++ left) m after.
Proof.
  induction rest as [|c rest IH]; intros left Hexec before m after Hsplit Hm;
    cbn [exec_from] in Hexec.
  - destruct before; [|discriminate]. simpl in *.
    destruct (Matches_match_here Hm) as [m' Hm']. rewrite <- Hsplit in Hm'.
    now rewrite Hm' in Hexec.
  - destruct (match_here r left (c :: rest)) as [m0|] eqn:Hhere; [discriminate|].
    destruct before as [|b before]; simpl in *.
    + destruct (Matches_match_here Hm) as [m' Hm']. rewrite <- Hsplit in Hm'.
      congruence.
    + injection Hsplit as <- Hrest.
      destruct (exec_from r (c :: left) rest) as [[sk m1]|] eqn:Hrec; [discriminate|].
      rewrite <- app_assoc in Hm. exact (IH (c :: left) Hrec before m after Hrest Hm).
Qed.

(** The search succeeds exactly on the texts in which the pattern
    occurs. *)
Lemma exec_from_occursIn r text :
  (exists found, exec_from r [] text = Some found) <-> occursIn r text.
Proof.
  split.
  - intros [[skipped m] Hexec].
    destruct (exec_from_leftmost _ _ _ Hexec) as ((after & Htext) & Hat & _).
    rewrite app_nil_r in Hat. apply match_here_Matches in Hat.
    destruct Hat as (after' & Hskip & Hm).
    assert (Hsk : skipn (length skipped) text = m ++ after).
    { rewrite Htext, skipn_app, Nat.sub_diag, skipn_all. reflexivity. }
    rewrite Hsk in Hskip. apply app_inv_head in Hskip. subst after'.
    now exists skipped, m, after.
  - intros (before & m & after & Htext & Hm).
    destruct (exec_from r [] text) as [found|] eqn:Hexec; [now exists found|].
    exfalso. apply (@exec_from_None r text [] Hexec before m after Htext).
    now rewrite app_nil_r.
Qed.

Lemma test_occursIn r text : test r text = true <-> occursIn r text.
Proof.
  rewrite <- exec_from_occursIn. unfold test.
  destruct (exec_from r [] text) as [found|]; split;
    try discriminate; try reflexivity.
  - intros _. now exists found.
  - intros [found Habs]. discriminate.
Qed.

Lemma js_match_occursIn text r :
  (exists matches, js_match text r = Some matches) <-> occursIn r text.
Proof.
  rewrite <- exec_from_occursIn. split.
  - intros [ms Hm]. destruct (js_match_Some _ _ Hm) as (sk & first & _ & _ & He).
    exists (sk, first). exact He.
  - intros [found He]. destruct (js_match text r) as [ms|] eqn:Hm; [now exists ms|].
    apply js_match_None in Hm. congruence.
Qed.

Lemma Matches_minLength r left m right :
  Matches r left m right -> (minLength r <= length m)%nat.
Proof.
  induction 1; cbn [minLength length]; try lia.
  rewrite length_app. lia.
Qed.


(** ** The matches of a global search *)

Lemma match_here_None r left rest :
  match_here r left rest = None <-> ~ matchesAt r left rest.
Proof.
  split.
  - intros Hnone (m & after & -> & Hm).
    destruct (Matches_match_here Hm) as [m' Hm']. congruence.
  - intros Hno. destruct (match_here r left rest) as [m|] eqn:Hm; [|reflexivity].
    exfalso. apply Hno. apply match_here_Matches in Hm.
    destruct Hm as (after & Hrest & Hm). now exists m, after.
Qed.

(** The positions covered by the previous match are passed over. *)
Lemma match_loop_skip r covered : forall left rest,
  match_loop r left (covered ++ rest) (length covered) =
  match_loop r (rev covered ++ left) rest 0.
Proof.
  induction covered as [|c covered IH]; intros left rest; [reflexivity|].
  cbn [app length match_loop rev]. rewrite IH, <- app_assoc. reflexivity.
Qed.

(** Positions at which nothing matches are passed over one by one. *)
Lemma match_loop_gap r gap : forall left rest,
  (forall k, (k < length gap)%nat ->
     match_here r (rev (firstn k gap) ++ left) (skipn k (gap ++ rest)) = None) ->
  match_loop r left (gap ++ rest) 0 = match_loop r (rev gap ++ left) rest 0.
Proof.
  induction gap as [|c gap IH]; intros left rest Hgap; [reflexivity|].
  cbn [app match_loop rev].
  pose proof (Hgap 0%nat ltac:(cbn [length]; lia)) as H0. cbn in H0. rewrite H0.
  rewrite IH, <- app_assoc; [reflexivity|].
  intros k Hk. specialize (Hgap (S k) ltac:(cbn [length]; lia)).
  cbn [firstn skipn rev app] in Hgap. now rewrite <- app_assoc in Hgap.
Qed.

(** After a non-empty match the search resumes at its end. *)
Lemma match_loop_hit r left m after :
  match_here r left (m ++ after) = Some m -> m <> [] ->
  match_loop r left (m ++ after) 0 = m :: match_loop r (rev m ++ left) after 0.
Proof.
  intros Hm Hne. destruct m as [|c m]; [congruence|].
  cbn [app match_loop]. cbn [app] in Hm. rewrite Hm. f_equal.
  cbn [length pred rev]. rewrite match_loop_skip, <- app_assoc. reflexivity.
Qed.

(** The relation describes what the loop of a global search computes. *)
Lemma Successive_match_loop r left rest ms :
  Successive r left rest ms -> match_loop r left rest 0 = ms.
Proof.
  induction 1 as [left rest Hnone | left gap m after ms Hgap Hm Hne _ IH].
  - rewrite <- (app_nil_r rest). rewrite match_loop_gap.
    + cbn [match_loop].
      specialize (Hnone (length rest) (Nat.le_refl _)).
      rewrite firstn_all, skipn_all in Hnone.
      apply match_here_None in Hnone. now rewrite Hnone.
    + intros k Hk. apply match_here_None. rewrite app_nil_r.
      apply Hnone. lia.
  - rewrite match_loop_gap.
    + rewrite match_loop_hit by assumption. now rewrite IH.
    + intros k Hk. apply match_here_None. now apply Hgap.
Qed.

Lemma match_loop_Successive r :
  (0 < minLength r)%nat ->
  forall n left rest, (length rest <= n)%nat ->
    Successive r left rest (match_loop r left rest 0).
Proof.
  intros Hmin. induction n as [|n IH]; intros left rest Hn.
  - destruct rest as [|c rest]; [|cbn [length] in Hn; lia].
    cbn [match_loop].
    destruct (match_here r left []) as [m|] eqn:Hm.
    + exfalso. apply match_here_Matches in Hm. destruct Hm as (after & Hrest & Hm).
      apply Matches_minLength in Hm. destruct m; [cbn [length] in Hm; lia | discriminate].
    + constructor. intros k Hk. cbn [length] in Hk.
      replace k with 0%nat by lia. cbn. now apply match_here_None.
  - pose proof (match_loop_exec r rest left) as Hloop.
    destruct (exec_from r left rest) as [[gap m]|] eqn:Hexec.
    + destruct (exec_from_leftmost _ _ _ Hexec) as ((after & Hrest) & Hat & Hbefore).
      assert (Hskip : skipn (length gap) rest = m ++ after).
      { rewrite Hrest, skipn_app, Nat.sub_diag, skipn_all. reflexivity. }
      rewrite Hskip in Hat.
      assert (Hne : m <> []).
      { apply match_here_Matches in Hat. destruct Hat as (after' & _ & Hm).
        apply Matches_minLength in Hm. destruct m; [cbn [length] in Hm; lia | discriminate]. }
      assert (Hgap : forall k, (k < length gap)%nat ->
                match_here r (rev (firstn k gap) ++ left)
                  (skipn k (gap ++ m ++ after)) = None).
      { intros k Hk. rewrite <- Hrest. now apply Hbefore. }
      rewrite Hrest, (match_loop_gap _ _ _ _ Hgap), (match_loop_hit _ _ _ Hat Hne).
      constructor.
      * intros k Hk. apply match_here_None. now apply Hgap.
      * exact Hat.
      * exact Hne.
      * rewrite app_assoc. apply IH.
        rewrite Hrest, !length_app in Hn.
        destruct m; [congruence | cbn [length] in Hn; lia].
    + rewrite Hloop. constructor. intros k Hk [m [after [Hsk Hm]]].
      apply (@exec_from_None r rest left Hexec (firstn k rest) m after).
      * now rewrite <- Hsk, firstn_skipn.
      * exact Hm.
Qed.

(** For a pattern that cannot match the empty string, [match] returns
    the successive matches, or [null] when there is none. *)
Lemma js_match_Successive r text :
  (0 < minLength r)%nat ->
  exists ms,
    Successive r [] text ms /\
    js_match text r = match ms with [] => None | _ :: _ => Some ms end.
Proof.
  intros Hmin. exists (match_loop r [] text 0).
  split; [exact (@match_loop_Successive r Hmin (length text) [] text (Nat.le_refl _)) |].
  unfold js_match. destruct (match_loop r [] text 0); reflexivity.
Qed.

Lemma Successive_unique r left rest ms ms' :
  Successive r left rest ms -> Successive r left rest ms' -> ms = ms'.
Proof.
  intros H H'. apply Successive_match_loop in H, H'. congruence.
Qed.

(** ** The security scan *)

Lemma securityScan_over relativePath text patterns : forall issues,
  fold_left
    (fun issues pattern =>
       match js_match text pattern with
       | Some matches =>
           push issues
             (SecurityIssue.mk relativePath 0
                (substring (nth 0 matches []) 0 40 ++ [ellipsis]))
       | None => issues
       end) patterns issues
  = issues ++ flat_map (findingFor relativePath text) patterns.
Proof.
  induction patterns as [|p ps IH]; intros issues; simpl.
  - now rewrite app_nil_r.
  - rewrite IH. unfold findingFor at 2.
    destruct (js_match text p) as [ms|] eqn:Hm; [|reflexivity].
    destruct (js_match_Some _ _ Hm) as (sk & first & others & -> & _).
    unfold push. simpl. rewrite substring_from_0, <- app_assoc. reflexivity.
Qed.

Lemma securityScan_spec relativePath text issues :
  securityIssuesAfter relativePath text issues =
  issues ++ flat_map (findingFor relativePath text) secPatterns.
Proof. apply securityScan_over. Qed.

(** ** Binary64 arithmetic of the progress percentage *)

Lemma digits2_pos_size p : digits2_pos p = Pos.size p.
Proof. induction p; simpl; congruence. Qed.

Lemma Zdigits2_log2 m : 0 < m -> Zdigits2 m = Z.log2 m + 1.
Proof.
  destruct m as [|p|p]; try lia. intros _. simpl.
  destruct p; simpl; rewrite ?digits2_pos_size; lia.
Qed.

Lemma Zdigits2_unique m d :
  0 < d -> 2 ^ (d - 1) <= m < 2 ^ d -> Zdigits2 m = d.
Proof.
  intros Hd Hm.
  assert (0 < m) by (pose proof (Z.pow_pos_nonneg 2 (d - 1)); lia).
  rewrite Zdigits2_log2 by assumption.
  rewrite (Z.log2_unique m (d - 1)); [lia | lia |].
  replace (Z.succ (d - 1)) with d by lia. exact Hm.
Qed.

Lemma new_location_shifted N D :
  0 < D -> shr_record_of_loc (N / D) (new_location D (N mod D)) = shifted N D.
Proof.
  intros HD. pose proof (Z.mod_pos_bound N D HD) as Hr.
  unfold shifted, new_location, new_location_even, new_location_odd.
  set (r := N mod D) in *.
  destruct (Z.even D) eqn:Heven.
  - destruct (Z.eqb_spec r 0) as [->|Hr0].
    + cbn [shr_record_of_loc]. bool_cases.
    + destruct (Z.compare_spec (2 * r) D); cbn [shr_record_of_loc]; bool_cases.
  - destruct (Z.eqb_spec r 0) as [->|Hr0].
    + cbn [shr_record_of_loc]. bool_cases.
    + assert (Hodd : 2 * r <> D).
      { intros E. rewrite <- E, Z.even_mul in Heven. discriminate. }
      destruct (Z.compare_spec (2 * r + 1) D); cbn [shr_record_of_loc]; bool_cases.
Qed.

Lemma shr_1_nonneg q r s :
  0 <= q ->
  shr_1 {| shr_m := q; shr_r := r; shr_s := s |} =
  {| shr_m := q / 2; shr_r := Z.odd q; shr_s := r || s |}.
Proof.
  intros Hq. rewrite <- Z.div2_div.
  destruct q as [|[p|p|]|p]; try lia; reflexivity.
Qed.

Lemma shr_1_shifted N D :
  0 <= N -> 0 < D -> shr_1 (shifted N D) = shifted N (2 * D).
Proof.
  intros HN HD. pose proof (Z.mod_pos_bound N D HD) as Hr.
  assert (Hq : 0 <= N / D) by (apply Z.div_pos; lia).
  assert (Hdiv : N / (2 * D) = N / D / 2).
  { rewrite Z.mul_comm. symmetry. apply Z.div_div; lia. }
  assert (Hmod : N mod (2 * D) = N mod D + D * ((N / D) mod 2)).
  { rewrite (Z.mul_comm 2 D). apply Z.rem_mul_r; lia. }
  unfold shifted. rewrite shr_1_nonneg by assumption.
  rewrite Hdiv, Hmod, Zmod_odd.
  set (r := N mod D) in *.
  destruct (Z.odd (N / D)); f_equal; bool_cases.
Qed.

Lemma iter_shr_1_shifted p : forall N D,
  0 <= N -> 0 < D ->
  iter_pos shr_1 p (shifted N D) = shifted N (D * 2 ^ Z.pos p).
Proof.
  induction p as [p IH|p IH|]; intros N D HN HD; cbn [iter_pos].
  - rewrite shr_1_shifted, !IH
      by (try assumption; pose proof (Z.pow_pos_nonneg 2 (Z.pos p)); nia).
    assert (Hpow : 2 ^ Z.pos p~1 = 2 * (2 ^ Z.pos p * 2 ^ Z.pos p)).
    { rewrite <- Z.pow_add_r, <- Z.pow_succ_r by lia. f_equal. lia. }
    rewrite Hpow. f_equal. ring.
  - rewrite !IH
      by (try assumption; pose proof (Z.pow_pos_nonneg 2 (Z.pos p)); nia).
    assert (Hpow : 2 ^ Z.pos p~0 = 2 ^ Z.pos p * 2 ^ Z.pos p).
    { rewrite <- Z.pow_add_r by lia. f_equal. lia. }
    rewrite Hpow. f_equal. ring.
  - rewrite shr_1_shifted by assumption. f_equal. change (2 ^ 1) with 2. ring.
Qed.

Lemma shr_shifted N D e n :
  0 <= N -> 0 < D -> 0 <= n ->
  shr (shifted N D) e n = (shifted N (D * 2 ^ n), e + n).
Proof.
  intros HN HD Hn. destruct n as [|p|p]; try lia; cbn [shr].
  - now rewrite Z.mul_1_r, Z.add_0_r.
  - now rewrite iter_shr_1_shifted.
Qed.

Lemma round_nearest_even_shifted N D :
  0 < D ->
  round_nearest_even (shr_m (shifted N D)) (loc_of_shr_record (shifted N D)) =
  RNE N D.
Proof.
  intros HD. pose proof (Z.mod_pos_bound N D HD) as Hr.
  unfold shifted, RNE; cbn [shr_m loc_of_shr_record].
  set (r := N mod D) in *.
  destruct (Z.compare_spec (2 * r) D); bool_cases.
Qed.

Lemma RNE_floor_or_ceil N D :
  0 < D -> RNE N D = N / D \/ (RNE N D = N / D + 1 /\ D <= 2 * (N mod D)).
Proof.
  intros HD. unfold RNE.
  destruct (Z.compare_spec (2 * (N mod D)) D); [|now left|right; lia].
  destruct (Z.even (N / D)); [now left | right; lia].
Qed.

Lemma RNE_bounds N D lo hi :
  0 < D -> lo * D <= N < hi * D -> lo <= RNE N D <= hi.
Proof.
  intros HD [Hlo Hhi].
  assert (lo <= N / D) by (apply Z.div_le_lower_bound; lia).
  assert (N / D < hi) by (apply Z.div_lt_upper_bound; lia).
  destruct (@RNE_floor_or_ceil N D HD) as [->|[-> _]]; lia.
Qed.

Lemma RNE_monotone N D N' D' :
  0 < D -> 0 < D' -> N * D' <= N' * D -> RNE N D <= RNE N' D'.
Proof.
  intros HD HD' Hle.
  pose proof (Z.mod_pos_bound N D HD) as Hr.
  pose proof (Z.mod_pos_bound N' D' HD') as Hr'.
  pose proof (Z.div_mod N D ltac:(lia)) as HN.
  pose proof (Z.div_mod N' D' ltac:(lia)) as HN'.
  unfold RNE.
  set (q := N / D) in *. set (r := N mod D) in *.
  set (q' := N' / D') in *. set (r' := N' mod D') in *.
  assert (Hq : q <= q').
  { destruct (Z_le_gt_dec q q') as [Hle'|Hgt]; [exact Hle'|]. exfalso.
    assert (D * D' * (q' + 1) <= D * D' * q) by (apply Z.mul_le_mono_nonneg_l; nia).
    nia. }
  destruct (Z.eq_dec q q') as [Heq|Hne].
  - assert (Hrr : r * D' <= r' * D) by nia.
    rewrite <- Heq.
    destruct (Z.compare_spec (2 * r) D), (Z.compare_spec (2 * r') D');
      try destruct (Z.even q); try lia; nia.
  - destruct (Z.compare_spec (2 * r) D), (Z.compare_spec (2 * r') D');
      try destruct (Z.even q); try destruct (Z.even q'); lia.
Qed.

(** The result of [binary_round_aux] on a positive fraction [N / D]
    scaled by [2 ^ e], when its integer part has [53 + k] digits and no
    underflow or overflow occurs: the mantissa is the fraction shifted
    by [k] and rounded to nearest even. *)
Lemma binary_round_aux_spec N D e k loc :
  0 < D -> 0 <= k ->
  2 ^ 52 * (D * 2 ^ k) <= N < 2 ^ 53 * (D * 2 ^ k) ->
  shr_record_of_loc (N / D) loc = shifted N D ->
  -1074 <= e + k -> e + k + 1 <= 971 ->
  binary_round_aux prec emax false (N / D) e loc =
  if RNE N (D * 2 ^ k) <? 2 ^ 53
  then S754_finite false (Z.to_pos (RNE N (D * 2 ^ k))) (e + k)
  else S754_finite false (Z.to_pos (2 ^ 52)) (e + k + 1).
Proof.
  intros HD Hk HN Hloc Hlo Hhi.
  assert (Hpk : 0 < 2 ^ k) by (apply Z.pow_pos_nonneg; lia).
  assert (HN0 : 0 <= N) by nia.
  assert (Hdig : Zdigits2 (N / D) = 53 + k).
  { apply Zdigits2_unique; [lia|].
    replace (53 + k - 1) with (52 + k) by lia. rewrite !Z.pow_add_r by lia.
    split.
    - apply Z.div_le_lower_bound; [lia | nia].
    - apply Z.div_lt_upper_bound; [lia | nia]. }
  unfold binary_round_aux, shr_fexp. rewrite Hdig, Hloc.
  assert (Hfexp : fexp prec emax (53 + k + e) - e = k).
  { unfold fexp, emin, prec, emax. lia. }
  rewrite Hfexp, shr_shifted by lia.
  rewrite round_nearest_even_shifted by nia.
  pose proof (@RNE_bounds N (D * 2 ^ k) (2 ^ 52) (2 ^ 53) ltac:(nia) ltac:(lia)) as Hm.
  set (m := RNE N (D * 2 ^ k)) in *.
  destruct (Z.ltb_spec m (2 ^ 53)) as [Hlt|Hge].
  - assert (Hd : Zdigits2 m = 53) by (apply Zdigits2_unique; [lia | simpl in *; lia]).
    rewrite Hd.
    assert (Hf : fexp prec emax (53 + (e + k)) - (e + k) = 0).
    { unfold fexp, emin, prec, emax. lia. }
    rewrite Hf. cbn [shr_record_of_loc shr shr_m].
    destruct m as [|p|p]; try (simpl in Hm; lia).
    replace (e + k <=? emax - prec) with true
      by (symmetry; apply Z.leb_le; unfold prec, emax; lia).
    reflexivity.
  - assert (Hm53 : m = 2 ^ 53) by lia.
    rewrite Hm53.
    replace (fexp prec emax (Zdigits2 (2 ^ 53) + (e + k)) - (e + k)) with 1.
    2:{ change (Zdigits2 (2 ^ 53)) with 54. unfold fexp, emin, prec, emax. lia. }
    cbn [shr_record_of_loc shr iter_pos].
    change (shr_1 {| shr_m := 2 ^ 53; shr_r := false; shr_s := false |})
      with {| shr_m := 2 ^ 52; shr_r := false; shr_s := false |}.
    cbn [shr_m]. change (2 ^ 52) with (Z.pos (Z.to_pos (2 ^ 52))) at 1.
    cbv iota.
    replace (e + k + 1 <=? emax - prec) with true
      by (symmetry; apply Z.leb_le; unfold prec, emax; lia).
    reflexivity.
Qed.

Lemma rounded_normal N D e k :
  0 < D -> 0 <= k ->
  2 ^ 52 * (D * 2 ^ k) <= N < 2 ^ 53 * (D * 2 ^ k) ->
  normal (rounded N D e k) (e + k) (e + k + 1) /\
  (-200 <= e + k ->
   scaled (rounded N D e k) = RNE N (D * 2 ^ k) * 2 ^ (e + k + 200)).
Proof.
  intros HD Hk HN.
  assert (Hpk : 0 < 2 ^ k) by (apply Z.pow_pos_nonneg; lia).
  pose proof (@RNE_bounds N (D * 2 ^ k) (2 ^ 52) (2 ^ 53) ltac:(nia) ltac:(lia)) as Hm.
  unfold rounded. set (m := RNE N (D * 2 ^ k)) in *.
  assert (H52 : 0 < 2 ^ 52) by reflexivity.
  destruct (Z.ltb_spec m (2 ^ 53)) as [Hlt|Hge]; split.
  - exists (Z.to_pos m), (e + k). rewrite Z2Pos.id by lia.
    repeat split; lia.
  - intros _. cbn [scaled]. now rewrite Z2Pos.id by lia.
  - exists (Z.to_pos (2 ^ 52)), (e + k + 1). repeat split; try lia; reflexivity.
  - intros Hb. cbn [scaled]. replace m with (2 ^ 53) by lia.
    replace (e + k + 1 + 200) with (Z.succ (e + k + 200)) by lia.
    rewrite Z.pow_succ_r by lia. rewrite Z2Pos.id by reflexivity.
    change (2 ^ 53) with (2 ^ 52 * 2). ring.
Qed.

(** Rounding is monotone: a smaller fraction rounds to a smaller number,
    also across binades. *)
Lemma rounded_monotone N D e k N' D' e' k' :
  0 < D -> 0 <= k -> 2 ^ 52 * (D * 2 ^ k) <= N < 2 ^ 53 * (D * 2 ^ k) ->
  0 < D' -> 0 <= k' -> 2 ^ 52 * (D' * 2 ^ k') <= N' < 2 ^ 53 * (D' * 2 ^ k') ->
  -200 <= e -> -200 <= e' ->
  N * D' * 2 ^ (e + 200) <= N' * D * 2 ^ (e' + 200) ->
  scaled (rounded N D e k) <= scaled (rounded N' D' e' k').
Proof.
  intros HD Hk HN HD' Hk' HN' He He' Hle.
  rewrite (proj2 (rounded_normal e HD Hk HN)) by lia.
  rewrite (proj2 (rounded_normal e' HD' Hk' HN')) by lia.
  assert (HK : 0 < 2 ^ k) by (apply Z.pow_pos_nonneg; lia).
  assert (HK' : 0 < 2 ^ k') by (apply Z.pow_pos_nonneg; lia).
  assert (HA : 0 < 2 ^ (e + 200)) by (apply Z.pow_pos_nonneg; lia).
  assert (HA' : 0 < 2 ^ (e' + 200)) by (apply Z.pow_pos_nonneg; lia).
  pose proof (@RNE_bounds N (D * 2 ^ k) (2 ^ 52) (2 ^ 53) ltac:(nia) ltac:(lia)) as Hm.
  pose proof (@RNE_bounds N' (D' * 2 ^ k') (2 ^ 52) (2 ^ 53) ltac:(nia) ltac:(lia)) as Hm'.
  replace (e + k + 200) with (e + 200 + k) by lia.
  replace (e' + k' + 200) with (e' + 200 + k') by lia.
  rewrite (Z.pow_add_r 2 (e + 200) k), (Z.pow_add_r 2 (e' + 200) k') by lia.
  set (K := 2 ^ k) in *. set (K' := 2 ^ k') in *.
  set (A := 2 ^ (e + 200)) in *. set (A' := 2 ^ (e' + 200)) in *.
  set (m := RNE N (D * K)) in *. set (m' := RNE N' (D' * K')) in *.
  assert (Hpow : A * K = 2 ^ (e + 200 + k) /\ A' * K' = 2 ^ (e' + 200 + k')).
  { unfold A, K, A', K'.
    rewrite (Z.pow_add_r 2 (e + 200) k), (Z.pow_add_r 2 (e' + 200) k') by lia.
    split; reflexivity. }
  destruct Hpow as [HAK HAK'].
  assert (H52 : 0 < 2 ^ 52) by reflexivity.
  assert (H53 : 2 ^ 53 = 2 * 2 ^ 52) by reflexivity.
  destruct (Z.lt_trichotomy (e + k) (e' + k')) as [Hlt|[Heq|Hgt]].
  - assert (Hstep : 2 * (A * K) <= A' * K').
    { rewrite HAK, HAK', <- Z.pow_succ_r by lia. apply Z.pow_le_mono_r; lia. }
    assert (m * (A * K) <= 2 ^ 53 * (A * K)) by (apply Z.mul_le_mono_nonneg_r; nia).
    assert (2 ^ 52 * (A' * K') <= m' * (A' * K')) by (apply Z.mul_le_mono_nonneg_r; nia).
    nia.
  - assert (Hsame : A * K = A' * K').
    { rewrite HAK, HAK'. f_equal. lia. }
    assert (Hmm : m <= m').
    { apply RNE_monotone; [nia | nia |].
      apply Z.mul_le_mono_pos_r with (A * K); [nia|].
      replace (N * (D' * K') * (A * K)) with (N * D' * A * (K * K')) by ring.
      rewrite Hsame.
      replace (N' * (D * K) * (A' * K')) with (N' * D * A' * (K * K')) by ring.
      apply Z.mul_le_mono_nonneg_r; nia. }
    replace (m * (A * K)) with (m * (A' * K')) by (rewrite Hsame; ring).
    apply Z.mul_le_mono_nonneg_r; nia.
  - exfalso.
    assert (Hstep : 2 * (A' * K') <= A * K).
    { rewrite HAK, HAK', <- Z.pow_succ_r by lia. apply Z.pow_le_mono_r; lia. }
    assert (H1 : 2 ^ 52 * (D * K) * (D' * A) <= N * (D' * A))
      by (apply Z.mul_le_mono_nonneg_r; nia).
    assert (H2 : N' * (D * A') < 2 ^ 53 * (D' * K') * (D * A'))
      by (apply Z.mul_lt_mono_pos_r; nia).
    assert (H3 : 2 ^ 53 * (D' * K') * (D * A') <= 2 ^ 52 * (D * K) * (D' * A)).
    { replace (2 ^ 53 * (D' * K') * (D * A')) with (2 ^ 52 * (D * D') * (2 * (A' * K')))
        by (rewrite H53; ring).
      replace (2 ^ 52 * (D * K) * (D' * A)) with (2 ^ 52 * (D * D') * (A * K)) by ring.
      apply Z.mul_le_mono_nonneg_l; nia. }
    nia.
Qed.

Lemma iter_xO p n : Z.pos (Pos.iter xO p n) = Z.pos p * 2 ^ Z.pos n.
Proof.
  induction n as [|n IH] using Pos.peano_ind.
  - cbn [Pos.iter]. change (2 ^ 1) with 2. lia.
  - rewrite Pos.iter_succ, Pos2Z.inj_xO, IH, Pos2Z.inj_succ, Z.pow_succ_r by lia.
    ring.
Qed.

Lemma shl_align_spec m e e' :
  e' <= e ->
  exists mz, shl_align m e e' = (mz, e') /\ Z.pos mz = Z.pos m * 2 ^ (e - e').
Proof.
  intros Hle. unfold shl_align.
  destruct (e' - e) as [|d|d] eqn:Hd; try lia.
  - assert (e' = e) by lia. subst e'. exists m. rewrite Z.sub_diag. split; [reflexivity | lia].
  - exists (Pos.iter xO m d). split; [reflexivity|].
    rewrite iter_xO. f_equal. f_equal. lia.
Qed.

Lemma RNE_integer N : RNE N (1 * 2 ^ 0) = N.
Proof.
  unfold RNE. change (1 * 2 ^ 0) with 1. now rewrite Z.mod_1_r, Z.div_1_r.
Qed.

Lemma shifted_integer N : shr_record_of_loc (N / 1) loc_Exact = shifted N 1.
Proof. unfold shifted. rewrite Z.mod_1_r. reflexivity. Qed.

(** The Number value of a positive safe integer is that integer. *)
Lemma of_Z_normal i :
  0 < i < 2 ^ 53 ->
  normal (of_Z i) (-52) 0 /\ scaled (of_Z i) = i * 2 ^ 200.
Proof.
  intros Hi. destruct i as [|p|p]; try lia.
  unfold of_Z, binary_normalize, binary_round.
  set (d := Z.pos (digits2_pos p)).
  assert (Hd : 2 ^ (d - 1) <= Z.pos p < 2 ^ d).
  { pose proof (Z.log2_spec (Z.pos p) ltac:(lia)) as Hlog.
    pose proof (@Zdigits2_log2 (Z.pos p) ltac:(lia)) as Hdig.
    change (Zdigits2 (Z.pos p)) with d in Hdig.
    replace (d - 1) with (Z.log2 (Z.pos p)) by lia.
    replace d with (Z.succ (Z.log2 (Z.pos p))) by lia. exact Hlog. }
  assert (Hd53 : 1 <= d <= 53).
  { split; [unfold d; lia|].
    destruct (Z_le_gt_dec d 53) as [Hle|Hgt]; [exact Hle | exfalso].
    assert (2 ^ 53 <= 2 ^ (d - 1)) by (apply Z.pow_le_mono_r; lia). lia. }
  assert (Hfexp : fexp prec emax (d + 0) = d - 53).
  { unfold fexp, emin, prec, emax. lia. }
  rewrite Hfexp.
  destruct (@shl_align_spec p 0 (d - 53) ltac:(lia)) as (mz & -> & Hmz).
  assert (Hrange : 2 ^ 52 * (1 * 2 ^ 0) <= Z.pos mz < 2 ^ 53 * (1 * 2 ^ 0)).
  { rewrite Hmz. replace (0 - (d - 53)) with (53 - d) by lia.
    assert (Hp : 0 < 2 ^ (53 - d)) by (apply Z.pow_pos_nonneg; lia).
    assert (H52 : 2 ^ 52 = 2 ^ (d - 1) * 2 ^ (53 - d)).
    { rewrite <- Z.pow_add_r by lia. f_equal. lia. }
    assert (H53 : 2 ^ 53 = 2 ^ d * 2 ^ (53 - d)).
    { rewrite <- Z.pow_add_r by lia. f_equal. lia. }
    rewrite H52, H53. change (1 * 2 ^ 0) with 1. nia. }
  pose proof (@binary_round_aux_spec (Z.pos mz) 1 (d - 53) 0 loc_Exact
                ltac:(lia) ltac:(lia) Hrange (shifted_integer _)
                ltac:(lia) ltac:(lia)) as Hround.
  rewrite Z.div_1_r, RNE_integer in Hround. rewrite Hround.
  change (1 * 2 ^ 0) with 1 in Hrange.
  replace (Z.pos mz <? 2 ^ 53) with true by (symmetry; apply Z.ltb_lt; lia).
  cbn [Z.to_pos]. split.
  - exists mz, (d - 53 + 0). repeat split; lia.
  - cbn [scaled]. rewrite Hmz.
    replace (0 - (d - 53)) with (53 - d) by lia.
    rewrite <- Z.mul_assoc, <- Z.pow_add_r by lia. f_equal. f_equal. lia.
Qed.

Lemma div_rounded mx ex my ey :
  2 ^ 52 <= Z.pos mx < 2 ^ 53 -> 2 ^ 52 <= Z.pos my < 2 ^ 53 ->
  -52 <= ex <= 0 -> -52 <= ey <= 0 ->
  let k := if Z.pos mx <? Z.pos my then 0 else 1 in
  div (S754_finite false mx ex) (S754_finite false my ey) =
    rounded (Z.pos mx * 2 ^ 53) (Z.pos my) (ex - ey - 53) k /\
  0 <= k <= 1 /\
  2 ^ 52 * (Z.pos my * 2 ^ k) <= Z.pos mx * 2 ^ 53 < 2 ^ 53 * (Z.pos my * 2 ^ k).
Proof.
  intros Hmx Hmy Hex Hey k.
  assert (H53 : 2 ^ 53 = 2 * 2 ^ 52) by reflexivity.
  assert (Hk : 0 <= k <= 1 /\
    2 ^ 52 * (Z.pos my * 2 ^ k) <= Z.pos mx * 2 ^ 53 < 2 ^ 53 * (Z.pos my * 2 ^ k)).
  { unfold k. destruct (Z.ltb_spec (Z.pos mx) (Z.pos my)).
    - change (2 ^ 0) with 1. split; [lia | nia].
    - change (2 ^ 1) with 2. split; [lia | nia]. }
  destruct Hk as [Hk Hrange]. split; [|split; assumption].
  unfold div, SFdiv, SFdiv_core_binary. cbn [xorb].
  assert (Hdx : Zdigits2 (Z.pos mx) = 53) by (apply Zdigits2_unique; [lia | exact Hmx]).
  assert (Hdy : Zdigits2 (Z.pos my) = 53) by (apply Zdigits2_unique; [lia | exact Hmy]).
  rewrite Hdx, Hdy.
  assert (He : Z.min (fexp prec emax (53 + ex - (53 + ey))) (ex - ey) = ex - ey - 53).
  { unfold fexp, emin, prec, emax. lia. }
  rewrite He. replace (ex - ey - (ex - ey - 53)) with 53 by lia.
  rewrite Z.shiftl_mul_pow2 by lia.
  set (N := Z.pos mx * 2 ^ 53).
  assert (Heucl : Z.div_eucl N (Z.pos my) = (N / Z.pos my, N mod Z.pos my)).
  { unfold Z.div, Z.modulo. destruct (Z.div_eucl N (Z.pos my)); reflexivity. }
  rewrite Heucl.
  apply binary_round_aux_spec; try lia.
  apply new_location_shifted. lia.
Qed.

Lemma mul_rounded mx ex my ey :
  2 ^ 52 <= Z.pos mx < 2 ^ 53 -> 2 ^ 52 <= Z.pos my < 2 ^ 53 ->
  -200 <= ex + ey <= 200 ->
  let k := if Z.pos mx * Z.pos my <? 2 ^ 105 then 52 else 53 in
  mul (S754_finite false mx ex) (S754_finite false my ey) =
    rounded (Z.pos mx * Z.pos my) 1 (ex + ey) k /\
  52 <= k <= 53 /\
  2 ^ 52 * (1 * 2 ^ k) <= Z.pos mx * Z.pos my < 2 ^ 53 * (1 * 2 ^ k).
Proof.
  intros Hmx Hmy He k.
  assert (Hk : 52 <= k <= 53 /\
    2 ^ 52 * (1 * 2 ^ k) <= Z.pos mx * Z.pos my < 2 ^ 53 * (1 * 2 ^ k)).
  { unfold k. destruct (Z.ltb_spec (Z.pos mx * Z.pos my) (2 ^ 105)).
    - split; [lia|]. split; [|exact H].
      change (2 ^ 52 * (1 * 2 ^ 52)) with (2 ^ 52 * 2 ^ 52). nia.
    - split; [lia|]. split; [exact H|].
      change (2 ^ 53 * (1 * 2 ^ 53)) with (2 ^ 53 * 2 ^ 53). nia. }
  destruct Hk as [Hk Hrange]. split; [|split; assumption].
  unfold mul, SFmul. cbn [xorb]. rewrite Pos2Z.inj_mul.
  pose proof (@binary_round_aux_spec (Z.pos mx * Z.pos my) 1 (ex + ey) k loc_Exact
                ltac:(lia) ltac:(lia) Hrange (shifted_integer _)
                ltac:(lia) ltac:(lia)) as Hround.
  rewrite Z.div_1_r in Hround. exact Hround.
Qed.

Lemma normal_weaken x lo hi lo' hi' :
  normal x lo hi -> lo' <= lo -> hi <= hi' -> normal x lo' hi'.
Proof.
  intros (m & e & -> & Hm & He) Hlo Hhi. exists m, e. repeat split; lia.
Qed.

(** Division by a fixed number is monotone. *)
Lemma div_monotone x x' y :
  normal x (-52) 0 -> normal x' (-52) 0 -> normal y (-52) 0 ->
  scaled x <= scaled x' ->
  normal (div x y) (-105) 1 /\ normal (div x' y) (-105) 1 /\
  scaled (div x y) <= scaled (div x' y).
Proof.
  intros (mx & ex & -> & Hmx & Hex) (mx' & ex' & -> & Hmx' & Hex')
         (my & ey & -> & Hmy & Hey) Hle.
  destruct (div_rounded Hmx Hmy Hex Hey) as (-> & Hk & Hr).
  destruct (div_rounded Hmx' Hmy Hex' Hey) as (-> & Hk' & Hr').
  set (k := if Z.pos mx <? Z.pos my then 0 else 1) in *.
  set (k' := if Z.pos mx' <? Z.pos my then 0 else 1) in *.
  split; [|split].
  - eapply normal_weaken; [apply rounded_normal; try lia; exact Hr | lia | lia].
  - eapply normal_weaken; [apply rounded_normal; try lia; exact Hr' | lia | lia].
  - apply rounded_monotone; try lia; try assumption.
    cbn [scaled] in Hle.
    assert (Hs : 0 < 2 ^ (ey + 53)) by (apply Z.pow_pos_nonneg; lia).
    assert (Hp : forall a, -52 <= a <= 0 ->
              2 ^ (a + 200) = 2 ^ (a - ey - 53 + 200) * 2 ^ (ey + 53)).
    { intros a Ha. rewrite <- Z.pow_add_r by lia. f_equal. lia. }
    rewrite (Hp ex Hex), (Hp ex' Hex') in Hle.
    assert (Hq : 0 < 2 ^ (ex - ey - 53 + 200)) by (apply Z.pow_pos_nonneg; lia).
    assert (Hq' : 0 < 2 ^ (ex' - ey - 53 + 200)) by (apply Z.pow_pos_nonneg; lia).
    set (A := 2 ^ (ex - ey - 53 + 200)) in *.
    set (A' := 2 ^ (ex' - ey - 53 + 200)) in *.
    assert (Hc : Z.pos mx * A <= Z.pos mx' * A').
    { apply Z.mul_le_mono_pos_r with (2 ^ (ey + 53)); [exact Hs | lia]. }
    assert (H53 : 0 < 2 ^ 53) by reflexivity.
    replace (Z.pos mx * 2 ^ 53 * Z.pos my * A)
      with (Z.pos mx * A * (2 ^ 53 * Z.pos my)) by ring.
    replace (Z.pos mx' * 2 ^ 53 * Z.pos my * A')
      with (Z.pos mx' * A' * (2 ^ 53 * Z.pos my)) by ring.
    apply Z.mul_le_mono_nonneg_r; [lia | exact Hc].
Qed.

(** Multiplication by a fixed number is monotone. *)
Lemma mul_monotone x x' c :
  normal x (-105) 1 -> normal x' (-105) 1 -> normal c (-52) 0 ->
  scaled x <= scaled x' ->
  normal (mul x c) (-105) 55 /\ normal (mul x' c) (-105) 55 /\
  scaled (mul x c) <= scaled (mul x' c).
Proof.
  intros (mx & ex & -> & Hmx & Hex) (mx' & ex' & -> & Hmx' & Hex')
         (mc & ec & -> & Hmc & Hec) Hle.
  destruct (@mul_rounded mx ex mc ec Hmx Hmc ltac:(lia)) as (-> & Hk & Hr).
  destruct (@mul_rounded mx' ex' mc ec Hmx' Hmc ltac:(lia)) as (-> & Hk' & Hr').
  set (k := if Z.pos mx * Z.pos mc <? 2 ^ 105 then 52 else 53) in *.
  set (k' := if Z.pos mx' * Z.pos mc <? 2 ^ 105 then 52 else 53) in *.
  split; [|split].
  - eapply normal_weaken; [apply rounded_normal; try lia; exact Hr | lia | lia].
  - eapply normal_weaken; [apply rounded_normal; try lia; exact Hr' | lia | lia].
  - apply rounded_monotone; try lia; try assumption.
    cbn [scaled] in Hle.
    assert (Hs : 0 < 2 ^ (- ec)) by (apply Z.pow_pos_nonneg; lia).
    assert (Hp : forall a, -105 <= a <= 1 ->
              2 ^ (a + 200) = 2 ^ (a + ec + 200) * 2 ^ (- ec)).
    { intros a Ha. rewrite <- Z.pow_add_r by lia. f_equal. lia. }
    rewrite (Hp ex Hex), (Hp ex' Hex') in Hle.
    assert (Hq : 0 < 2 ^ (ex + ec + 200)) by (apply Z.pow_pos_nonneg; lia).
    assert (Hq' : 0 < 2 ^ (ex' + ec + 200)) by (apply Z.pow_pos_nonneg; lia).
    set (A := 2 ^ (ex + ec + 200)) in *.
    set (A' := 2 ^ (ex' + ec + 200)) in *.
    assert (Hc : Z.pos mx * A <= Z.pos mx' * A').
    { apply Z.mul_le_mono_pos_r with (2 ^ (- ec)); [exact Hs | lia]. }
    replace (Z.pos mx * Z.pos mc * 1 * A) with (Z.pos mx * A * Z.pos mc) by ring.
    replace (Z.pos mx' * Z.pos mc * 1 * A') with (Z.pos mx' * A' * Z.pos mc) by ring.
    apply Z.mul_le_mono_nonneg_r; [lia | exact Hc].
Qed.

(** [Math.round] through the scaled value. *)
Lemma Math_round_scaled x lo hi :
  normal x lo hi -> -200 <= lo ->
  Math_round x = (2 * scaled x + 2 ^ 200) / 2 ^ 201.
Proof.
  intros (m & e & -> & Hm & He) Hlo. cbn [Math_round scaled].
  destruct e as [|p|p].
  - change (2 ^ (0 + 200)) with (2 ^ 200). change (2 ^ 201) with (2 ^ 200 * 2).
    replace (2 * (Z.pos m * 2 ^ 200) + 2 ^ 200)
      with (2 ^ 200 * 1 + Z.pos m * 2 ^ 0 * (2 ^ 200 * 2)) by (change (2 ^ 0) with 1; ring).
    rewrite Z.div_add by (cbv; discriminate).
    rewrite Z.div_mul_cancel_l by (cbv; discriminate).
    change (1 / 2) with 0. lia.
  - assert (Hpow : 2 ^ (Z.pos p + 200) = 2 ^ Z.pos p * 2 ^ 200)
      by (apply Z.pow_add_r; lia).
    rewrite Hpow. change (2 ^ 201) with (2 ^ 200 * 2).
    replace (2 * (Z.pos m * (2 ^ Z.pos p * 2 ^ 200)) + 2 ^ 200)
      with (2 ^ 200 * 1 + Z.pos m * 2 ^ Z.pos p * (2 ^ 200 * 2)) by ring.
    rewrite Z.div_add by (cbv; discriminate).
    rewrite Z.div_mul_cancel_l by (cbv; discriminate).
    change (1 / 2) with 0. lia.
  - assert (Hp : Z.pos p <= 200) by lia.
    assert (Hc : 0 < 2 ^ (200 - Z.pos p)) by (apply Z.pow_pos_nonneg; lia).
    assert (H200 : 2 ^ 200 = 2 ^ Z.pos p * 2 ^ (200 - Z.pos p)).
    { rewrite <- Z.pow_add_r by lia. f_equal. lia. }
    assert (H201 : 2 ^ 201 = 2 ^ (Z.pos p + 1) * 2 ^ (200 - Z.pos p)).
    { rewrite <- Z.pow_add_r by lia. f_equal. lia. }
    replace (Z.neg p + 200) with (200 - Z.pos p) by lia.
    rewrite H201. rewrite H200 at 1.
    replace (2 * (Z.pos m * 2 ^ (200 - Z.pos p)) + 2 ^ Z.pos p * 2 ^ (200 - Z.pos p))
      with ((2 * Z.pos m + 2 ^ Z.pos p) * 2 ^ (200 - Z.pos p)) by ring.
    rewrite Z.div_mul_cancel_r; [reflexivity | | lia].
    pose proof (Z.pow_pos_nonneg 2 (Z.pos p + 1)). lia.
Qed.

Lemma Math_round_monotone x x' lo hi :
  normal x lo hi -> normal x' lo hi -> -200 <= lo ->
  scaled x <= scaled x' -> Math_round x <= Math_round x'.
Proof.
  intros Hx Hx' Hlo Hle.
  rewrite (Math_round_scaled Hx Hlo), (Math_round_scaled Hx' Hlo).
  apply Z.div_le_mono; [reflexivity | lia].
Qed.

Lemma eighty_five_normal : normal (of_Z 85) (-52) 0.
Proof. apply of_Z_normal. split; reflexivity. Qed.

(** The progress percentage is non-decreasing in the number of files. *)
Theorem progressPct_monotone i j len :
  0 < i <= j -> j <= len -> len < 2 ^ 53 ->
  progressPct i len <= progressPct j len.
Proof.
  intros Hij Hj Hlen. unfold progressPct.
  destruct (@of_Z_normal i ltac:(lia)) as [Hi Hsi].
  destruct (@of_Z_normal j ltac:(lia)) as [Hj' Hsj].
  destruct (@of_Z_normal len ltac:(lia)) as [Hn _].
  destruct (@div_monotone (of_Z i) (of_Z j) (of_Z len) Hi Hj' Hn) as (Hdi & Hdj & Hd).
  { rewrite Hsi, Hsj. apply Z.mul_le_mono_nonneg_r; [cbv; discriminate | lia]. }
  destruct (mul_monotone Hdi Hdj eighty_five_normal Hd) as (Hmi & Hmj & Hm).
  eapply Math_round_monotone; eauto. lia.
Qed.

(** When every file is done the percentage is 85. *)
Theorem progressPct_full len : 0 < len < 2 ^ 53 -> progressPct len len = 85.
Proof.
  intros Hlen. unfold progressPct.
  destruct (@of_Z_normal len Hlen) as [(m & e & -> & Hm & He) _].
  destruct (div_rounded Hm Hm He He) as (-> & _ & _).
  rewrite Z.ltb_irrefl. unfold rounded.
  assert (HN : Z.pos m * 2 ^ 53 = 2 ^ 52 * (Z.pos m * 2 ^ 1))
    by (change (2 ^ 53) with (2 ^ 52 * 2 ^ 1); ring).
  assert (HR : RNE (Z.pos m * 2 ^ 53) (Z.pos m * 2 ^ 1) = 2 ^ 52).
  { unfold RNE. rewrite HN, Z.mod_mul, Z.div_mul by lia.
    change (2 * 0) with 0. now destruct (Z.compare_spec 0 (Z.pos m * 2 ^ 1)); try lia. }
  rewrite HR. replace (e - e - 53 + 1) with (-52) by lia.
  vm_compute. reflexivity.
Qed.

(* ================================================================== *)
(** * The claims *)

(** C1: for every run that yields a report, the health score is
    [clamp (100 - deductions) 0 100] with deductions 15 per security
    finding, 5 per god file, 8 per performance finding and 2 per
    near-empty file, and it lies in [0, 100]. *)
Theorem health_score_is_clamped_deduction this h data :
  In (Message.analysisResult data) (messages (trace (analyzeWorkspace this h))) ->
  let deductions :=
    15 * Z.of_nat (length (securityIssues data)) +
    5 * Z.of_nat (length (godFiles data)) +
    8 * Z.of_nat (length (performanceIssues data)) +
    2 * Z.of_nat (length (unusedFiles data)) in
  healthScore data = clamp (100 - deductions) 0 100 /\
  0 <= healthScore data <= 100.
Proof.
  intros Hin.
  destruct (analysisResult_inv _ _ _ Hin) as (wn & files & st & _ & _ & _ & _ & ->).
  unfold report, deductionsOf, clamp; cbn [healthScore securityIssues godFiles
    performanceIssues unusedFiles].
  split; [f_equal; f_equal; lia | lia].
Qed.

Lemma health_score_is_clamped_deduction_witness :
  let data := Examples.reportOf Examples.twoFiles in
  In (Message.analysisResult data)
     (messages (trace (analyzeWorkspace Samples.view Examples.twoFiles))) /\
  (healthScore data =
     clamp (100 - (15 * Z.of_nat (length (securityIssues data)) +
                   5 * Z.of_nat (length (godFiles data)) +
                   8 * Z.of_nat (length (performanceIssues data)) +
                   2 * Z.of_nat (length (unusedFiles data)))) 0 100 /\
   0 <= healthScore data <= 100).
Proof.
  intros data.
  assert (Hin : In (Message.analysisResult data)
     (messages (trace (analyzeWorkspace Samples.view Examples.twoFiles)))).
  { vm_compute. do 4 right. left. reflexivity. }
  split; [exact Hin|].
  exact (health_score_is_clamped_deduction _ _ _ Hin).
Defined.

(** C2: the score is 100 exactly when there are no security findings, no
    god files, no performance findings and no near-empty files; a scan of
    an empty file set reports score 100, no files, no lines, empty lists
    and [circularDeps = 0]. *)
Theorem perfect_score_iff_no_findings :
  (forall this h data,
     In (Message.analysisResult data) (messages (trace (analyzeWorkspace this h))) ->
     (healthScore data = 100 <->
      securityIssues data = [] /\ godFiles data = [] /\
      performanceIssues data = [] /\ unusedFiles data = [])) /\
  (forall this h workspaceName,
     _view this = true ->
     workspaceNameOf h = Some workspaceName ->
     findFiles h = inr [] ->
     exists data,
       messages (trace (analyzeWorkspace this h)) =
         [Message.analysisStarted; Message.progress 100;
          Message.analysisResult data] /\
       healthScore data = 100 /\ totalFiles data = 0 /\ totalLines data = 0 /\
       godFiles data = [] /\ securityIssues data = [] /\
       performanceIssues data = [] /\ unusedFiles data = [] /\
       allFiles data = [] /\ circularDeps data = 0).
Proof.
  split.
  - intros this h data Hin.
    destruct (analysisResult_inv _ _ _ Hin) as (wn & files & st & _ & _ & _ & _ & ->).
    unfold report, deductionsOf; cbn [healthScore securityIssues godFiles
      performanceIssues unusedFiles].
    split.
    + intros Hscore.
      assert (Hlen : forall A (l : list A), Z.of_nat (length l) <= 0 -> l = []).
      { intros A [|x l]; simpl; [reflexivity | lia]. }
      repeat split; apply Hlen; lia.
    + intros (-> & -> & -> & ->). reflexivity.
  - intros this h wn Hview Hname Hfiles.
    exists (report h wn [] initialState).
    rewrite analyzeWorkspace_messages, Hview, Hname, Hfiles. simpl.
    repeat split; reflexivity.
Qed.

Lemma perfect_score_iff_no_findings_witness :
  (In (Message.analysisResult (Examples.reportOf Examples.twoFiles))
      (messages (trace (analyzeWorkspace Samples.view Examples.twoFiles))) /\
   (healthScore (Examples.reportOf Examples.twoFiles) = 100 <->
    securityIssues (Examples.reportOf Examples.twoFiles) = [] /\
    godFiles (Examples.reportOf Examples.twoFiles) = [] /\
    performanceIssues (Examples.reportOf Examples.twoFiles) = [] /\
    unusedFiles (Examples.reportOf Examples.twoFiles) = [])) /\
  (_view Samples.view = true /\
   workspaceNameOf Examples.noFiles = Some (lit "demo") /\
   findFiles Examples.noFiles = inr [] /\
   exists data,
     messages (trace (analyzeWorkspace Samples.view Examples.noFiles)) =
       [Message.analysisStarted; Message.progress 100;
        Message.analysisResult data] /\
     healthScore data = 100 /\ totalFiles data = 0 /\ totalLines data = 0 /\
     godFiles data = [] /\ securityIssues data = [] /\
     performanceIssues data = [] /\ unusedFiles data = [] /\
     allFiles data = [] /\ circularDeps data = 0).
Proof.
  destruct perfect_score_iff_no_findings as [Hiff Hempty].
  assert (Hin : In (Message.analysisResult (Examples.reportOf Examples.twoFiles))
     (messages (trace (analyzeWorkspace Samples.view Examples.twoFiles)))).
  { vm_compute. do 4 right. left. reflexivity. }
  split.
  - split; [exact Hin | exact (Hiff _ _ _ Hin)].
  - repeat split; try reflexivity.
    apply (Hempty Samples.view Examples.noFiles (lit "demo")); reflexivity.
Defined.

(** A filtered list is a strict subset exactly when the filter rejects an
    element. *)
Lemma filter_strict_subset {A} (p : A -> bool) (l : list A) :
  strict_subset (filter p l) l <-> exists x, In x l /\ p x = false.
Proof.
  unfold strict_subset. split.
  - intros [_ Hnot].
    destruct (forallb p l) eqn:Hall.
    + exfalso. apply Hnot. intros x Hx. apply filter_In. split; [exact Hx|].
      rewrite forallb_forall in Hall. now apply Hall.
    + assert (Hex : existsb (fun x => negb (p x)) l = true).
      { clear Hnot. induction l as [|a l IH]; simpl in *; [discriminate|].
        destruct (p a); simpl in *; [now apply IH | reflexivity]. }
      apply existsb_exists in Hex. destruct Hex as (x & Hx & Hp).
      exists x. split; [exact Hx|]. now destruct (p x).
  - intros (x & Hx & Hp). split.
    + intros y Hy. apply filter_In in Hy. tauto.
    + intros Hincl. apply Hincl, filter_In in Hx. destruct Hx as [_ Hx]. congruence.
Qed.

(** C5 (as amended): a scanned file is in the god-files list exactly when
    it has more than 500 lines, so a file of 500 lines is not; the
    god-files list is a sub-list of the all-files list, and a strict
    subset exactly when some scanned file has at most 500 lines. *)
Theorem god_files_are_those_over_500 this h data :
  In (Message.analysisResult data) (messages (trace (analyzeWorkspace this h))) ->
  godFiles data = filter (fun fd => FileDetail.lines fd >? 500) (allFiles data) /\
  (forall fd, In fd (allFiles data) ->
     (In fd (godFiles data) <-> FileDetail.lines fd > 500)) /\
  (forall fd, In fd (allFiles data) -> FileDetail.lines fd = 500 ->
     ~ In fd (godFiles data)) /\
  incl (godFiles data) (allFiles data) /\
  (strict_subset (godFiles data) (allFiles data) <->
   exists fd, In fd (allFiles data) /\ FileDetail.lines fd <= 500).
Proof.
  intros Hin.
  destruct (analysisResult_inv _ _ _ Hin) as (wn & files & st & _ & _ & _ & Hloop & ->).
  destruct (size_classes_invariant _ _ Hloop) as [Hgod _].
  cbn [report godFiles allFiles]. rewrite Hgod. fold isGodFile.
  assert (Hmem : forall fd, In fd (st_allFiles st) ->
            (In fd (filter isGodFile (st_allFiles st)) <-> FileDetail.lines fd > 500)).
  { intros fd Hfd. rewrite filter_In. unfold isGodFile.
    rewrite Z.gtb_ltb, Z.ltb_lt. intuition lia. }
  split; [reflexivity|]. split; [exact Hmem|]. split; [|split; [|split]].
  - intros fd Hfd H500 Hgodfd. apply Hmem in Hgodfd; [lia | exact Hfd].
  - intros fd Hfd. apply filter_In in Hfd. tauto.
  - intros Hs. apply filter_strict_subset in Hs. destruct Hs as (fd & Hfd & Hp).
    exists fd. split; [exact Hfd|]. unfold isGodFile in Hp.
    rewrite Z.gtb_ltb, Z.ltb_ge in Hp. exact Hp.
  - intros (fd & Hfd & Hle). apply filter_strict_subset. exists fd.
    split; [exact Hfd|]. unfold isGodFile. rewrite Z.gtb_ltb, Z.ltb_ge. exact Hle.
Qed.

Lemma god_files_are_those_over_500_witness :
  let data := Examples.reportOf Examples.twoFiles in
  In (Message.analysisResult data)
     (messages (trace (analyzeWorkspace Samples.view Examples.twoFiles))) /\
  (godFiles data = filter (fun fd => FileDetail.lines fd >? 500) (allFiles data) /\
   (forall fd, In fd (allFiles data) ->
      (In fd (godFiles data) <-> FileDetail.lines fd > 500)) /\
   (forall fd, In fd (allFiles data) -> FileDetail.lines fd = 500 ->
      ~ In fd (godFiles data)) /\
   incl (godFiles data) (allFiles data) /\
   (strict_subset (godFiles data) (allFiles data) <->
    exists fd, In fd (allFiles data) /\ FileDetail.lines fd <= 500)).
Proof.
  intros data.
  assert (Hin : In (Message.analysisResult data)
     (messages (trace (analyzeWorkspace Samples.view Examples.twoFiles)))).
  { vm_compute. do 4 right. left. reflexivity. }
  split; [exact Hin|].
  exact (god_files_are_those_over_500 _ _ _ Hin).
Defined.

(** C5 as stated fails: when the only scanned file has 501 lines the
    god-files list equals the all-files list. *)
Lemma god_files_strict_subset_counterexample :
  let data := Examples.reportOf Examples.oneBig in
  In (Message.analysisResult data)
     (messages (trace (analyzeWorkspace Samples.view Examples.oneBig))) /\
  godFiles data = allFiles data /\
  ~ strict_subset (godFiles data) (allFiles data).
Proof.
  intros data. split; [|split].
  - vm_compute. do 3 right. left. reflexivity.
  - reflexivity.
  - intros [_ Hnot]. apply Hnot. apply incl_refl.
Qed.

(** C6 (as amended): a scanned file is in the near-empty list exactly
    when it has more than 0 and fewer than 5 lines, so a file of zero
    lines never is; the near-empty list is a sub-list of the all-files
    list, and a strict subset exactly when some scanned file has no line
    or at least 5 lines. *)
Theorem near_empty_files_are_those_between_0_and_5 this h data :
  In (Message.analysisResult data) (messages (trace (analyzeWorkspace this h))) ->
  unusedFiles data =
    filter (fun fd => (FileDetail.lines fd <? 5) && (FileDetail.lines fd >? 0))
      (allFiles data) /\
  (forall fd, In fd (allFiles data) ->
     (In fd (unusedFiles data) <-> 0 < FileDetail.lines fd < 5)) /\
  (forall fd, FileDetail.lines fd = 0 -> ~ In fd (unusedFiles data)) /\
  incl (unusedFiles data) (allFiles data) /\
  (strict_subset (unusedFiles data) (allFiles data) <->
   exists fd, In fd (allFiles data) /\
              (FileDetail.lines fd <= 0 \/ 5 <= FileDetail.lines fd)).
Proof.
  intros Hin.
  destruct (analysisResult_inv _ _ _ Hin) as (wn & files & st & _ & _ & _ & Hloop & ->).
  destruct (size_classes_invariant _ _ Hloop) as [_ Hstub].
  cbn [report unusedFiles allFiles]. rewrite Hstub. fold isNearEmpty.
  assert (Hp : forall fd, isNearEmpty fd = true <-> 0 < FileDetail.lines fd < 5).
  { intros fd. unfold isNearEmpty.
    rewrite andb_true_iff, Z.gtb_ltb, !Z.ltb_lt. lia. }
  assert (Hn : forall fd, isNearEmpty fd = false <->
                 (FileDetail.lines fd <= 0 \/ 5 <= FileDetail.lines fd)).
  { intros fd. specialize (Hp fd). destruct (isNearEmpty fd).
    - split; [discriminate|]. intros Hr. assert (0 < FileDetail.lines fd < 5) by now apply Hp.
      lia.
    - split; [|reflexivity]. intros _.
      destruct (Z_le_gt_dec (FileDetail.lines fd) 0); [now left|].
      destruct (Z_le_gt_dec 5 (FileDetail.lines fd)); [now right|].
      assert (false = true) by (apply Hp; lia). discriminate. }
  split; [reflexivity|]. split; [|split; [|split; [|split]]].
  - intros fd Hall. rewrite filter_In, Hp. tauto.
  - intros fd H0 Hfd. apply filter_In in Hfd. destruct Hfd as [_ Hfd].
    apply Hp in Hfd. lia.
  - intros fd Hfd. apply filter_In in Hfd. tauto.
  - intros Hs. apply filter_strict_subset in Hs. destruct Hs as (fd & Hfd & Hq).
    exists fd. split; [exact Hfd | now apply Hn].
  - intros (fd & Hfd & Hq). apply filter_strict_subset. exists fd.
    split; [exact Hfd | now apply Hn].
Qed.

Lemma near_empty_files_are_those_between_0_and_5_witness :
  let data := Examples.reportOf Examples.twoFiles in
  In (Message.analysisResult data)
     (messages (trace (analyzeWorkspace Samples.view Examples.twoFiles))) /\
  (unusedFiles data =
     filter (fun fd => (FileDetail.lines fd <? 5) && (FileDetail.lines fd >? 0))
       (allFiles data) /\
   (forall fd, In fd (allFiles data) ->
      (In fd (unusedFiles data) <-> 0 < FileDetail.lines fd < 5)) /\
   (forall fd, FileDetail.lines fd = 0 -> ~ In fd (unusedFiles data)) /\
   incl (unusedFiles data) (allFiles data) /\
   (strict_subset (unusedFiles data) (allFiles data) <->
    exists fd, In fd (allFiles data) /\
               (FileDetail.lines fd <= 0 \/ 5 <= FileDetail.lines fd))).
Proof.
  intros data.
  assert (Hin : In (Message.analysisResult data)
     (messages (trace (analyzeWorkspace Samples.view Examples.twoFiles)))).
  { vm_compute. do 4 right. left. reflexivity. }
  split; [exact Hin|].
  exact (near_empty_files_are_those_between_0_and_5 _ _ _ Hin).
Defined.

(** C6 as stated fails: when the only scanned file has three lines the
    near-empty list equals the all-files list. *)
Lemma near_empty_strict_subset_counterexample :
  let data := Examples.reportOf Examples.oneStub in
  In (Message.analysisResult data)
     (messages (trace (analyzeWorkspace Samples.view Examples.oneStub))) /\
  unusedFiles data = allFiles data /\
  ~ strict_subset (unusedFiles data) (allFiles data).
Proof.
  intros data. split; [|split].
  - vm_compute. do 3 right. left. reflexivity.
  - reflexivity.
  - intros [_ Hnot]. apply Hnot. apply incl_refl.
Qed.

(** What one pattern contributes, through the leftmost match. *)
Lemma findingFor_leftmost relativePath text pattern :
  findingFor relativePath text pattern =
  match exec_from pattern [] text with
  | Some (_, first) =>
      [SecurityIssue.mk relativePath 0 (firstn 40 first ++ [ellipsis])]
  | None => []
  end.
Proof.
  unfold findingFor.
  destruct (js_match text pattern) as [ms|] eqn:Hm.
  - destruct (js_match_Some _ _ Hm) as (sk & first & others & -> & ->). reflexivity.
  - apply js_match_None in Hm. now rewrite Hm.
Qed.

(** C3: scanning a file adds, for each of the patterns that matches its
    text at least once, exactly one security finding, whatever the number
    of matches: it carries the file's relative path, line 0, and the first
    (leftmost) match cut to 40 code units and followed by the ellipsis.
    A text with three matches of the key pattern gives one finding. *)
Theorem one_security_finding_per_matching_pattern :
  (forall h len st file doc st',
     openTextDocument h file = inr doc ->
     outcome (scanFile h len st file) = inr st' ->
     st_securityIssues st' =
       st_securityIssues st ++
       flat_map
         (fun pattern =>
            match exec_from pattern [] (getText doc) with
            | Some (_, first) =>
                [SecurityIssue.mk (asRelativePath h file) 0
                   (firstn 40 first ++ [ellipsis])]
            | None => []
            end) secPatterns) /\
  (forall text pattern matches,
     js_match text pattern = Some matches ->
     exists skipped first others,
       matches = first :: others /\
       exec_from pattern [] text = Some (skipped, first)) /\
  (js_match Examples.secrets (nth 0 secPatterns (Chars [])) =
     Some [lit "SECRET = 'abcd1234efgh'"; lit "API_KEY: `ABCDEFGH12345`";
           lit "TOKEN='zzzzzzzzzzzz'"] /\
   outcome (securityScan Examples.twoFiles (lit "B.TS") Examples.secrets []) =
     inr [SecurityIssue.mk (lit "B.TS") 0
            (lit "SECRET = 'abcd1234efgh'" ++ [ellipsis])]).
Proof.
  split; [|split; [|split]].
  - intros h len st file doc st' Hdoc Hstep.
    pose proof (@scanFile_completed _ _ _ _ _ _ Hdoc Hstep) as Hsc.
    rewrite scanFile_outcome, Hsc in Hstep. injection Hstep as <-.
    cbn [st_securityIssues]. rewrite securityScan_spec. f_equal.
    apply flat_map_ext. intros pattern. apply findingFor_leftmost.
  - intros text pattern matches. apply js_match_Some.
  - vm_compute. reflexivity.
  - vm_compute. reflexivity.
Qed.

Lemma one_security_finding_per_matching_pattern_witness :
  let h := Examples.twoFiles in
  let file := {| fsPath := lit "/w/B.TS" |} in
  let doc := {| getText := Examples.secrets; lineCount := 501 |} in
  let st' := match outcome (scanFile h 2 initialState file) with
             | inr st' => st'
             | inl _ => initialState
             end in
  openTextDocument h file = inr doc /\
  outcome (scanFile h 2 initialState file) = inr st' /\
  st_securityIssues st' =
    st_securityIssues initialState ++
    flat_map
      (fun pattern =>
         match exec_from pattern [] (getText doc) with
         | Some (_, first) =>
             [SecurityIssue.mk (asRelativePath h file) 0
                (firstn 40 first ++ [ellipsis])]
         | None => []
         end) secPatterns.
Proof.
  intros h file doc st'.
  assert (Hdoc : openTextDocument h file = inr doc) by reflexivity.
  assert (Hstep : outcome (scanFile h 2 initialState file) = inr st').
  { unfold st'. rewrite scanFile_outcome. reflexivity. }
  split; [exact Hdoc|]. split; [exact Hstep|].
  exact (proj1 one_security_finding_per_matching_pattern h 2 initialState file doc st'
           Hdoc Hstep).
Defined.

(** C4: scanning a file whose text has nested-loop matches adds exactly
    one performance finding of type "Nested Loops", whose count is the
    number of successive matches of the pattern in the text, as a global
    search collects them: each match is the one found at the first
    position, from the end of the previous match on, where the pattern
    matches; a file without a match adds none.  These matches are
    determined by the text.  The one-line double loop gives one finding
    with count 1, the same line twice gives count 2, and three loops
    inside each other give count 1, since matches do not overlap. *)
Theorem nested_loops_finding_counts_matches :
  (forall h len st file doc st',
     openTextDocument h file = inr doc ->
     outcome (scanFile h len st file) = inr st' ->
     exists added nestedLoops,
       st_performanceIssues st' = st_performanceIssues st ++ added /\
       Successive nestedLoopPattern [] (getText doc) nestedLoops /\
       filter isNestedLoops added =
         match nestedLoops with
         | [] => []
         | _ :: _ =>
             [PerformanceIssue.mk (asRelativePath h file)
                (Z.of_nat (length nestedLoops)) (lit "Nested Loops")]
         end) /\
  (forall left text ms ms',
     Successive nestedLoopPattern left text ms ->
     Successive nestedLoopPattern left text ms' -> ms = ms') /\
  (js_match Examples.nested nestedLoopPattern =
     Some [lit "for (i=0;i<n;i++) { for ("] /\
   outcome (performanceScan Examples.twoFiles (lit "a.ts") Examples.nested []) =
     inr [PerformanceIssue.mk (lit "a.ts") 1 (lit "Nested Loops")]) /\
  (js_match Examples.nestedTwice nestedLoopPattern =
     Some [lit "for (i=0;i<n;i++) { for ("; lit "for (i=0;i<n;i++) { for ("] /\
   outcome (performanceScan Examples.twoFiles (lit "a.ts") Examples.nestedTwice []) =
     inr [PerformanceIssue.mk (lit "a.ts") 2 (lit "Nested Loops")]) /\
  (js_match Examples.nestedThreeDeep nestedLoopPattern =
     Some [lit "for (a) { for (b) { for ("] /\
   outcome (performanceScan Examples.twoFiles (lit "a.ts") Examples.nestedThreeDeep []) =
     inr [PerformanceIssue.mk (lit "a.ts") 1 (lit "Nested Loops")]).
Proof.
  split; [|split; [|split; [|split]]].
  - intros h len st file doc st' Hdoc Hstep.
    pose proof (@scanFile_completed _ _ _ _ _ _ Hdoc Hstep) as Hsc.
    rewrite scanFile_outcome, Hsc in Hstep. injection Hstep as <-.
    cbn [st_performanceIssues].
    destruct (@js_match_Successive nestedLoopPattern (getText doc)
                ltac:(vm_compute; lia)) as (ms & Hms & Hmatch).
    unfold performanceIssuesAfter, push. rewrite Hmatch.
    destruct ms as [|m ms]; destruct (test evalPattern (getText doc)).
    + eexists _, []. split; [reflexivity|]. split; [exact Hms | reflexivity].
    + exists [], []. split; [now rewrite app_nil_r|]. split; [exact Hms | reflexivity].
    + eexists _, (m :: ms). rewrite <- app_assoc.
      split; [reflexivity|]. split; [exact Hms | reflexivity].
    + eexists _, (m :: ms). split; [reflexivity|]. split; [exact Hms | reflexivity].
  - intros left text ms ms'. apply Successive_unique.
  - split; vm_compute; reflexivity.
  - split; vm_compute; reflexivity.
  - split; vm_compute; reflexivity.
Qed.

Lemma nested_loops_finding_counts_matches_witness :
  let h := Examples.twoFiles in
  let file := {| fsPath := lit "/w/a.ts" |} in
  let doc := {| getText := Examples.nested; lineCount := 3 |} in
  let st' := match outcome (scanFile h 2 initialState file) with
             | inr st' => st'
             | inl _ => initialState
             end in
  openTextDocument h file = inr doc /\
  outcome (scanFile h 2 initialState file) = inr st' /\
  exists added nestedLoops,
    st_performanceIssues st' = st_performanceIssues initialState ++ added /\
    Successive nestedLoopPattern [] (getText doc) nestedLoops /\
    filter isNestedLoops added =
      match nestedLoops with
      | [] => []
      | _ :: _ =>
          [PerformanceIssue.mk (asRelativePath h file)
             (Z.of_nat (length nestedLoops)) (lit "Nested Loops")]
      end.
Proof.
  intros h file doc st'.
  assert (Hdoc : openTextDocument h file = inr doc) by reflexivity.
  assert (Hstep : outcome (scanFile h 2 initialState file) = inr st').
  { unfold st'. rewrite scanFile_outcome. reflexivity. }
  split; [exact Hdoc|]. split; [exact Hstep|].
  exact (proj1 nested_loops_finding_counts_matches h 2 initialState file doc st'
           Hdoc Hstep).
Defined.

Lemma security_issues_invariant h files st :
  outcome (theLoop h files) = inr st ->
  Forall (fromFirstMatch h files) (st_securityIssues st).
Proof.
  unfold theLoop.
  apply (for_of_invariant
           (fun st => Forall (fromFirstMatch h files) (st_securityIssues st))).
  - intros s file s' Hfile Hs Hstep. rewrite scanFile_outcome in Hstep.
    destruct (scanned h file) as [e|doc] eqn:Hdoc; [discriminate|].
    apply scanned_opens in Hdoc.
    injection Hstep as <-. cbn [st_securityIssues].
    rewrite securityScan_spec. apply Forall_app. split; [exact Hs|].
    apply Forall_forall. intros issue Hissue.
    apply in_flat_map in Hissue. destruct Hissue as (pattern & Hpat & Hissue).
    rewrite findingFor_leftmost in Hissue.
    destruct (exec_from pattern [] (getText doc)) as [[sk first]|] eqn:Hexec;
      [|destruct Hissue].
    destruct Hissue as [<-|[]].
    now exists file, doc, pattern, sk, first.
  - constructor.
Qed.

Lemma last_app_singleton {A} (l : list A) (x d : A) : last (l ++ [x]) d = x.
Proof.
  induction l as [|a l IH]; simpl; [reflexivity|].
  destruct (l ++ [x]) eqn:E; [destruct l; discriminate | exact IH].
Qed.

(** C10: the match field of every security finding of a report is the
    first [min 40 length] code units of the leftmost match of a pattern
    in a scanned file, followed by the ellipsis character, whether or not
    anything was cut; it ends with the ellipsis and has at most 41 code
    units. *)
Theorem security_match_always_ends_with_ellipsis this h data issue :
  In (Message.analysisResult data) (messages (trace (analyzeWorkspace this h))) ->
  In issue (securityIssues data) ->
  exists file doc pattern skipped first,
    openTextDocument h file = inr doc /\
    In pattern secPatterns /\
    exec_from pattern [] (getText doc) = Some (skipped, first) /\
    SecurityIssue.match_ issue =
      firstn (Nat.min 40 (length first)) first ++ [ellipsis] /\
    last (SecurityIssue.match_ issue) 0%N = ellipsis /\
    (length (SecurityIssue.match_ issue) <= 41)%nat.
Proof.
  intros Hin Hissue.
  destruct (analysisResult_inv _ _ _ Hin) as (wn & files & st & _ & _ & _ & Hloop & ->).
  cbn [report securityIssues] in Hissue.
  pose proof (security_issues_invariant _ _ Hloop) as Hall.
  rewrite Forall_forall in Hall.
  destruct (Hall _ Hissue) as (file & doc & pattern & sk & first & _ & Hdoc & Hpat & Hexec & ->).
  exists file, doc, pattern, sk, first. cbn [SecurityIssue.match_].
  repeat split; try assumption.
  - now rewrite firstn_min_length.
  - apply last_app_singleton.
  - rewrite length_app, length_firstn. cbn [length]. lia.
Qed.

Lemma security_match_always_ends_with_ellipsis_witness :
  let data := Examples.reportOf Examples.twoFiles in
  let issue := SecurityIssue.mk (lit "B.TS") 0
                 (lit "SECRET = 'abcd1234efgh'" ++ [ellipsis]) in
  In (Message.analysisResult data)
     (messages (trace (analyzeWorkspace Samples.view Examples.twoFiles))) /\
  In issue (securityIssues data) /\
  exists file doc pattern skipped first,
    openTextDocument Examples.twoFiles file = inr doc /\
    In pattern secPatterns /\
    exec_from pattern [] (getText doc) = Some (skipped, first) /\
    SecurityIssue.match_ issue =
      firstn (Nat.min 40 (length first)) first ++ [ellipsis] /\
    last (SecurityIssue.match_ issue) 0%N = ellipsis /\
    (length (SecurityIssue.match_ issue) <= 41)%nat.
Proof.
  intros data issue.
  assert (Hin : In (Message.analysisResult data)
     (messages (trace (analyzeWorkspace Samples.view Examples.twoFiles)))).
  { vm_compute. do 4 right. left. reflexivity. }
  assert (Hissue : In issue (securityIssues data)).
  { vm_compute. left. reflexivity. }
  split; [exact Hin|]. split; [exact Hissue|].
  exact (security_match_always_ends_with_ellipsis _ _ _ _ Hin Hissue).
Defined.

(** ** Progress notifications and the failure path *)

Lemma attempted_all h files : Forall (completes h) files -> attempted h files = files.
Proof.
  induction 1 as [|f files Hf _ IH]; simpl; [reflexivity|].
  apply completes_scanned in Hf. destruct Hf as [doc Hf].
  now rewrite Hf, IH.
Qed.

Lemma attempted_until_failure h pre file post err :
  Forall (completes h) pre -> scanned h file = inl err ->
  attempted h (pre ++ file :: post) = pre ++ [file].
Proof.
  intros Hpre Hfile. induction Hpre as [|f pre Hf _ IH]; simpl.
  - now rewrite Hfile.
  - apply completes_scanned in Hf. destruct Hf as [doc Hf]. now rewrite Hf, IH.
Qed.

Lemma loop_trace_progress h len files : forall k,
  messages (loop_trace h len k files) =
  map (fun i => Message.progress (progressPct i len))
      (countFrom (k + 1) (length (attempted h files))).
Proof.
  induction files as [|f files IH]; intros k; simpl; [reflexivity|].
  f_equal. destruct (scanned h f); [reflexivity | apply IH].
Qed.

(** A file of the attempted ones whose iteration ends with an exception
    is the first such file of the list. *)
Lemma attempted_failing h file err files :
  In file (attempted h files) -> scanned h file = inl err ->
  exists pre post, files = pre ++ file :: post /\ Forall (completes h) pre.
Proof.
  intros Hin Hfile. induction files as [|f files IH]; simpl in Hin; [destruct Hin|].
  destruct (scanned h f) as [e|doc] eqn:Hf.
  - destruct Hin as [->|[]]. now exists [], files.
  - destruct Hin as [->|Hin]; [congruence|].
    destruct (IH Hin) as (pre & post & -> & Hpre).
    exists (f :: pre), post. split; [reflexivity|].
    constructor; [apply completes_scanned; now exists doc | exact Hpre].
Qed.

(** The messages of a run whose loop is left by an exception. *)
Lemma messages_of_failed_iteration this h workspaceName pre file post err :
  _view this = true ->
  workspaceNameOf h = Some workspaceName ->
  findFiles h = inr (pre ++ file :: post) ->
  Forall (completes h) pre ->
  scanned h file = inl err ->
  messages (trace (analyzeWorkspace this h)) =
    Message.analysisStarted ::
    map (fun i => Message.progress
                    (progressPct i (Z.of_nat (length (pre ++ file :: post)))))
        (countFrom 1 (S (length pre))) ++
    [Message.analysisFailed].
Proof.
  intros Hview Hname Hfiles Hpre Hfile.
  rewrite analyzeWorkspace_messages, Hview, Hname, Hfiles. cbn [negb].
  f_equal. unfold theLoop.
  rewrite (@for_of_fails h _ pre file post err initialState Hpre Hfile).
  rewrite loop_trace_progress, (@attempted_until_failure h pre file post err Hpre Hfile).
  replace (length (pre ++ [file])) with (S (length pre))
    by (rewrite length_app; simpl; lia).
  reflexivity.
Qed.

(** C8: when the iteration for a file the run gets to ends with an
    exception, because the file cannot be read or because a detector
    throws on its text, the scan is abandoned: the webview receives
    [analysisStarted], the progress notifications of the files reached
    so far, then [analysisFailed], which carries no payload; exactly one
    failure is posted, it is the last message, and no [analysisResult]
    is posted. *)
Theorem failing_file_aborts_whole_scan this h file :
  In (CallOpenTextDocument file) (trace (analyzeWorkspace this h)) ->
  (exists err, openTextDocument h file = inl err) \/
  (exists doc, openTextDocument h file = inr doc /\
               detectorThrows h (getText doc)) ->
  exists values,
    messages (trace (analyzeWorkspace this h)) =
      Message.analysisStarted :: map Message.progress values ++
      [Message.analysisFailed] /\
    (forall data,
       ~ In (Message.analysisResult data)
            (messages (trace (analyzeWorkspace this h)))) /\
    count_occ
      (fun a b : bool => Bool.bool_dec a b)
      (map (fun m => match m with Message.analysisFailed => true | _ => false end)
         (messages (trace (analyzeWorkspace this h)))) true = 1%nat.
Proof.
  intros Hread Hfails.
  apply scanned_fails in Hfails. destruct Hfails as [err Hfile].
  apply reads_In in Hread. rewrite analyzeWorkspace_reads in Hread.
  destruct (_view this) eqn:Hview; cbn [negb] in Hread; [|destruct Hread].
  destruct (workspaceNameOf h) as [workspaceName|] eqn:Hname; [|destruct Hread].
  destruct (findFiles h) as [e|files] eqn:Hfiles; [destruct Hread|].
  destruct (@attempted_failing h file err files Hread Hfile)
    as (pre & post & Hsplit & Hpre).
  subst files.
  rewrite (@messages_of_failed_iteration this h workspaceName pre file post err
             Hview Hname Hfiles Hpre Hfile).
  set (len := Z.of_nat (length (pre ++ file :: post))).
  exists (map (fun i => progressPct i len) (countFrom 1 (S (length pre)))).
  rewrite map_map. split; [reflexivity|]. split.
  - intros data [Hin|Hin]; [discriminate|].
    apply in_app_or in Hin. destruct Hin as [Hin|[Hin|[]]]; [|discriminate].
    apply in_map_iff in Hin. destruct Hin as (i & Hi & _). discriminate.
  - cbn [map count_occ]. destruct (bool_dec false true) as [E|_]; [discriminate|].
    rewrite map_app, count_occ_app, map_map. cbn [map count_occ].
    destruct (bool_dec true true) as [_|E]; [|congruence].
    rewrite (proj1 (count_occ_not_In _ _ _)); [reflexivity|].
    intros Hin. apply in_map_iff in Hin. destruct Hin as (i & Hi & _). discriminate.
Qed.

Lemma failing_file_aborts_whole_scan_witness :
  let shape (h : Host) :=
    exists values,
      messages (trace (analyzeWorkspace Samples.view h)) =
        Message.analysisStarted :: map Message.progress values ++
        [Message.analysisFailed] /\
      (forall data,
         ~ In (Message.analysisResult data)
              (messages (trace (analyzeWorkspace Samples.view h)))) /\
      count_occ
        (fun a b : bool => Bool.bool_dec a b)
        (map (fun m => match m with Message.analysisFailed => true | _ => false end)
           (messages (trace (analyzeWorkspace Samples.view h)))) true = 1%nat in
  (let h := Examples.unreadable in
   let file := {| fsPath := lit "/w/gone.ts" |} in
   In (CallOpenTextDocument file) (trace (analyzeWorkspace Samples.view h)) /\
   openTextDocument h file = inl (ErrorObject (lit "cannot open file")) /\
   shape h) /\
  (let h := Examples.overflowing in
   let file := {| fsPath := lit "/w/B.TS" |} in
   let doc := {| getText := Examples.secrets; lineCount := 501 |} in
   In (CallOpenTextDocument file) (trace (analyzeWorkspace Samples.view h)) /\
   openTextDocument h file = inr doc /\
   regExpAborts h (nth 0 secPatterns (Chars [])) (getText doc) =
     Some Samples.stackOverflow /\
   messages (trace (analyzeWorkspace Samples.view h)) =
     [Message.analysisStarted; Message.progress 43; Message.progress 85;
      Message.analysisFailed] /\
   shape h).
Proof.
  intros shape. split.
  - intros h file.
    assert (Hread : In (CallOpenTextDocument file)
                       (trace (analyzeWorkspace Samples.view h))).
    { vm_compute. do 3 right. left. reflexivity. }
    assert (Hfile : openTextDocument h file
                    = inl (ErrorObject (lit "cannot open file"))) by reflexivity.
    split; [exact Hread|]. split; [exact Hfile|].
    exact (@failing_file_aborts_whole_scan Samples.view h file Hread
             (or_introl (ex_intro _ _ Hfile))).
  - intros h file doc.
    assert (Hread : In (CallOpenTextDocument file)
                       (trace (analyzeWorkspace Samples.view h))).
    { vm_compute. do 5 right. left. reflexivity. }
    assert (Hfile : openTextDocument h file = inr doc) by reflexivity.
    assert (Habort : regExpAborts h (nth 0 secPatterns (Chars [])) (getText doc)
                     = Some Samples.stackOverflow) by reflexivity.
    split; [exact Hread|]. split; [exact Hfile|]. split; [exact Habort|].
    split; [vm_compute; reflexivity|].
    exact (@failing_file_aborts_whole_scan Samples.view h file Hread
             (or_intror (ex_intro _ doc (conj Hfile
                (ex_intro _ _ (ex_intro _ _ (conj (or_introl eq_refl) Habort))))))).
Defined.

(** ** The extension field *)

Lemma drop_slashes_suffix r : exists s, r = s ++ Path.drop_slashes r.
Proof.
  induction r as [|c r [s IH]]; simpl.
  - now exists [].
  - destruct (N.eqb c Path.slash).
    + exists (c :: s). simpl. now rewrite <- IH.
    + now exists [].
Qed.

Lemma until_slash_prefix r : exists rest, r = Path.until_slash r ++ rest.
Proof.
  induction r as [|c r [rest IH]]; simpl.
  - now exists [].
  - destruct (N.eqb c Path.slash).
    + now exists (c :: r).
    + exists rest. simpl. now rewrite <- IH.
Qed.

Lemma split_dot_Some r e pre :
  Path.split_dot r = Some (e, pre) ->
  r = e ++ Path.dot :: pre /\ ~ In Path.dot e.
Proof.
  revert e pre; induction r as [|c r IH]; intros e pre; simpl; [discriminate|].
  destruct (N.eqb c Path.dot) eqn:Hc.
  - intros [= <- <-]. apply N.eqb_eq in Hc. subst c. split; [reflexivity | intros []].
  - destruct (Path.split_dot r) as [[e' pre']|]; [|discriminate].
    intros [= <- <-]. destruct (IH _ _ eq_refl) as [-> Hno].
    split; [reflexivity|]. intros [Heq|Hin]; [|now apply Hno].
    subst c. now rewrite N.eqb_refl in Hc.
Qed.

(** [path.extname] returns nothing, or a dot and the dot-free text that
    follows the last dot of the last portion, as found in the path. *)
Lemma extname_shape p :
  Path.extname p = [] \/
  exists e, Path.extname p = Path.dot :: e /\ ~ In Path.dot e /\
            exists pre post, p = pre ++ Path.dot :: e ++ post.
Proof.
  unfold Path.extname, Path.last_portion_rev.
  destruct (Path.split_dot _) as [[e pre]|] eqn:Hsplit; [|now left].
  apply split_dot_Some in Hsplit. destruct Hsplit as [Hr Hno].
  assert (Hshape : exists e', Path.dot :: rev e = Path.dot :: e' /\ ~ In Path.dot e' /\
            exists pre' post, p = pre' ++ Path.dot :: e' ++ post).
  { exists (rev e). split; [reflexivity|]. split.
    - intros Hin. apply Hno. now apply in_rev.
    - destruct (drop_slashes_suffix (rev p)) as [s Hs].
      destruct (until_slash_prefix (Path.drop_slashes (rev p))) as [rest Hrest].
      rewrite Hr in Hrest. rewrite Hrest in Hs.
      exists (rev rest ++ rev pre), (rev s).
      rewrite <- (rev_involutive p), Hs.
      rewrite !rev_app_distr. simpl.
      rewrite <- !app_assoc. reflexivity. }
  destruct pre as [|c [|c' pre]]; [now left | | now right].
  destruct e as [|x e]; [|now right].
  destruct (N.eqb c Path.dot); [now left | now right].
Qed.

Lemma replace_leading_dot e : replace (Path.dot :: e) (lit ".") (lit "") = e.
Proof. reflexivity. Qed.

Lemma file_records_invariant h files st :
  outcome (theLoop h files) = inr st -> Forall extFromPath (st_allFiles st).
Proof.
  unfold theLoop.
  apply (for_of_invariant (fun st => Forall extFromPath (st_allFiles st))).
  - intros s file s' _ Hs Hstep. rewrite scanFile_outcome in Hstep.
    destruct (scanned h file) as [e|doc]; [discriminate|].
    injection Hstep as <-. cbn [st_allFiles]. apply Forall_app. split; [exact Hs|].
    constructor; [reflexivity | constructor].
  - constructor.
Qed.

(** C9 (as amended): the extension field of every file record is
    [path.extname] of the file's path without its leading dot: it is
    empty, or the text that follows the last dot of the file name, copied
    as it stands (upper case stays upper case); it contains no dot, so it
    has no leading dot. *)
Theorem extension_is_extname_without_dot this h data fd :
  In (Message.analysisResult data) (messages (trace (analyzeWorkspace this h))) ->
  In fd (allFiles data) ->
  FileDetail.ext fd =
    replace (Path.extname (FileDetail.path fd)) (lit ".") (lit "") /\
  ~ In Path.dot (FileDetail.ext fd) /\
  (FileDetail.ext fd = [] \/
   Path.extname (FileDetail.path fd) = Path.dot :: FileDetail.ext fd /\
   exists pre post,
     FileDetail.path fd = pre ++ Path.dot :: FileDetail.ext fd ++ post).
Proof.
  intros Hin Hfd.
  destruct (analysisResult_inv _ _ _ Hin) as (wn & files & st & _ & _ & _ & Hloop & ->).
  cbn [report allFiles] in Hfd.
  pose proof (file_records_invariant _ _ Hloop) as Hall.
  rewrite Forall_forall in Hall. specialize (Hall _ Hfd). unfold extFromPath in Hall.
  split; [exact Hall|].
  destruct (extname_shape (FileDetail.path fd)) as [Hnil|(e & He & Hno & Hpath)].
  - rewrite Hnil in Hall. change (FileDetail.ext fd = []) in Hall.
    rewrite Hall. split; [intros [] | now left].
  - rewrite He, replace_leading_dot in Hall. rewrite Hall.
    split; [exact Hno|]. right. split; [exact He | exact Hpath].
Qed.

Lemma extension_is_extname_without_dot_witness :
  let data := Examples.reportOf Examples.twoFiles in
  let fd := FileDetail.mk (lit "B.TS") (lit "/w/B.TS") 501 70 (lit "TS") in
  In (Message.analysisResult data)
     (messages (trace (analyzeWorkspace Samples.view Examples.twoFiles))) /\
  In fd (allFiles data) /\
  FileDetail.ext fd =
    replace (Path.extname (FileDetail.path fd)) (lit ".") (lit "") /\
  ~ In Path.dot (FileDetail.ext fd) /\
  (FileDetail.ext fd = [] \/
   Path.extname (FileDetail.path fd) = Path.dot :: FileDetail.ext fd /\
   exists pre post,
     FileDetail.path fd = pre ++ Path.dot :: FileDetail.ext fd ++ post).
Proof.
  intros data fd.
  assert (Hin : In (Message.analysisResult data)
     (messages (trace (analyzeWorkspace Samples.view Examples.twoFiles)))).
  { vm_compute. do 4 right. left. reflexivity. }
  assert (Hfd : In fd (allFiles data)).
  { vm_compute. right. left. reflexivity. }
  split; [exact Hin|]. split; [exact Hfd|].
  exact (extension_is_extname_without_dot _ _ _ _ Hin Hfd).
Defined.

(** C9 as stated fails: the file [/w/B.TS] is recorded with extension
    [TS], which is not lowercase. *)
Lemma extension_lowercase_counterexample :
  let data := Examples.reportOf Examples.twoFiles in
  In (Message.analysisResult data)
     (messages (trace (analyzeWorkspace Samples.view Examples.twoFiles))) /\
  exists fd,
    In fd (allFiles data) /\
    FileDetail.path fd = lit "/w/B.TS" /\
    FileDetail.ext fd = lit "TS" /\
    noUpperCase (FileDetail.ext fd) = false.
Proof.
  intros data. split.
  - vm_compute. do 4 right. left. reflexivity.
  - exists (FileDetail.mk (lit "B.TS") (lit "/w/B.TS") 501 70 (lit "TS")).
    split; [|repeat split].
    vm_compute. right. left. reflexivity.
Qed.

Lemma loop_trace_announce h len files : forall k,
  loop_trace h len k files = announce len k (attempted h files).
Proof.
  induction files as [|f files IH]; intros k; simpl; [reflexivity|].
  do 2 f_equal. destruct (scanned h f); [reflexivity | apply IH].
Qed.

Lemma announce_counts len files : forall k before v after,
  announce len k files = before ++ PostMessage (Message.progress v) :: after ->
  v = progressPct (k + completedIn before + 1) len.
Proof.
  induction files as [|f files IH]; intros k before v after; simpl.
  - destruct before; discriminate.
  - destruct before as [|e1 [|e2 before]]; simpl.
    + intros [= <- _]. f_equal. lia.
    + intros Habs. inversion Habs.
    + intros [= <- <- Hrest]. apply IH in Hrest. rewrite Hrest.
      cbn [completedIn]. f_equal. lia.
Qed.

Lemma attempted_length h files : (length (attempted h files) <= length files)%nat.
Proof.
  induction files as [|f files IH]; simpl; [lia|].
  destruct (scanned h f); simpl; lia.
Qed.

Lemma progressValues_app ms ms' :
  progressValues (ms ++ ms') = progressValues ms ++ progressValues ms'.
Proof.
  induction ms as [|m ms IH]; simpl; [reflexivity|].
  destruct m; simpl; now rewrite IH.
Qed.

Lemma progressValues_map (f : Z -> Z) l :
  progressValues (map (fun i => Message.progress (f i)) l) = map f l.
Proof. induction l as [|x l IH]; simpl; [reflexivity | now rewrite IH]. Qed.

Lemma countFrom_In k n x : In x (countFrom k n) -> k <= x < k + Z.of_nat n.
Proof.
  revert k; induction n as [|n IH]; intros k; simpl; [tauto|].
  intros [<-|Hin]; [lia|]. apply IH in Hin. lia.
Qed.

(** The percentages of the first files, followed by values of at least
    85, form a non-decreasing sequence. *)
Lemma percentages_sorted len tail : forall n k,
  0 < k -> k + Z.of_nat n <= len + 1 -> len < 2 ^ 53 ->
  StronglySorted Z.le tail -> Forall (Z.le 85) tail ->
  StronglySorted Z.le (map (fun i => progressPct i len) (countFrom k n) ++ tail).
Proof.
  induction n as [|n IH]; intros k Hk Hn Hlen Hs Ht; simpl; [exact Hs|].
  constructor.
  - apply IH; try assumption; lia.
  - apply Forall_app. split.
    + apply Forall_forall. intros v Hv. apply in_map_iff in Hv.
      destruct Hv as (i & <- & Hi). apply countFrom_In in Hi.
      apply progressPct_monotone; lia.
    + apply Forall_forall. intros v Hv. rewrite Forall_forall in Ht.
      specialize (Ht _ Hv).
      assert (progressPct k len <= progressPct len len)
        by (apply progressPct_monotone; lia).
      rewrite progressPct_full in H by lia. lia.
Qed.

(** C7 (as amended): for a non-empty list of fewer than [2 ^ 53] files,
    the loop posts one progress notification per file it gets to, before
    reading that file, with value [Math.round((k / total) * 85)] where
    [k] counts the files already read plus the one about to be read; the
    progress values of a run are non-decreasing, and a successful run,
    one that posts a report, which is one in which the iteration for
    every file runs to its end, posts the percentages of files 1 to
    [total] and then exactly 100. *)
Theorem progress_is_posted_before_each_read this h workspaceName files :
  _view this = true ->
  workspaceNameOf h = Some workspaceName ->
  findFiles h = inr files ->
  files <> [] ->
  Z.of_nat (length files) < 2 ^ 53 ->
  let len := Z.of_nat (length files) in
  let values := progressValues (messages (trace (analyzeWorkspace this h))) in
  trace (theLoop h files) = announce len 0 (attempted h files) /\
  postedBeforeReading len (trace (theLoop h files)) /\
  StronglySorted Z.le values /\
  (Forall (completes h) files ->
   values = map (fun k => progressPct k len) (countFrom 1 (length files)) ++ [100] /\
   last values 0 = 100) /\
  (forall data,
     In (Message.analysisResult data) (messages (trace (analyzeWorkspace this h))) ->
     values = map (fun k => progressPct k len) (countFrom 1 (length files)) ++ [100] /\
     last values 0 = 100).
Proof.
  intros Hview Hname Hfiles Hne Hlen len values.
  assert (Hloop : trace (theLoop h files) = announce len 0 (attempted h files)).
  { unfold theLoop. rewrite for_of_trace. apply loop_trace_announce. }
  assert (Hvalues : values =
    map (fun k => progressPct k len) (countFrom 1 (length (attempted h files))) ++
    match outcome (theLoop h files) with inl _ => [] | inr _ => [100] end).
  { unfold values.
    rewrite analyzeWorkspace_messages, Hview, Hname, Hfiles. cbn [negb progressValues].
    rewrite progressValues_app, loop_trace_progress, progressValues_map.
    f_equal. destruct (outcome (theLoop h files)); reflexivity. }
  split; [exact Hloop|]. split; [|split].
  - intros before v after Hsplit. rewrite Hloop in Hsplit.
    apply announce_counts in Hsplit. rewrite Hsplit. f_equal.
  - rewrite Hvalues. pose proof (attempted_length h files) as Hatt.
    apply percentages_sorted; try lia.
    + destruct (outcome (theLoop h files)); repeat constructor.
    + destruct (outcome (theLoop h files)); repeat constructor. lia.
  - assert (Hdone : Forall (completes h) files ->
      values = map (fun k => progressPct k len) (countFrom 1 (length files)) ++ [100] /\
      last values 0 = 100).
    { intros Hall. rewrite Hvalues, (attempted_all Hall).
      destruct (@for_of_succeeds h len files initialState Hall) as [st Hst].
      unfold theLoop. fold len. rewrite Hst. split; [reflexivity|].
      apply last_app_singleton. }
    split; [exact Hdone|].
    intros data Hin. apply Hdone.
    destruct (analysisResult_inv _ _ _ Hin)
      as (wn & files' & st & _ & _ & Hfiles' & Hst & _).
    assert (files' = files) by congruence. subst files'.
    unfold theLoop in Hst. exact (@for_of_completes _ _ _ _ _ Hst).
Qed.

Lemma progress_is_posted_before_each_read_witness :
  let h := Examples.twoFiles in
  let files := [ {| fsPath := lit "/w/a.ts" |}; {| fsPath := lit "/w/B.TS" |} ] in
  let values :=
    progressValues (messages (trace (analyzeWorkspace Samples.view h))) in
  _view Samples.view = true /\
  workspaceNameOf h = Some (lit "demo") /\
  findFiles h = inr files /\
  files <> [] /\
  Z.of_nat (length files) < 2 ^ 53 /\
  trace (theLoop h files) = announce 2 0 (attempted h files) /\
  postedBeforeReading 2 (trace (theLoop h files)) /\
  StronglySorted Z.le values /\
  (Forall (completes h) files ->
   values = map (fun k => progressPct k 2) (countFrom 1 (length files)) ++ [100] /\
   last values 0 = 100) /\
  (forall data,
     In (Message.analysisResult data) (messages (trace (analyzeWorkspace Samples.view h))) ->
     values = map (fun k => progressPct k 2) (countFrom 1 (length files)) ++ [100] /\
     last values 0 = 100).
Proof.
  intros h files values.
  split; [reflexivity|]. split; [reflexivity|]. split; [reflexivity|].
  split; [discriminate|]. split; [reflexivity|].
  exact (@progress_is_posted_before_each_read Samples.view h (lit "demo") files
           eq_refl eq_refl eq_refl
           (fun E : files = [] => eq_ind files
              (fun l => match l with [] => False | _ :: _ => True end) I [] E)
           eq_refl).
Defined.

(** C7 as stated fails: in the scan of one readable file the loop posts
    85 before the file is read, when no file is complete yet; the value
    for zero completed files out of one would be 0. *)
Lemma progress_after_completion_counterexample :
  let file := {| fsPath := lit "/w/stub.ts" |} in
  trace (theLoop Examples.oneStub [file]) =
    [PostMessage (Message.progress 85); CallOpenTextDocument file] /\
  progressPct 0 1 = 0 /\
  ~ postedAfterCompletion 1 (trace (theLoop Examples.oneStub [file])).
Proof.
  intros file.
  assert (Htrace : trace (theLoop Examples.oneStub [file]) =
    [PostMessage (Message.progress 85); CallOpenTextDocument file])
    by (vm_compute; reflexivity).
  split; [exact Htrace|]. split; [vm_compute; reflexivity|].
  intros Hclaim. rewrite Htrace in Hclaim.
  specialize (Hclaim [] 85 [CallOpenTextDocument file] eq_refl).
  vm_compute in Hclaim. discriminate.
Qed.

(** The percentage is computed in binary64: for file 7 of 10 the
    quotient 0.7 times 85 falls just below 59.5 and rounds to 59. *)
Example progressPct_7_of_10 : progressPct 7 10 = 59.
Proof. vm_compute. reflexivity. Qed.

(** Two more scenarios, evaluated through the run: one ten-line file
    holding a double-quoted secret assignment scores 85; one clean file
    of 501 lines scores 95 with one god file. *)
Example scenario_single_secret :
  let text := lit "SECRET = " ++ [34%N] ++ lit "abcd1234efgh" ++ [34%N] in
  let h := Samples.host [(lit "/w/k.ts", (text, 10))] [lit "/w/k.ts"] in
  length (securityIssues (Examples.reportOf h)) = 1%nat /\
  healthScore (Examples.reportOf h) = 85.
Proof. vm_compute. split; reflexivity. Qed.

Example scenario_single_god_file :
  length (godFiles (Examples.reportOf Examples.oneBig)) = 1%nat /\
  healthScore (Examples.reportOf Examples.oneBig) = 95.
Proof. vm_compute. split; reflexivity. Qed.

(* ================================================================== *)
(** * Further properties *)

(** ** The outcome of a run *)

Lemma performanceScan_over relativePath text issues :
  performanceIssuesAfter relativePath text issues =
  issues ++ performanceIssuesAfter relativePath text [].
Proof.
  unfold performanceIssuesAfter, push.
  destruct (js_match text nestedLoopPattern); destruct (test evalPattern text);
    simpl; rewrite <- ?app_assoc, ?app_nil_r; reflexivity.
Qed.

(** The loop state after the loop, file by file. *)
Lemma loop_state h len files : forall st st',
  outcome (for_of files (scanFile h len) st) = inr st' ->
  Forall (completes h) files /\
  st_allFiles st' = st_allFiles st ++ flat_map (recordOf h) files /\
  st_securityIssues st' =
    st_securityIssues st ++ flat_map (securityFindingsOf h) files /\
  st_performanceIssues st' =
    st_performanceIssues st ++ flat_map (performanceFindingsOf h) files /\
  st_totalLines st' =
    st_totalLines st + sumZ (map FileDetail.lines (flat_map (recordOf h) files)) /\
  st_progress st' = st_progress st + Z.of_nat (length files).
Proof.
  induction files as [|file files IH]; intros st st' Hrun.
  - simpl in Hrun. injection Hrun as <-. simpl. rewrite !app_nil_r.
    repeat split; try lia. constructor.
  - cbn [for_of] in Hrun. rewrite outcome_bind, scanFile_outcome in Hrun.
    destruct (scanned h file) as [e|doc] eqn:Hsc; [discriminate|].
    pose proof (scanned_opens _ _ Hsc) as Hdoc.
    apply IH in Hrun. cbn [st_allFiles st_securityIssues st_performanceIssues
      st_totalLines st_progress] in Hrun.
    destruct Hrun as (Hall & Hfiles & Hsec & Hperf & Hlines & Hprog).
    cbn [flat_map]. unfold recordOf at 1 3, securityFindingsOf at 1,
      performanceFindingsOf at 1. rewrite Hdoc.
    split; [constructor; [apply completes_scanned; now exists doc | exact Hall]|].
    split; [rewrite Hfiles; unfold push; now rewrite <- app_assoc|].
    split; [rewrite Hsec, securityScan_spec; now rewrite <- app_assoc|].
    split; [rewrite Hperf, performanceScan_over; now rewrite <- app_assoc|].
    split.
    + rewrite Hlines. cbn [app map sumZ fold_right FileDetail.lines].
      fold (sumZ (map FileDetail.lines (flat_map (recordOf h) files))). lia.
    + rewrite Hprog. cbn [length]. lia.
Qed.

(** The whole trace of a run. *)
Lemma analyzeWorkspace_trace this h :
  trace (analyzeWorkspace this h) =
  if negb (_view this) then [] else
  PostMessage Message.analysisStarted ::
  match workspaceNameOf h with
  | None => []
  | Some workspaceName =>
      CallFindFiles ::
      match findFiles h with
      | inl err => failureReport err
      | inr files =>
          loop_trace h (Z.of_nat (length files)) 0 files ++
          match outcome (theLoop h files) with
          | inl err => failureReport err
          | inr st =>
              [PostMessage (Message.progress 100);
               PostMessage (Message.analysisResult
                              (report h workspaceName files st))]
          end
      end
  end.
Proof.
  unfold analyzeWorkspace.
  destruct (_view this); cbn [negb]; [|reflexivity].
  rewrite trace_bind. cbn [emit trace outcome fst snd app]. f_equal.
  rewrite trace_bind. unfold resolveWorkspaceName, workspaceNameOf.
  destruct (workspaceFolders h) as [[|folder folders]|];
    cbn [throw ret trace outcome fst snd app]; [reflexivity| |].
  all: rewrite trace_try_catch, outcome_bind, trace_bind.
  all: cbn [await trace outcome fst snd app].
  all: destruct (findFiles h) as [e|files];
    [ destruct e; reflexivity | ].
  all: rewrite outcome_bind, trace_bind, for_of_trace; fold (theLoop h files).
  all: destruct (outcome (theLoop h files)) as [e|st];
    cbn [initialState st_progress app];
    rewrite ?app_nil_r;
    [ destruct e; reflexivity | reflexivity ].
Qed.

(** How a run ends: it can only be left by the exception of the
    workspace-name lookup. *)
Lemma analyzeWorkspace_outcome this h :
  outcome (analyzeWorkspace this h) =
  if negb (_view this) then inr tt else
  match workspaceNameOf h with
  | None =>
      inl (ErrorObject
             (lit "Cannot read properties of undefined (reading 'name')"))
  | Some _ => inr tt
  end.
Proof.
  unfold analyzeWorkspace.
  destruct (_view this); cbn [negb]; [|reflexivity].
  rewrite outcome_bind. cbn [emit outcome snd].
  rewrite outcome_bind. unfold resolveWorkspaceName, workspaceNameOf.
  destruct (workspaceFolders h) as [[|folder folders]|];
    cbn [throw ret outcome snd]; [reflexivity| |].
  all: rewrite outcome_try_catch, outcome_bind.
  all: cbn [await outcome snd].
  all: destruct (findFiles h) as [e|files]; [destruct e; reflexivity|].
  all: rewrite outcome_bind.
  all: destruct (outcome (for_of files _ initialState)) as [e|st];
    [destruct e; reflexivity | reflexivity].
Qed.

Lemma workspaceNameOf_None h :
  workspaceNameOf h = None <-> workspaceFolders h = Some [].
Proof.
  unfold workspaceNameOf.
  destruct (workspaceFolders h) as [[|f fs]|]; split; congruence.
Qed.

Lemma theLoop_succeeds_iff h files :
  (exists st, outcome (theLoop h files) = inr st) <-> Forall (completes h) files.
Proof.
  split.
  - intros [st Hst]. apply loop_state in Hst. tauto.
  - intros Hall. apply for_of_succeeds. exact Hall.
Qed.

(** X1: whatever the host does, the messages of a run have one of four
    shapes: nothing (no view); [analysisStarted] alone (the workspace
    name lookup threw); [analysisStarted], progress values, one
    [analysisFailed]; or [analysisStarted], progress values, [progress
    100], one [analysisResult]. *)
Theorem message_stream_has_one_of_four_shapes this h :
  stream_shape (messages (trace (analyzeWorkspace this h))).
Proof.
  rewrite analyzeWorkspace_messages.
  destruct (_view this); cbn [negb]; [|constructor].
  destruct (workspaceNameOf h) as [wn|]; [|constructor].
  destruct (findFiles h) as [e|files].
  - apply (shape_failed []).
  - rewrite loop_trace_progress.
    set (vs := countFrom (0 + 1) (length (attempted h files))).
    rewrite <- (map_map (fun i => progressPct i (Z.of_nat (length files)))
                        Message.progress).
    destruct (outcome (theLoop h files)); constructor.
Qed.

(** X2: the promise of [analyzeWorkspace] rejects exactly when the view
    exists and [workspaceFolders] is an empty array; the run then posts
    [analysisStarted] and nothing else: no file search, no error message,
    no [analysisFailed]. *)
Theorem rejects_only_on_empty_workspace_folders this h :
  ((exists err, outcome (analyzeWorkspace this h) = inl err) <->
   _view this = true /\ workspaceFolders h = Some []) /\
  (_view this = true -> workspaceFolders h = Some [] ->
   trace (analyzeWorkspace this h) = [PostMessage Message.analysisStarted]).
Proof.
  rewrite analyzeWorkspace_outcome, analyzeWorkspace_trace. split.
  - destruct (_view this); cbn [negb].
    + rewrite <- workspaceNameOf_None.
      destruct (workspaceNameOf h); split.
      * intros [err Habs]. discriminate.
      * intros [_ Habs]. discriminate.
      * intros _. split; reflexivity.
      * intros _. now eexists.
    + split; [intros [err Habs]; discriminate | intros [Habs _]; discriminate].
  - intros -> Hws. apply workspaceNameOf_None in Hws. now rewrite Hws.
Qed.

Lemma rejects_only_on_empty_workspace_folders_witness :
  let h := {| workspaceFolders := Some [];
              findFiles := inr [];
              openTextDocument := fun _ => inl (OtherValue (lit "no"));
              asRelativePath := fsPath;
              toLocaleTimeString := lit "now";
              regExpAborts := fun _ _ => None |} in
  _view Samples.view = true /\ workspaceFolders h = Some [] /\
  trace (analyzeWorkspace Samples.view h) = [PostMessage Message.analysisStarted].
Proof.
  intros h. split; [reflexivity|]. split; [reflexivity|].
  exact (proj2 (rejects_only_on_empty_workspace_folders Samples.view h)
           eq_refl eq_refl).
Defined.

(** X3: a run posts a report exactly when the view exists, the workspace
    name lookup does not throw, the file search resolves and the
    iteration for every file it lists runs to its end: the file can be
    opened and no detector throws on its text; a report and a failure
    are never both posted. *)
Theorem report_iff_every_file_is_scanned this h :
  ((exists data,
      In (Message.analysisResult data) (messages (trace (analyzeWorkspace this h))))
   <->
   _view this = true /\ workspaceFolders h <> Some [] /\
   exists files,
     findFiles h = inr files /\
     Forall (fun file =>
               exists doc,
                 openTextDocument h file = inr doc /\
                 forall pattern, In pattern detectors ->
                   regExpAborts h pattern (getText doc) = None) files) /\
  ~ ((exists data,
        In (Message.analysisResult data)
           (messages (trace (analyzeWorkspace this h)))) /\
     In Message.analysisFailed (messages (trace (analyzeWorkspace this h)))).
Proof.
  split.
  - split.
    + intros [data Hin].
      destruct (analysisResult_inv _ _ _ Hin)
        as (wn & files & st & Hview & Hname & Hfiles & Hloop & _).
      split; [exact Hview|]. split.
      * intros Hws. apply workspaceNameOf_None in Hws. congruence.
      * exists files. split; [exact Hfiles|].
        apply theLoop_succeeds_iff. now exists st.
    + intros (Hview & Hws & files & Hfiles & Hall).
      apply theLoop_succeeds_iff in Hall. destruct Hall as [st Hst].
      rewrite analyzeWorkspace_messages, Hview, Hfiles, Hst. cbn [negb].
      destruct (workspaceNameOf h) as [wn|] eqn:Hname.
      * exists (report h wn files st). right. apply in_or_app. right.
        right. left. reflexivity.
      * apply workspaceNameOf_None in Hname. contradiction.
  - intros [[data Hin] Hfail].
    destruct (analysisResult_inv _ _ _ Hin)
      as (wn & files & st & Hview & Hname & Hfiles & Hloop & _).
    rewrite analyzeWorkspace_messages, Hview, Hname, Hfiles, Hloop in Hfail.
    cbn [negb] in Hfail. destruct Hfail as [Hfail|Hfail]; [discriminate|].
    apply in_app_or in Hfail. destruct Hfail as [Hfail|Hfail].
    + destruct (loop_trace_messages h (Z.of_nat (length files)) 0 files) as [vs Hvs].
      rewrite Hvs in Hfail. apply in_map_iff in Hfail.
      destruct Hfail as (v & Hv & _). discriminate.
    + destruct Hfail as [Hfail|[Hfail|[]]]; discriminate.
Qed.

Lemma errorMessages_app t1 t2 :
  errorMessages (t1 ++ t2) = errorMessages t1 ++ errorMessages t2.
Proof.
  induction t1 as [|e t1 IH]; simpl; [reflexivity|].
  destruct e; simpl; now rewrite IH.
Qed.

Lemma loop_trace_errorMessages h len files : forall k,
  errorMessages (loop_trace h len k files) = [].
Proof.
  induction files as [|f files IH]; intros k; simpl; [reflexivity|].
  destruct (scanned h f); [reflexivity | apply IH].
Qed.

Lemma theLoop_error h files err :
  outcome (theLoop h files) = inl err ->
  exists pre file post,
    files = pre ++ file :: post /\ Forall (completes h) pre /\
    scanned h file = inl err.
Proof.
  unfold theLoop. generalize (Z.of_nat (length files)) as len.
  generalize initialState as st.
  induction files as [|f files IH]; intros st len Hrun; [discriminate|].
  cbn [for_of] in Hrun. rewrite outcome_bind, scanFile_outcome in Hrun.
  destruct (scanned h f) as [e|doc] eqn:Hf.
  - injection Hrun as <-. now exists [], f, files.
  - apply IH in Hrun. destruct Hrun as (pre & file & post & -> & Hpre & Hfile).
    exists (f :: pre), file, post. split; [reflexivity|].
    split; [constructor; [apply completes_scanned; now exists doc | exact Hpre]
           | exact Hfile].
Qed.

Lemma scanned_inl h file err :
  scanned h file = inl err <->
  openTextDocument h file = inl err \/
  exists doc, openTextDocument h file = inr doc /\
              firstAbort h (getText doc) detectors = Some err.
Proof.
  unfold scanned. destruct (openTextDocument h file) as [e|doc].
  - split; [intros [= <-]; now left|].
    intros [[= <-]|(d & Habs & _)]; [reflexivity | discriminate].
  - split.
    + intros Hsc. right. exists doc. split; [reflexivity|].
      destruct (firstAbort h (getText doc) detectors) as [e|]; [|discriminate].
      now injection Hsc as ->.
    + intros [Habs|(d & Hd & Hab)]; [discriminate|].
      injection Hd as <-. now rewrite Hab.
Qed.

(** X4: when a run posts [analysisFailed], the trace ends with one error
    notification, whose text is "Analysis failed: " followed by the
    message of the exception that ended the scan, and then the failure
    message; no other error notification is shown.  The exception is the
    rejection of the file search, or it comes from the first file whose
    iteration does not run to its end: the rejection of the read, or
    what the first detector that throws on the file's text throws.  When
    the file search itself rejects, no file is read and no progress is
    posted. *)
Theorem failure_is_reported_once_with_its_message this h :
  In Message.analysisFailed (messages (trace (analyzeWorkspace this h))) ->
  exists err before,
    (findFiles h = inl err \/
     exists pre file post,
       findFiles h = inr (pre ++ file :: post) /\ Forall (completes h) pre /\
       (openTextDocument h file = inl err \/
        exists doc, openTextDocument h file = inr doc /\
                    firstAbort h (getText doc) detectors = Some err)) /\
    trace (analyzeWorkspace this h) =
      before ++ [ShowErrorMessage (lit "Analysis failed: " ++ errorText err);
                 PostMessage Message.analysisFailed] /\
    errorMessages (trace (analyzeWorkspace this h)) =
      [lit "Analysis failed: " ++ errorText err] /\
    (findFiles h = inl err ->
     before = [PostMessage Message.analysisStarted; CallFindFiles]).
Proof.
  intros Hfail.
  rewrite analyzeWorkspace_messages in Hfail. rewrite analyzeWorkspace_trace.
  destruct (_view this); cbn [negb] in *; [|destruct Hfail].
  destruct Hfail as [Hfail|Hfail]; [discriminate|].
  destruct (workspaceNameOf h) as [wn|]; [|destruct Hfail].
  destruct (findFiles h) as [e|files] eqn:Hfiles.
  - exists e, [PostMessage Message.analysisStarted; CallFindFiles].
    split; [now left|]. split; [reflexivity|]. split; reflexivity.
  - apply in_app_or in Hfail. destruct Hfail as [Hfail|Hfail].
    { destruct (loop_trace_messages h (Z.of_nat (length files)) 0 files) as [vs Hvs].
      rewrite Hvs in Hfail. apply in_map_iff in Hfail.
      destruct Hfail as (v & Hv & _). discriminate. }
    destruct (outcome (theLoop h files)) as [e|st] eqn:Hloop.
    2:{ destruct Hfail as [Hfail|[Hfail|[]]]; discriminate. }
    exists e, (PostMessage Message.analysisStarted :: CallFindFiles ::
               loop_trace h (Z.of_nat (length files)) 0 files).
    split; [|split; [|split]].
    + right. destruct (theLoop_error _ _ Hloop) as (pre & file & post & -> & Hpre & Hfile).
      exists pre, file, post. split; [reflexivity|]. split; [exact Hpre|].
      now apply scanned_inl.
    + reflexivity.
    + cbn [errorMessages]. rewrite errorMessages_app, loop_trace_errorMessages.
      reflexivity.
    + discriminate.
Qed.

Lemma failure_is_reported_once_with_its_message_witness :
  let conclusion (h : Host) :=
    exists err before,
      (findFiles h = inl err \/
       exists pre file post,
         findFiles h = inr (pre ++ file :: post) /\ Forall (completes h) pre /\
         (openTextDocument h file = inl err \/
          exists doc, openTextDocument h file = inr doc /\
                      firstAbort h (getText doc) detectors = Some err)) /\
      trace (analyzeWorkspace Samples.view h) =
        before ++ [ShowErrorMessage (lit "Analysis failed: " ++ errorText err);
                   PostMessage Message.analysisFailed] /\
      errorMessages (trace (analyzeWorkspace Samples.view h)) =
        [lit "Analysis failed: " ++ errorText err] /\
      (findFiles h = inl err ->
       before = [PostMessage Message.analysisStarted; CallFindFiles]) in
  (In Message.analysisFailed
      (messages (trace (analyzeWorkspace Samples.view Examples.unreadable))) /\
   errorMessages (trace (analyzeWorkspace Samples.view Examples.unreadable)) =
     [lit "Analysis failed: cannot open file"] /\
   conclusion Examples.unreadable) /\
  (In Message.analysisFailed
      (messages (trace (analyzeWorkspace Samples.view Examples.overflowing))) /\
   errorMessages (trace (analyzeWorkspace Samples.view Examples.overflowing)) =
     [lit "Analysis failed: Maximum call stack size exceeded"] /\
   conclusion Examples.overflowing).
Proof.
  intros conclusion. split.
  - assert (Hfail : In Message.analysisFailed
        (messages (trace (analyzeWorkspace Samples.view Examples.unreadable)))).
    { vm_compute. do 2 right. left. reflexivity. }
    split; [exact Hfail|]. split; [vm_compute; reflexivity|].
    exact (@failure_is_reported_once_with_its_message Samples.view
             Examples.unreadable Hfail).
  - assert (Hfail : In Message.analysisFailed
        (messages (trace (analyzeWorkspace Samples.view Examples.overflowing)))).
    { vm_compute. do 3 right. left. reflexivity. }
    split; [exact Hfail|]. split; [vm_compute; reflexivity|].
    exact (@failure_is_reported_once_with_its_message Samples.view
             Examples.overflowing Hfail).
Defined.

Lemma flat_map_recordOf_opens h files :
  Forall (opens h) files ->
  map FileDetail.path (flat_map (recordOf h) files) = map fsPath files /\
  length (flat_map (recordOf h) files) = length files.
Proof.
  induction 1 as [|f files [doc Hf] _ [IH1 IH2]]; [split; reflexivity|].
  cbn [flat_map map]. unfold recordOf at 1 3. rewrite Hf.
  cbn [app map length FileDetail.path]. now rewrite IH1, IH2.
Qed.

(** X5: in a report, [allFiles] holds one record per listed file, in the
    order of the list, with the file's path, basename, line count and
    text length as the host gave them; [totalFiles] is the number of
    records, [totalLines] the sum of their line counts, and
    [unusedExports] the number of near-empty files. *)
Theorem report_totals_agree_with_file_records this h data files :
  In (Message.analysisResult data) (messages (trace (analyzeWorkspace this h))) ->
  findFiles h = inr files ->
  map FileDetail.path (allFiles data) = map fsPath files /\
  (forall fd, In fd (allFiles data) ->
     exists file doc,
       In file files /\ openTextDocument h file = inr doc /\
       FileDetail.path fd = fsPath file /\
       FileDetail.name fd = Path.basename (fsPath file) /\
       FileDetail.lines fd = lineCount doc /\
       FileDetail.size fd = strlen (getText doc)) /\
  totalFiles data = Z.of_nat (length (allFiles data)) /\
  totalLines data = sumZ (map FileDetail.lines (allFiles data)) /\
  unusedExports data = Z.of_nat (length (unusedFiles data)) /\
  scanProgress data = 100.
Proof.
  intros Hin Hfiles.
  destruct (analysisResult_inv _ _ _ Hin)
    as (wn & files' & st & _ & _ & Hfiles' & Hloop & ->).
  assert (files' = files) by congruence. subst files'.
  unfold theLoop in Hloop. apply loop_state in Hloop.
  destruct Hloop as (Hall & Hrec & _ & _ & Hlines & _).
  apply (Forall_impl (opens h) (@completes_opens h)) in Hall.
  cbn [initialState st_allFiles st_totalLines app] in Hrec, Hlines.
  cbn [report allFiles totalFiles totalLines unusedExports unusedFiles scanProgress].
  rewrite Hrec, Hlines.
  destruct (flat_map_recordOf_opens Hall) as [Hpaths Hlen].
  split; [exact Hpaths|]. split; [|rewrite Hlen; repeat split; lia].
  intros fd Hfd. apply in_flat_map in Hfd. destruct Hfd as (file & Hfile & Hfd).
  unfold recordOf in Hfd.
  destruct (openTextDocument h file) as [e|doc] eqn:Hdoc; [destruct Hfd|].
  destruct Hfd as [<-|[]]. exists file, doc. repeat split; assumption.
Qed.

Lemma report_totals_agree_with_file_records_witness :
  let h := Examples.twoFiles in
  let data := Examples.reportOf h in
  let files := [ {| fsPath := lit "/w/a.ts" |}; {| fsPath := lit "/w/B.TS" |} ] in
  In (Message.analysisResult data) (messages (trace (analyzeWorkspace Samples.view h))) /\
  findFiles h = inr files /\
  map FileDetail.path (allFiles data) = map fsPath files /\
  (forall fd, In fd (allFiles data) ->
     exists file doc,
       In file files /\ openTextDocument h file = inr doc /\
       FileDetail.path fd = fsPath file /\
       FileDetail.name fd = Path.basename (fsPath file) /\
       FileDetail.lines fd = lineCount doc /\
       FileDetail.size fd = strlen (getText doc)) /\
  totalFiles data = Z.of_nat (length (allFiles data)) /\
  totalLines data = sumZ (map FileDetail.lines (allFiles data)) /\
  unusedExports data = Z.of_nat (length (unusedFiles data)) /\
  scanProgress data = 100.
Proof.
  intros h data files.
  assert (Hin : In (Message.analysisResult data)
                   (messages (trace (analyzeWorkspace Samples.view h)))).
  { vm_compute. do 4 right. left. reflexivity. }
  split; [exact Hin|]. split; [reflexivity|].
  exact (@report_totals_agree_with_file_records Samples.view h data files Hin eq_refl).
Defined.

(** The lists of a report, from the per-file contributions. *)
Lemma report_lists this h data files :
  In (Message.analysisResult data) (messages (trace (analyzeWorkspace this h))) ->
  findFiles h = inr files ->
  Forall (opens h) files /\
  allFiles data = flat_map (recordOf h) files /\
  securityIssues data = flat_map (securityFindingsOf h) files /\
  performanceIssues data = flat_map (performanceFindingsOf h) files /\
  godFiles data = filter isGodFile (allFiles data) /\
  unusedFiles data = filter isNearEmpty (allFiles data) /\
  totalFiles data = Z.of_nat (length files) /\
  totalLines data = sumZ (map FileDetail.lines (allFiles data)) /\
  healthScore data =
    Z.max 0 (Z.min 100
      (100 - (Z.of_nat (length (securityIssues data)) * 15 +
              Z.of_nat (length (godFiles data)) * 5 +
              Z.of_nat (length (performanceIssues data)) * 8 +
              Z.of_nat (length (unusedFiles data)) * 2))).
Proof.
  intros Hin Hfiles.
  destruct (analysisResult_inv _ _ _ Hin)
    as (wn & files' & st & _ & _ & Hfiles' & Hloop & ->).
  assert (files' = files) by congruence. subst files'.
  destruct (size_classes_invariant _ _ Hloop) as [Hgod Hstub].
  unfold theLoop in Hloop. apply loop_state in Hloop.
  destruct Hloop as (Hall & Hrec & Hsec & Hperf & Hlines & _).
  apply (Forall_impl (opens h) (@completes_opens h)) in Hall.
  cbn [initialState st_allFiles st_totalLines st_securityIssues
       st_performanceIssues app] in Hrec, Hsec, Hperf, Hlines.
  cbn [report allFiles securityIssues performanceIssues godFiles unusedFiles
       totalFiles totalLines healthScore].
  unfold deductionsOf.
  split; [exact Hall|]. split; [exact Hrec|]. split; [exact Hsec|].
  split; [exact Hperf|]. split; [exact Hgod|]. split; [exact Hstub|].
  split; [reflexivity|]. split; [rewrite Hlines, Hrec; lia | reflexivity].
Qed.

Lemma sumZ_app l1 l2 : sumZ (l1 ++ l2) = sumZ l1 + sumZ l2.
Proof. induction l1 as [|x l1 IH]; simpl; [reflexivity | rewrite IH; lia]. Qed.

(** X6: files are scanned independently of each other: the report of a
    scan of [files1 ++ files2] lists the records and findings of the scan
    of [files1] followed by those of the scan of [files2], its totals are
    the sums, and its health score is at most either of the two scores. *)
Theorem scan_of_concatenated_file_lists this h files1 files2 data1 data2 data :
  In (Message.analysisResult data1)
     (messages (trace (analyzeWorkspace this (withFiles h files1)))) ->
  In (Message.analysisResult data2)
     (messages (trace (analyzeWorkspace this (withFiles h files2)))) ->
  In (Message.analysisResult data)
     (messages (trace (analyzeWorkspace this (withFiles h (files1 ++ files2))))) ->
  allFiles data = allFiles data1 ++ allFiles data2 /\
  godFiles data = godFiles data1 ++ godFiles data2 /\
  unusedFiles data = unusedFiles data1 ++ unusedFiles data2 /\
  securityIssues data = securityIssues data1 ++ securityIssues data2 /\
  performanceIssues data = performanceIssues data1 ++ performanceIssues data2 /\
  totalFiles data = totalFiles data1 + totalFiles data2 /\
  totalLines data = totalLines data1 + totalLines data2 /\
  healthScore data <= healthScore data1 /\
  healthScore data <= healthScore data2.
Proof.
  intros H1 H2 H12.
  apply (@report_lists _ _ _ files1) in H1; [|reflexivity].
  apply (@report_lists _ _ _ files2) in H2; [|reflexivity].
  apply (@report_lists _ _ _ (files1 ++ files2)) in H12; [|reflexivity].
  destruct H1 as (_ & Ha1 & Hs1 & Hp1 & Hg1 & Hu1 & Hf1 & Hl1 & Hh1).
  destruct H2 as (_ & Ha2 & Hs2 & Hp2 & Hg2 & Hu2 & Hf2 & Hl2 & Hh2).
  destruct H12 as (_ & Ha & Hs & Hp & Hg & Hu & Hf & Hl & Hh).
  change (recordOf (withFiles h ?f)) with (recordOf h) in *.
  change (securityFindingsOf (withFiles h ?f)) with (securityFindingsOf h) in *.
  change (performanceFindingsOf (withFiles h ?f)) with (performanceFindingsOf h) in *.
  rewrite flat_map_app in Ha, Hs, Hp. rewrite <- Ha1, <- Ha2 in Ha.
  rewrite <- Hs1, <- Hs2 in Hs. rewrite <- Hp1, <- Hp2 in Hp.
  assert (Hgod : godFiles data = godFiles data1 ++ godFiles data2)
    by (rewrite Hg, Ha, filter_app, <- Hg1, <- Hg2; reflexivity).
  assert (Hstub : unusedFiles data = unusedFiles data1 ++ unusedFiles data2)
    by (rewrite Hu, Ha, filter_app, <- Hu1, <- Hu2; reflexivity).
  split; [exact Ha|]. split; [exact Hgod|]. split; [exact Hstub|].
  split; [exact Hs|]. split; [exact Hp|].
  split; [rewrite Hf, Hf1, Hf2, length_app; lia|].
  split; [rewrite Hl, Hl1, Hl2, Ha, map_app, sumZ_app; reflexivity|].
  rewrite Hh, Hh1, Hh2, Hs, Hp, Hgod, Hstub, !length_app. lia.
Qed.

Lemma scan_of_concatenated_file_lists_witness :
  let h := Examples.twoFiles in
  let files1 := [ {| fsPath := lit "/w/a.ts" |} ] in
  let files2 := [ {| fsPath := lit "/w/B.TS" |} ] in
  let data1 := Examples.reportOf (withFiles h files1) in
  let data2 := Examples.reportOf (withFiles h files2) in
  let data := Examples.reportOf (withFiles h (files1 ++ files2)) in
  In (Message.analysisResult data1)
     (messages (trace (analyzeWorkspace Samples.view (withFiles h files1)))) /\
  In (Message.analysisResult data2)
     (messages (trace (analyzeWorkspace Samples.view (withFiles h files2)))) /\
  In (Message.analysisResult data)
     (messages (trace (analyzeWorkspace Samples.view
                         (withFiles h (files1 ++ files2))))) /\
  allFiles data = allFiles data1 ++ allFiles data2 /\
  godFiles data = godFiles data1 ++ godFiles data2 /\
  unusedFiles data = unusedFiles data1 ++ unusedFiles data2 /\
  securityIssues data = securityIssues data1 ++ securityIssues data2 /\
  performanceIssues data = performanceIssues data1 ++ performanceIssues data2 /\
  totalFiles data = totalFiles data1 + totalFiles data2 /\
  totalLines data = totalLines data1 + totalLines data2 /\
  healthScore data <= healthScore data1 /\
  healthScore data <= healthScore data2.
Proof.
  intros h files1 files2 data1 data2 data.
  assert (H1 : In (Message.analysisResult data1)
     (messages (trace (analyzeWorkspace Samples.view (withFiles h files1))))).
  { vm_compute. do 3 right. left. reflexivity. }
  assert (H2 : In (Message.analysisResult data2)
     (messages (trace (analyzeWorkspace Samples.view (withFiles h files2))))).
  { vm_compute. do 3 right. left. reflexivity. }
  assert (H12 : In (Message.analysisResult data)
     (messages (trace (analyzeWorkspace Samples.view
                         (withFiles h (files1 ++ files2)))))).
  { vm_compute. do 4 right. left. reflexivity. }
  split; [exact H1|]. split; [exact H2|]. split; [exact H12|].
  exact (@scan_of_concatenated_file_lists Samples.view h files1 files2
           data1 data2 data H1 H2 H12).
Defined.

Lemma flat_map_length_le {A B} (f : A -> list B) (n : nat) (l : list A) :
  (forall x, In x l -> (length (f x) <= n)%nat) ->
  (length (flat_map f l) <= n * length l)%nat.
Proof.
  induction l as [|x l IH]; intros Hf; simpl; [lia|].
  rewrite length_app.
  assert (length (f x) <= n)%nat by (apply Hf; now left).
  assert (length (flat_map f l) <= n * length l)%nat
    by (apply IH; intros y Hy; apply Hf; now right).
  lia.
Qed.

Lemma findingFor_length relativePath text pattern :
  (length (findingFor relativePath text pattern) <= 1)%nat.
Proof.
  unfold findingFor. destruct (js_match text pattern) as [[|m ms]|]; simpl; lia.
Qed.

Lemma securityFindingsOf_length h file :
  (length (securityFindingsOf h file) <= 3)%nat.
Proof.
  unfold securityFindingsOf. destruct (openTextDocument h file); [simpl; lia|].
  unfold secPatterns. cbn [flat_map]. rewrite !length_app. cbn [length].
  repeat match goal with
  | |- context [length (findingFor ?r ?t ?p)] =>
      let H := fresh in
      pose proof (findingFor_length r t p) as H;
      generalize dependent (length (findingFor r t p)); intros
  end. lia.
Qed.

Lemma performanceFindingsOf_length h file :
  (length (performanceFindingsOf h file) <= 2)%nat.
Proof.
  unfold performanceFindingsOf, performanceIssuesAfter, push.
  destruct (openTextDocument h file); [simpl; lia|].
  destruct (js_match _ nestedLoopPattern); destruct (test evalPattern _); simpl; lia.
Qed.

Lemma disjoint_filters_length {A} (p q : A -> bool) (l : list A) :
  (forall x, p x = true -> q x = false) ->
  (length (filter p l) + length (filter q l) <= length l)%nat.
Proof.
  intros Hpq. induction l as [|x l IH]; simpl; [lia|].
  destruct (p x) eqn:Hp; [rewrite (Hpq x Hp)|destruct (q x)]; simpl; lia.
Qed.

(** X7: a report holds at most three security findings and two
    performance findings per scanned file; no file is both a god file
    and a near-empty file, so the two lists together are no longer than
    the list of all files; hence the health score is at least
    [100 - 66 * totalFiles]. *)
Theorem findings_are_bounded_by_file_count this h data :
  In (Message.analysisResult data) (messages (trace (analyzeWorkspace this h))) ->
  Z.of_nat (length (securityIssues data)) <= 3 * totalFiles data /\
  Z.of_nat (length (performanceIssues data)) <= 2 * totalFiles data /\
  (forall fd, In fd (godFiles data) -> ~ In fd (unusedFiles data)) /\
  Z.of_nat (length (godFiles data)) + Z.of_nat (length (unusedFiles data))
    <= totalFiles data /\
  100 - 66 * totalFiles data <= healthScore data.
Proof.
  intros Hin.
  destruct (analysisResult_inv _ _ _ Hin)
    as (wn & files & st & _ & _ & Hfiles & _ & Hdata).
  destruct (@report_lists this h data files Hin Hfiles)
    as (Hall & Ha & Hs & Hp & Hg & Hu & Hf & _ & Hh).
  assert (Hlen : length (allFiles data) = length files).
  { rewrite Ha. apply flat_map_recordOf_opens. exact Hall. }
  assert (Hsec : (length (securityIssues data) <= 3 * length files)%nat).
  { rewrite Hs. apply flat_map_length_le. intros f _. apply securityFindingsOf_length. }
  assert (Hperf : (length (performanceIssues data) <= 2 * length files)%nat).
  { rewrite Hp. apply flat_map_length_le. intros f _. apply performanceFindingsOf_length. }
  assert (Hdis : forall fd, isGodFile fd = true -> isNearEmpty fd = false).
  { intros fd. unfold isGodFile, isNearEmpty.
    rewrite Z.gtb_ltb, Z.ltb_lt, andb_false_iff, Z.ltb_ge. lia. }
  assert (Hsize : (length (godFiles data) + length (unusedFiles data)
                   <= length files)%nat).
  { rewrite Hg, Hu, <- Hlen. apply disjoint_filters_length. exact Hdis. }
  split; [lia|]. split; [lia|]. split; [|split; [lia|]].
  - intros fd Hgod Hstub. rewrite Hg in Hgod. rewrite Hu in Hstub.
    apply filter_In in Hgod. apply filter_In in Hstub.
    destruct Hgod as [_ Hgod]. destruct Hstub as [_ Hstub].
    rewrite (Hdis fd Hgod) in Hstub. discriminate.
  - rewrite Hh, Hf. lia.
Qed.

Lemma findings_are_bounded_by_file_count_witness :
  let data := Examples.reportOf Examples.twoFiles in
  In (Message.analysisResult data)
     (messages (trace (analyzeWorkspace Samples.view Examples.twoFiles))) /\
  Z.of_nat (length (securityIssues data)) <= 3 * totalFiles data /\
  Z.of_nat (length (performanceIssues data)) <= 2 * totalFiles data /\
  (forall fd, In fd (godFiles data) -> ~ In fd (unusedFiles data)) /\
  Z.of_nat (length (godFiles data)) + Z.of_nat (length (unusedFiles data))
    <= totalFiles data /\
  100 - 66 * totalFiles data <= healthScore data.
Proof.
  intros data.
  assert (Hin : In (Message.analysisResult data)
     (messages (trace (analyzeWorkspace Samples.view Examples.twoFiles)))).
  { vm_compute. do 4 right. left. reflexivity. }
  split; [exact Hin|].
  exact (@findings_are_bounded_by_file_count Samples.view Examples.twoFiles data Hin).
Defined.

(** X8: every performance finding of a report names the relative path of
    a scanned file and is either a "Nested Loops" finding with a count of
    at least 1 or an "eval() usage" finding with count 1; every security
    finding names the relative path of a scanned file too. *)
Theorem findings_name_scanned_files this h data files :
  In (Message.analysisResult data) (messages (trace (analyzeWorkspace this h))) ->
  findFiles h = inr files ->
  (forall issue, In issue (performanceIssues data) ->
     exists file,
       In file files /\ PerformanceIssue.file issue = asRelativePath h file /\
       (PerformanceIssue.type issue = lit "Nested Loops" /\
        1 <= PerformanceIssue.count issue \/
        PerformanceIssue.type issue = lit "eval() usage" /\
        PerformanceIssue.count issue = 1)) /\
  (forall issue, In issue (securityIssues data) ->
     exists file, In file files /\ SecurityIssue.file issue = asRelativePath h file).
Proof.
  intros Hin Hfiles.
  destruct (@report_lists this h data files Hin Hfiles)
    as (_ & _ & Hs & Hp & _).
  split.
  - intros issue Hissue. rewrite Hp in Hissue. apply in_flat_map in Hissue.
    destruct Hissue as (file & Hfile & Hissue). exists file. split; [exact Hfile|].
    unfold performanceFindingsOf in Hissue.
    destruct (openTextDocument h file) as [e|doc]; [destruct Hissue|].
    unfold performanceIssuesAfter, push in Hissue.
    destruct (js_match (getText doc) nestedLoopPattern) as [ms|] eqn:Hm.
    + destruct (js_match_Some _ _ Hm) as (sk & first & others & -> & _).
      destruct (test evalPattern (getText doc));
        cbn [app] in Hissue; destruct Hissue as [<-|Hissue];
        try (destruct Hissue as [<-|[]]);
        try (destruct Hissue as []);
        (split; [reflexivity|]); cbn [PerformanceIssue.type PerformanceIssue.count];
        try (left; split; [reflexivity | cbn [length]; lia]);
        right; split; reflexivity.
    + destruct (test evalPattern (getText doc)); cbn [app] in Hissue;
        [|destruct Hissue].
      destruct Hissue as [<-|[]]. split; [reflexivity|]. right. split; reflexivity.
  - intros issue Hissue. rewrite Hs in Hissue. apply in_flat_map in Hissue.
    destruct Hissue as (file & Hfile & Hissue). exists file. split; [exact Hfile|].
    unfold securityFindingsOf in Hissue.
    destruct (openTextDocument h file) as [e|doc]; [destruct Hissue|].
    apply in_flat_map in Hissue. destruct Hissue as (p & _ & Hissue).
    unfold findingFor in Hissue.
    destruct (js_match (getText doc) p) as [[|m ms]|]; try destruct Hissue as [<-|[]];
      try destruct Hissue. reflexivity.
Qed.

Lemma findings_name_scanned_files_witness :
  let h := Examples.twoFiles in
  let data := Examples.reportOf h in
  let files := [ {| fsPath := lit "/w/a.ts" |}; {| fsPath := lit "/w/B.TS" |} ] in
  In (Message.analysisResult data) (messages (trace (analyzeWorkspace Samples.view h))) /\
  findFiles h = inr files /\
  (forall issue, In issue (performanceIssues data) ->
     exists file,
       In file files /\ PerformanceIssue.file issue = asRelativePath h file /\
       (PerformanceIssue.type issue = lit "Nested Loops" /\
        1 <= PerformanceIssue.count issue \/
        PerformanceIssue.type issue = lit "eval() usage" /\
        PerformanceIssue.count issue = 1)) /\
  (forall issue, In issue (securityIssues data) ->
     exists file, In file files /\ SecurityIssue.file issue = asRelativePath h file).
Proof.
  intros h data files.
  assert (Hin : In (Message.analysisResult data)
                   (messages (trace (analyzeWorkspace Samples.view h)))).
  { vm_compute. do 4 right. left. reflexivity. }
  split; [exact Hin|]. split; [reflexivity|].
  exact (@findings_name_scanned_files Samples.view h data files Hin eq_refl).
Defined.

(** ** What the detectors look for *)

Lemma Matches_Chars_inv s left m right :
  Matches (Chars s) left m right -> m = s.
Proof. now inversion 1. Qed.

Lemma Matches_Class_inv cs left m right :
  Matches (Class cs) left m right -> exists c, m = [c] /\ cset_mem cs c = true.
Proof. inversion 1; subst. now eexists. Qed.

Lemma Matches_Seq_inv r1 r2 left m right :
  Matches (Seq r1 r2) left m right ->
  exists m1 m2, m = m1 ++ m2 /\ Matches r1 left m1 (m2 ++ right) /\
                Matches r2 (rev m1 ++ left) m2 right.
Proof. inversion 1; subst. now eexists _, _. Qed.

Lemma Matches_Alt_inv r1 r2 left m right :
  Matches (Alt r1 r2) left m right ->
  Matches r1 left m right \/ Matches r2 left m right.
Proof. inversion 1; subst; tauto. Qed.

Lemma Matches_Repeat_inv cs n greedy left m right :
  Matches (Repeat cs n greedy) left m right -> (n <= length m)%nat /\ allIn cs m.
Proof. inversion 1; subst. tauto. Qed.

Lemma Matches_WordBoundary_inv left m right :
  Matches WordBoundary left m right ->
  m = [] /\ xorb (is_word_at left) (is_word_at right) = true.
Proof. inversion 1; subst. tauto. Qed.

Ltac split_seq H m1 H1 :=
  let m2 := fresh "rest" in
  apply Matches_Seq_inv in H; destruct H as (m1 & m2 & -> & H1 & H).

Ltac chars_inv H := apply Matches_Chars_inv in H; subst.

Lemma evalPattern_occurs text : occursIn evalPattern text <-> evalCall text.
Proof.
  unfold occursIn, evalCall, evalPattern, seq, star, str; cbn [fold_right]. split.
  - intros (before & m & after & -> & Hm).
    split_seq Hm m0 Hwb. apply Matches_WordBoundary_inv in Hwb as (-> & Hxor).
    split_seq Hm m1 H1. chars_inv H1.
    split_seq Hm spaces Hs. apply Matches_Repeat_inv in Hs as (_ & Hs).
    split_seq Hm m3 H3. chars_inv H3. chars_inv Hm.
    exists before, spaces, after. cbn [app]. rewrite !app_nil_r, <- !app_assoc.
    split; [reflexivity|]. split; [assumption|].
    cbn in Hxor. destruct (is_word_at (rev before)); [discriminate | reflexivity].
  - intros (before & spaces & after & -> & Hs & Hw).
    exists before, (lit "eval" ++ spaces ++ lit "("), after.
    split; [now rewrite <- !app_assoc|].
    change (lit "eval" ++ spaces ++ lit "(")
      with ([] ++ lit "eval" ++ spaces ++ lit "(").
    constructor; [constructor; cbn; now rewrite Hw|].
    constructor; [constructor|].
    replace (spaces ++ lit "(") with (spaces ++ lit "(" ++ []) by now rewrite app_nil_r.
    constructor; [constructor; [lia | exact Hs]|].
    constructor; constructor.
Qed.

Lemma jwt_occurs text :
  occursIn (nth 1 secPatterns (Chars [])) text <-> jwtLike text.
Proof.
  unfold occursIn, jwtLike; cbn [nth secPatterns seq fold_right str]. split.
  - intros (before & m & after & -> & Hm).
    split_seq Hm m1 H1. chars_inv H1.
    split_seq Hm run Hr. apply Matches_Repeat_inv in Hr as (Hlen & Hr). chars_inv Hm.
    exists before, run, after. rewrite !app_nil_r, <- !app_assoc. tauto.
  - intros (before & run & after & -> & Hlen & Hr).
    exists before, (lit "eyJ" ++ run), after.
    split; [now rewrite <- !app_assoc|].
    constructor; [constructor|].
    rewrite <- (app_nil_r run). constructor; [now constructor | constructor].
Qed.

Lemma vendor_occurs text :
  occursIn (nth 2 secPatterns (Chars [])) text <-> vendorKey text.
Proof.
  unfold occursIn, vendorKey; cbn [nth secPatterns seq fold_right str alt]. split.
  - intros (before & m & after & -> & Hm).
    split_seq Hm lead Hp. split_seq Hm run Hr.
    apply Matches_Repeat_inv in Hr as (Hlen & Hr). chars_inv Hm.
    exists before, lead, run, after. rewrite !app_nil_r, <- !app_assoc.
    split; [reflexivity|]. split; [|tauto].
    apply Matches_Alt_inv in Hp as [Hp|Hp]; apply Matches_Chars_inv in Hp; tauto.
  - intros (before & prefix & run & after & -> & Hp & Hlen & Hr).
    exists before, (prefix ++ run), after.
    split; [now rewrite <- !app_assoc|].
    constructor.
    + destruct Hp as [->| ->]; [apply M_Alt_l | apply M_Alt_r]; constructor.
    + rewrite <- (app_nil_r run). constructor; [now constructor | constructor].
Qed.

Lemma keyNames_Matches left m right :
  Matches (alt (str "API_KEY")
             [str "APIKEY"; str "api_key"; str "SECRET"; str "PASSWORD";
              str "PASSWD"; str "TOKEN"; str "ACCESS_KEY"]) left m right
  <-> In m keyNames.
Proof.
  unfold keyNames, str; cbn [alt]. split.
  - intros H.
    repeat (apply Matches_Alt_inv in H as [H|H];
            [apply Matches_Chars_inv in H; subst; simpl; tauto|]).
    apply Matches_Chars_inv in H; subst; simpl; tauto.
  - intros H. simpl in H.
    repeat (destruct H as [<-|H];
            [repeat (first [apply M_Chars | apply M_Alt_l; apply M_Chars | apply M_Alt_r])|]).
    destruct H.
Qed.

Lemma keyAssignment_occurs text :
  occursIn (nth 0 secPatterns (Chars [])) text <-> keyAssignment text.
Proof.
  unfold occursIn, keyAssignment; cbn [nth secPatterns seq fold_right star].
  fold keyChars. split.
  - intros (before & m & after & -> & Hm).
    split_seq Hm key Hkey. apply keyNames_Matches in Hkey.
    split_seq Hm spaces1 Hs1. apply Matches_Repeat_inv in Hs1 as (_ & Hs1).
    split_seq Hm msep Hsep. apply Matches_Class_inv in Hsep as (sep & -> & Hsep).
    split_seq Hm spaces2 Hs2. apply Matches_Repeat_inv in Hs2 as (_ & Hs2).
    split_seq Hm mq1 Hq1. apply Matches_Class_inv in Hq1 as (q1 & -> & Hq1).
    split_seq Hm val Hv. apply Matches_Repeat_inv in Hv as (Hlen & Hv).
    split_seq Hm mq2 Hq2. apply Matches_Class_inv in Hq2 as (q2 & -> & Hq2).
    chars_inv Hm.
    exists before, key, spaces1, sep, spaces2, q1, val, q2, after.
    rewrite !app_nil_r, <- !app_assoc. tauto.
  - intros (before & key & spaces1 & sep & spaces2 & q1 & val & q2 & after
            & -> & Hkey & Hs1 & Hsep & Hs2 & Hq1 & Hlen & Hv & Hq2).
    exists before,
      (key ++ spaces1 ++ [sep] ++ spaces2 ++ [q1] ++ val ++ [q2] ++ []), after.
    split; [now rewrite <- !app_assoc|].
    constructor; [now apply keyNames_Matches|].
    constructor; [constructor; [lia | exact Hs1]|].
    constructor; [now constructor|].
    constructor; [constructor; [lia | exact Hs2]|].
    constructor; [now constructor|].
    constructor; [now constructor|].
    constructor; [now constructor | constructor].
Qed.

Lemma nestedLoopPattern_occurs text :
  occursIn nestedLoopPattern text <-> nestedFor text.
Proof.
  unfold occursIn, nestedFor, nestedLoopPattern, seq, star, str; cbn [fold_right].
  split.
  - intros (before & m & after & -> & Hm).
    split_seq Hm m1 H1. chars_inv H1.
    split_seq Hm spaces1 Hs1. apply Matches_Repeat_inv in Hs1 as (_ & Hs1).
    split_seq Hm m2 H2. chars_inv H2.
    split_seq Hm header Hh. apply Matches_Repeat_inv in Hh as (_ & Hh).
    split_seq Hm m3 H3. chars_inv H3.
    split_seq Hm spaces2 Hs2. apply Matches_Repeat_inv in Hs2 as (_ & Hs2).
    split_seq Hm m4 H4. chars_inv H4.
    split_seq Hm body Hb. apply Matches_Repeat_inv in Hb as (_ & Hb).
    split_seq Hm m5 H5. chars_inv H5.
    split_seq Hm spaces3 Hs3. apply Matches_Repeat_inv in Hs3 as (_ & Hs3).
    split_seq Hm m6 H6. chars_inv H6. chars_inv Hm.
    exists before, spaces1, header, spaces2, body, spaces3, after.
    rewrite !app_nil_r, <- !app_assoc. tauto.
  - intros (before & spaces1 & header & spaces2 & body & spaces3 & after
            & -> & Hs1 & Hh & Hs2 & Hb & Hs3).
    exists before,
      (lit "for" ++ spaces1 ++ lit "(" ++ header ++ lit ")" ++ spaces2 ++
       lit "{" ++ body ++ lit "for" ++ spaces3 ++ lit "(" ++ []), after.
    split; [now rewrite <- !app_assoc|].
    constructor; [constructor|].
    constructor; [constructor; [lia | exact Hs1]|].
    constructor; [constructor|].
    constructor; [constructor; [lia | exact Hh]|].
    constructor; [constructor|].
    constructor; [constructor; [lia | exact Hs2]|].
    constructor; [constructor|].
    constructor; [constructor; [lia | exact Hb]|].
    constructor; [constructor|].
    constructor; [constructor; [lia | exact Hs3]|].
    constructor; constructor.
Qed.

Lemma findingFor_nonempty relativePath text pattern :
  findingFor relativePath text pattern <> [] <-> occursIn pattern text.
Proof.
  rewrite <- js_match_occursIn. unfold findingFor.
  destruct (js_match text pattern) as [ms|] eqn:Hm.
  - destruct (js_match_Some _ _ Hm) as (sk & first & others & -> & _).
    split; [intros _; now eexists | discriminate].
  - split; [congruence | intros [ms Habs]; discriminate].
Qed.

(** X9: scanning a file adds an "eval() usage" finding, with count 1 and
    only one however often [eval] is called, exactly when the text holds
    [eval], optional white space and an opening parenthesis with no word
    character right before [eval]. *)
Theorem eval_usage_is_flagged_once h len st file doc st' :
  openTextDocument h file = inr doc ->
  outcome (scanFile h len st file) = inr st' ->
  exists added,
    st_performanceIssues st' = st_performanceIssues st ++ added /\
    (evalCall (getText doc) ->
     filter isEvalUsage added =
       [PerformanceIssue.mk (asRelativePath h file) 1 (lit "eval() usage")]) /\
    (~ evalCall (getText doc) -> filter isEvalUsage added = []).
Proof.
  intros Hdoc Hstep. pose proof (@scanFile_completed _ _ _ _ _ _ Hdoc Hstep) as Hsc.
  rewrite scanFile_outcome, Hsc in Hstep. injection Hstep as <-.
  cbn [st_performanceIssues]. rewrite performanceScan_over.
  eexists. split; [reflexivity|].
  rewrite <- evalPattern_occurs, <- test_occursIn.
  unfold performanceIssuesAfter, push.
  destruct (test evalPattern (getText doc));
    destruct (js_match (getText doc) nestedLoopPattern); cbn; split;
    try reflexivity; try congruence; try discriminate.
Qed.

Lemma eval_usage_is_flagged_once_witness :
  let text := lit "x = eval (y); medieval(z)" in
  let h := Samples.host [(lit "/w/e.js", (text, 9))] [lit "/w/e.js"] in
  let file := {| fsPath := lit "/w/e.js" |} in
  let doc := {| getText := text; lineCount := 9 |} in
  let st' := match outcome (scanFile h 1 initialState file) with
             | inr st' => st'
             | inl _ => initialState
             end in
  openTextDocument h file = inr doc /\
  outcome (scanFile h 1 initialState file) = inr st' /\
  exists added,
    st_performanceIssues st' = st_performanceIssues initialState ++ added /\
    (evalCall (getText doc) ->
     filter isEvalUsage added =
       [PerformanceIssue.mk (asRelativePath h file) 1 (lit "eval() usage")]) /\
    (~ evalCall (getText doc) -> filter isEvalUsage added = []).
Proof.
  intros text h file doc st'.
  assert (Hdoc : openTextDocument h file = inr doc) by reflexivity.
  assert (Hstep : outcome (scanFile h 1 initialState file) = inr st').
  { unfold st'. rewrite scanFile_outcome. reflexivity. }
  split; [exact Hdoc|]. split; [exact Hstep|].
  exact (@eval_usage_is_flagged_once h 1 initialState file doc st' Hdoc Hstep).
Defined.

(** X10: scanning a file adds security findings in three groups of at
    most one finding each, in this order: one exactly when the text holds
    a credential-like key, [:] or [=], and a quoted value of at least 8
    allowed characters; one exactly when it holds [eyJ] followed by at
    least 10 letters or digits; one exactly when it holds [sk-] or [pk-]
    followed by at least 20 letters or digits. *)
Theorem file_is_flagged_for_each_kind_of_secret h len st file doc st' :
  openTextDocument h file = inr doc ->
  outcome (scanFile h len st file) = inr st' ->
  exists keys jwts vendors,
    st_securityIssues st' = st_securityIssues st ++ keys ++ jwts ++ vendors /\
    (length keys <= 1)%nat /\ (length jwts <= 1)%nat /\
    (length vendors <= 1)%nat /\
    (keys <> [] <-> keyAssignment (getText doc)) /\
    (jwts <> [] <-> jwtLike (getText doc)) /\
    (vendors <> [] <-> vendorKey (getText doc)).
Proof.
  intros Hdoc Hstep. pose proof (@scanFile_completed _ _ _ _ _ _ Hdoc Hstep) as Hsc.
  rewrite scanFile_outcome, Hsc in Hstep. injection Hstep as <-.
  cbn [st_securityIssues]. rewrite securityScan_spec.
  set (rel := asRelativePath h file). set (text := getText doc).
  exists (findingFor rel text (nth 0 secPatterns (Chars []))),
         (findingFor rel text (nth 1 secPatterns (Chars []))),
         (findingFor rel text (nth 2 secPatterns (Chars []))).
  split; [cbn [secPatterns flat_map nth]; now rewrite app_nil_r|].
  split; [apply findingFor_length|]. split; [apply findingFor_length|].
  split; [apply findingFor_length|].
  rewrite !findingFor_nonempty.
  split; [apply keyAssignment_occurs|].
  split; [apply jwt_occurs | apply vendor_occurs].
Qed.

Lemma file_is_flagged_for_each_kind_of_secret_witness :
  let h := Examples.twoFiles in
  let file := {| fsPath := lit "/w/B.TS" |} in
  let doc := {| getText := Examples.secrets; lineCount := 501 |} in
  let st' := match outcome (scanFile h 2 initialState file) with
             | inr st' => st'
             | inl _ => initialState
             end in
  openTextDocument h file = inr doc /\
  outcome (scanFile h 2 initialState file) = inr st' /\
  exists keys jwts vendors,
    st_securityIssues st' =
      st_securityIssues initialState ++ keys ++ jwts ++ vendors /\
    (length keys <= 1)%nat /\ (length jwts <= 1)%nat /\
    (length vendors <= 1)%nat /\
    (keys <> [] <-> keyAssignment (getText doc)) /\
    (jwts <> [] <-> jwtLike (getText doc)) /\
    (vendors <> [] <-> vendorKey (getText doc)).
Proof.
  intros h file doc st'.
  assert (Hdoc : openTextDocument h file = inr doc) by reflexivity.
  assert (Hstep : outcome (scanFile h 2 initialState file) = inr st').
  { unfold st'. rewrite scanFile_outcome. reflexivity. }
  split; [exact Hdoc|]. split; [exact Hstep|].
  exact (@file_is_flagged_for_each_kind_of_secret h 2 initialState file doc st'
           Hdoc Hstep).
Defined.

(** X11: scanning a file adds a "Nested Loops" finding exactly when its
    text holds [for], an opening parenthesis, a header without line
    break, a closing parenthesis, an opening brace, and a second [for (]
    before any closing brace (white space allowed after [for] and before
    the brace): a condition on the text, not on the nesting of the
    program. *)
Theorem nested_loops_is_a_textual_check h len st file doc st' :
  openTextDocument h file = inr doc ->
  outcome (scanFile h len st file) = inr st' ->
  exists added,
    st_performanceIssues st' = st_performanceIssues st ++ added /\
    ((exists issue, In issue added /\
                    PerformanceIssue.type issue = lit "Nested Loops")
     <-> nestedFor (getText doc)).
Proof.
  intros Hdoc Hstep. pose proof (@scanFile_completed _ _ _ _ _ _ Hdoc Hstep) as Hsc.
  rewrite scanFile_outcome, Hsc in Hstep. injection Hstep as <-.
  cbn [st_performanceIssues]. rewrite performanceScan_over.
  eexists. split; [reflexivity|].
  rewrite <- nestedLoopPattern_occurs, <- js_match_occursIn.
  unfold performanceIssuesAfter, push.
  destruct (js_match (getText doc) nestedLoopPattern) as [ms|];
    destruct (test evalPattern (getText doc)); cbn [app]; split.
  all: try (intros _; now eexists).
  all: try (intros _; eexists; split; [left; reflexivity | reflexivity]).
  all: try (intros [ms' Habs]; discriminate).
  - intros (issue & [<-|[]] & Htype). discriminate.
  - intros (issue & [] & _).
Qed.

Lemma nested_loops_is_a_textual_check_witness :
  let h := Examples.twoFiles in
  let file := {| fsPath := lit "/w/a.ts" |} in
  let doc := {| getText := Examples.nested; lineCount := 3 |} in
  let st' := match outcome (scanFile h 2 initialState file) with
             | inr st' => st'
             | inl _ => initialState
             end in
  openTextDocument h file = inr doc /\
  outcome (scanFile h 2 initialState file) = inr st' /\
  exists added,
    st_performanceIssues st' = st_performanceIssues initialState ++ added /\
    ((exists issue, In issue added /\
                    PerformanceIssue.type issue = lit "Nested Loops")
     <-> nestedFor (getText doc)).
Proof.
  intros h file doc st'.
  assert (Hdoc : openTextDocument h file = inr doc) by reflexivity.
  assert (Hstep : outcome (scanFile h 2 initialState file) = inr st').
  { unfold st'. rewrite scanFile_outcome. reflexivity. }
  split; [exact Hdoc|]. split; [exact Hstep|].
  exact (@nested_loops_is_a_textual_check h 2 initialState file doc st' Hdoc Hstep).
Defined.

(** X18: the [match] field of a security finding shows between 13 and
    40 code units of the matched secret followed by the ellipsis; its
    line is always 0.  No pattern of the scan matches fewer than 13 code
    units. *)
Theorem security_finding_shows_13_to_40_units this h data issue :
  In (Message.analysisResult data) (messages (trace (analyzeWorkspace this h))) ->
  In issue (securityIssues data) ->
  exists shown,
    SecurityIssue.match_ issue = shown ++ [ellipsis] /\
    (13 <= length shown <= 40)%nat /\
    SecurityIssue.line issue = 0.
Proof.
  intros Hin Hissue.
  destruct (analysisResult_inv _ _ _ Hin) as (wn & files & st & _ & _ & _ & Hloop & ->).
  pose proof (security_issues_invariant _ _ Hloop) as Hinv.
  rewrite Forall_forall in Hinv. cbn [report securityIssues] in Hissue.
  destruct (Hinv _ Hissue) as (file & doc & pattern & sk & first & _ & _ & Hpat & Hexec & ->).
  exists (firstn 40 first). split; [reflexivity|]. split; [|reflexivity].
  destruct (exec_from_leftmost _ _ _ Hexec) as (_ & Hat & _).
  apply match_here_Matches in Hat. destruct Hat as (after & _ & Hm).
  apply Matches_minLength in Hm.
  assert (Hmin : (13 <= minLength pattern)%nat).
  { destruct Hpat as [<-|[<-|[<-|[]]]]; vm_compute; lia. }
  rewrite length_firstn. lia.
Qed.

Lemma security_finding_shows_13_to_40_units_witness :
  let h := Examples.twoFiles in
  let data := Examples.reportOf h in
  let issue := SecurityIssue.mk (lit "B.TS") 0
                 (lit "SECRET = 'abcd1234efgh'" ++ [ellipsis]) in
  In (Message.analysisResult data) (messages (trace (analyzeWorkspace Samples.view h))) /\
  In issue (securityIssues data) /\
  exists shown,
    SecurityIssue.match_ issue = shown ++ [ellipsis] /\
    (13 <= length shown <= 40)%nat /\
    SecurityIssue.line issue = 0.
Proof.
  intros h data issue.
  assert (Hin : In (Message.analysisResult data)
                   (messages (trace (analyzeWorkspace Samples.view h)))).
  { vm_compute. do 4 right. left. reflexivity. }
  assert (Hissue : In issue (securityIssues data)).
  { vm_compute. left. reflexivity. }
  split; [exact Hin|]. split; [exact Hissue|].
  exact (@security_finding_shows_13_to_40_units Samples.view h data issue Hin Hissue).
Defined.

(** ** The nonce *)

Lemma Zpos_lt_pow_digits m : Z.pos m < 2 ^ Z.pos (digits2_pos m).
Proof.
  pose proof (@Zdigits2_log2 (Z.pos m) ltac:(lia)) as Hd.
  change (Zdigits2 (Z.pos m)) with (Z.pos (digits2_pos m)) in Hd.
  rewrite Hd. replace (Z.log2 (Z.pos m) + 1) with (Z.succ (Z.log2 (Z.pos m))) by lia.
  apply Z.log2_spec. lia.
Qed.

Lemma Zdigits2_bounds m : 0 < m -> 2 ^ (Zdigits2 m - 1) <= m < 2 ^ Zdigits2 m.
Proof.
  intros Hm. rewrite Zdigits2_log2 by assumption.
  replace (Z.log2 m + 1 - 1) with (Z.log2 m) by lia.
  replace (Z.log2 m + 1) with (Z.succ (Z.log2 m)) by lia.
  apply Z.log2_spec. exact Hm.
Qed.

(** A number of the unit interval is a zero or a positive fraction with
    a mantissa of at most 53 bits. *)
Lemma of_Z_1 : of_Z 1 = S754_finite false 4503599627370496 (-52).
Proof. vm_compute. reflexivity. Qed.

(** A number of the unit interval is a zero or a positive fraction with
    a mantissa of at most 53 bits. *)
Lemma unit_interval_finite s m e :
  unit_interval (S754_finite s m e) ->
  s = false /\ e < 0 /\ Z.pos m < 2 ^ 53 /\ Z.pos m < 2 ^ (- e).
Proof.
  intros (Hvalid & Hge & Hlt).
  assert (Hs : s = false).
  { destruct s; [|reflexivity]. cbv in Hge. discriminate Hge. }
  subst s. split; [reflexivity|].
  cbn [valid_binary] in Hvalid. unfold bounded, canonical_mantissa in Hvalid.
  apply andb_true_iff in Hvalid. destruct Hvalid as [Hcanon _].
  apply Z.eqb_eq in Hcanon. unfold fexp, emin, prec, emax in Hcanon.
  pose proof (Zpos_lt_pow_digits m) as Hdig.
  assert (Hd : Z.pos (digits2_pos m) <= 53) by lia.
  assert (Hm : Z.pos m < 2 ^ 53).
  { eapply Z.lt_le_trans; [exact Hdig|]. apply Z.pow_le_mono_r; lia. }
  rewrite of_Z_1 in Hlt.
  unfold SFltb in Hlt. cbn [SFcompare] in Hlt.
  destruct (Z.compare_spec e (-52)) as [He|He|He]; try discriminate Hlt.
  - subst e. split; [lia|]. split; [exact Hm|].
    rewrite Pos.compare_cont_spec in Hlt. cbn [Pos.switch_Eq] in Hlt.
    destruct (Pos.compare_spec m 4503599627370496) as [Hc|Hc|Hc]; try discriminate Hlt.
    exact Hc.
  - split; [lia|]. split; [exact Hm|].
    eapply Z.lt_le_trans; [exact Hm|]. apply Z.pow_le_mono_r; lia.
Qed.

Lemma RNE_nonneg N D : 0 < D -> 0 <= N -> 0 <= RNE N D.
Proof.
  intros HD HN. assert (0 <= N / D) by (apply Z.div_pos; lia).
  destruct (@RNE_floor_or_ceil N D HD) as [->|[-> _]]; lia.
Qed.

(** A fraction below [M - 1/2] rounds to at most [M - 1]. *)
Lemma RNE_below N D M : 0 < D -> 2 * N < (2 * M - 1) * D -> RNE N D <= M - 1.
Proof.
  intros HD Hlt.
  pose proof (Z.mod_pos_bound N D HD) as Hr.
  pose proof (Z.div_mod N D ltac:(lia)) as Hdm.
  destruct (@RNE_floor_or_ceil N D HD) as [->|[-> Hhalf]]; nia.
Qed.

(** Rounding a non-negative fraction to binary64, whatever its size:
    the mantissa is the fraction shifted to the exponent that [fexp]
    chooses, rounded to nearest even. *)
Lemma binary_round_aux_RNE N D e loc :
  0 < D -> 0 <= N ->
  shr_record_of_loc (N / D) loc = shifted N D ->
  let k := fexp prec emax (Zdigits2 (N / D) + e) - e in
  0 <= k -> e + k + 1 <= 971 ->
  0 <= RNE N (D * 2 ^ k) <= 2 ^ 53 /\
  binary_round_aux prec emax false (N / D) e loc =
  if RNE N (D * 2 ^ k) =? 0 then S754_zero false
  else if RNE N (D * 2 ^ k) <? 2 ^ 53
  then S754_finite false (Z.to_pos (RNE N (D * 2 ^ k))) (e + k)
  else S754_finite false (Z.to_pos (2 ^ 52)) (e + k + 1).
Proof.
  intros HD HN Hloc k Hk Hhi.
  assert (Hpk : 0 < 2 ^ k) by (apply Z.pow_pos_nonneg; lia).
  assert (Hq : 0 <= N / D) by (apply Z.div_pos; lia).
  assert (Hek : -1074 <= e + k) by (unfold k, fexp, emin, prec, emax; lia).
  assert (Hdk : Zdigits2 (N / D) <= 53 + k) by (unfold k, fexp, emin, prec, emax; lia).
  assert (Hdig : N / D < 2 ^ (53 + k)).
  { destruct (Z.eq_dec (N / D) 0) as [->|Hne].
    - apply Z.pow_pos_nonneg; lia.
    - eapply Z.lt_le_trans; [apply Zdigits2_bounds; lia|].
      apply Z.pow_le_mono_r; lia. }
  assert (HNlt : N < 2 ^ 53 * (D * 2 ^ k)).
  { rewrite Z.pow_add_r in Hdig by lia.
    pose proof (Z.mod_pos_bound N D HD) as Hr.
    pose proof (Z.div_mod N D ltac:(lia)) as Hdm.
    assert (N / D + 1 <= 2 ^ 53 * 2 ^ k) by lia. nia. }
  pose proof (@RNE_bounds N (D * 2 ^ k) 0 (2 ^ 53) ltac:(nia) ltac:(lia)) as Hm.
  split; [exact Hm|].
  unfold binary_round_aux, shr_fexp. rewrite Hloc. fold k.
  rewrite shr_shifted by lia.
  rewrite round_nearest_even_shifted by nia.
  set (m := RNE N (D * 2 ^ k)) in *.
  destruct (Z.eqb_spec m 0) as [Hz|Hnz].
  - rewrite Hz. cbn [Zdigits2 shr_record_of_loc].
    assert (Hf : fexp prec emax (0 + (e + k)) - (e + k) <= 0)
      by (unfold fexp, emin, prec, emax; lia).
    destruct (fexp prec emax (0 + (e + k)) - (e + k)); try lia; reflexivity.
  - destruct (Z.ltb_spec m (2 ^ 53)) as [Hlt|Hge].
    + assert (Hd : Zdigits2 m <= 53).
      { destruct (Z.le_gt_cases (Zdigits2 m) 53) as [H|H]; [exact H|].
        pose proof (@Zdigits2_bounds m ltac:(lia)) as [Hb _].
        assert (2 ^ 53 <= 2 ^ (Zdigits2 m - 1)) by (apply Z.pow_le_mono_r; lia).
        lia. }
      assert (Hf : fexp prec emax (Zdigits2 m + (e + k)) - (e + k) <= 0)
        by (unfold fexp, emin, prec, emax; lia).
      destruct m as [|p|p]; try lia.
      cbn [shr_record_of_loc].
      destruct (fexp prec emax (Zdigits2 (Z.pos p) + (e + k)) - (e + k)) as [|q|q];
        try lia; cbn [shr shr_m];
        (replace (e + k <=? emax - prec) with true
          by (symmetry; apply Z.leb_le; unfold prec, emax; lia));
        reflexivity.
    + assert (Hm53 : m = 2 ^ 53) by lia.
      rewrite Hm53.
      replace (fexp prec emax (Zdigits2 (2 ^ 53) + (e + k)) - (e + k)) with 1.
      2:{ change (Zdigits2 (2 ^ 53)) with 54. unfold fexp, emin, prec, emax. lia. }
      cbn [shr_record_of_loc shr iter_pos].
      change (shr_1 {| shr_m := 2 ^ 53; shr_r := false; shr_s := false |})
        with {| shr_m := 2 ^ 52; shr_r := false; shr_s := false |}.
      cbn [shr_m]. change (2 ^ 52) with (Z.pos (Z.to_pos (2 ^ 52))) at 1.
      cbv iota.
      replace (e + k + 1 <=? emax - prec) with true
        by (symmetry; apply Z.leb_le; unfold prec, emax; lia).
      reflexivity.
Qed.

Lemma of_Z_62 : of_Z (strlen possible) = S754_finite false 8725724278030336 (-47).
Proof. vm_compute. reflexivity. Qed.

(** The product of a number below 1 and 62 is, after rounding, still
    below 62: its floor is one of 0, ..., 61. *)
Lemma floor_of_scaled_random m e :
  e < 0 -> Z.pos m < 2 ^ 53 -> Z.pos m < 2 ^ (- e) ->
  exists i, 0 <= i <= 61 /\
    Math_floor (mul (S754_finite false m e) (of_Z (strlen possible))) = of_Z i.
Proof.
  intros He Hm Hx. rewrite of_Z_62. unfold mul, SFmul. cbn [xorb].
  rewrite Pos2Z.inj_mul.
  set (my := 8725724278030336).
  set (N := Z.pos m * my).
  assert (HN : 0 < N) by (unfold N, my; lia).
  assert (Hpa : 0 < 2 ^ (- e)) by (apply Z.pow_pos_nonneg; lia).
  (* the size of the product *)
  pose proof (@Zdigits2_bounds N HN) as [Hdlo Hdhi].
  assert (Hd53 : 53 <= Zdigits2 N).
  { destruct (Z.le_gt_cases 53 (Zdigits2 N)) as [H|H]; [exact H|].
    assert (2 ^ Zdigits2 N <= 2 ^ 52) by (apply Z.pow_le_mono_r; lia).
    change (2 ^ 52) with 4503599627370496 in *. unfold N, my in *. lia. }
  assert (Hd6 : Zdigits2 N + e <= 53).
  { destruct (Z.le_gt_cases (Zdigits2 N + e) 53) as [H|H]; [exact H|].
    assert (2 ^ (53 + - e) <= 2 ^ (Zdigits2 N - 1)) by (apply Z.pow_le_mono_r; lia).
    rewrite Z.pow_add_r in H0 by lia.
    change (2 ^ 53) with 9007199254740992 in *. unfold N, my in *. nia. }
  pose proof (@binary_round_aux_RNE N 1 (e + -47) loc_Exact ltac:(lia) ltac:(lia)
                (shifted_integer N)) as Hround.
  rewrite Z.div_1_r in Hround. cbv zeta in Hround.
  set (k := fexp prec emax (Zdigits2 N + (e + -47)) - (e + -47)) in *.
  assert (Hk : 0 <= k) by (unfold k, fexp, emin, prec, emax; lia).
  assert (Hek : e + -47 + k <= -47) by (unfold k, fexp, emin, prec, emax; lia).
  destruct (Hround Hk ltac:(lia)) as [Hrange ->]. clear Hround.
  rewrite Z.mul_1_l in *.
  (* the grid of the result divides 62 *)
  set (j := -47 - (e + -47 + k)).
  assert (Hj : 0 <= j) by (unfold j; lia).
  assert (Hpk : 0 < 2 ^ k) by (apply Z.pow_pos_nonneg; lia).
  assert (Hpj : 0 < 2 ^ j) by (apply Z.pow_pos_nonneg; lia).
  assert (Hpow : 2 ^ (- e) = 2 ^ k * 2 ^ j).
  { rewrite <- Z.pow_add_r by lia. f_equal. unfold j. lia. }
  assert (Hx53 : Z.pos m * 2 ^ 53 <= (2 ^ 53 - 1) * 2 ^ (- e)).
  { destruct (Z.le_gt_cases 53 (- e)) as [H|H].
    - assert (2 ^ 53 <= 2 ^ (- e)) by (apply Z.pow_le_mono_r; lia).
      change (2 ^ 53) with 9007199254740992 in *. nia.
    - assert (2 ^ (- e) <= 2 ^ 53) by (apply Z.pow_le_mono_r; lia).
      change (2 ^ 53) with 9007199254740992 in *. nia. }
  assert (Hbelow : RNE N (2 ^ k) <= my * 2 ^ j - 1).
  { apply RNE_below; [exact Hpk|]. unfold N.
    change (2 ^ 53) with 9007199254740992 in Hx53. rewrite Hpow in Hx53.
    assert (HA : 2 ^ k <= 2 ^ k * 2 ^ j) by nia.
    replace ((2 * (my * 2 ^ j) - 1) * 2 ^ k) with (2 * my * (2 ^ k * 2 ^ j) - 2 ^ k) by ring.
    set (A := 2 ^ k * 2 ^ j) in *. unfold my. lia. }
  set (r := RNE N (2 ^ k)) in *.
  assert (Hgrid : 2 ^ (47 + j) = 2 ^ 47 * 2 ^ j) by (apply Z.pow_add_r; lia).
  destruct (Z.eqb_spec r 0) as [Hz|Hnz].
  - exists 0. split; [lia | reflexivity].
  - destruct (Z.ltb_spec r (2 ^ 53)) as [Hlt|Hge].
    + destruct (e + -47 + k) as [|q|q] eqn:Heq; try lia.
      exists (r / 2 ^ Z.pos q). cbn [Math_floor]. rewrite Z2Pos.id by lia.
      split; [|reflexivity].
      assert (Hq : Z.pos q = 47 + j) by (unfold j; lia).
      rewrite Hq, Hgrid.
      assert (0 <= r / (2 ^ 47 * 2 ^ j)) by (apply Z.div_pos; lia).
      assert (r / (2 ^ 47 * 2 ^ j) < 62); [|lia].
      apply Z.div_lt_upper_bound; [lia|].
      change (2 ^ 47) with 140737488355328. unfold my in Hbelow. lia.
    + assert (Hj1 : 1 <= j).
      { destruct (Z.eq_dec j 0) as [Hj0|]; [|lia].
        rewrite Hj0 in Hbelow. change (2 ^ 0) with 1 in Hbelow.
        change (2 ^ 53) with 9007199254740992 in Hge. unfold my in Hbelow. lia. }
      destruct (e + -47 + k + 1) as [|q|q] eqn:Heq; try lia.
      exists (2 ^ 52 / 2 ^ Z.pos q). cbn [Math_floor].
      rewrite Z2Pos.id by reflexivity.
      split; [|reflexivity].
      assert (Hq : Z.pos q = 46 + j) by (unfold j; lia).
      rewrite Hq.
      assert (Hp46 : 2 ^ 47 <= 2 ^ (46 + j)) by (apply Z.pow_le_mono_r; lia).
      assert (0 <= 2 ^ 52 / 2 ^ (46 + j)) by (apply Z.div_pos; lia).
      assert (2 ^ 52 / 2 ^ (46 + j) < 62); [|lia].
      apply Z.div_lt_upper_bound; [lia|].
      change (2 ^ 47) with 140737488355328 in Hp46.
      change (2 ^ 52) with 4503599627370496. lia.
Qed.

Lemma ToIntegerOrInfinity_of_Z i :
  0 <= i < 2 ^ 53 -> ToIntegerOrInfinity (of_Z i) = Int i.
Proof.
  intros Hi. destruct (Z.eq_dec i 0) as [->|Hne]; [reflexivity|].
  destruct (@of_Z_normal i ltac:(lia)) as [(m & e & Heq & Hm & He) Hs].
  rewrite Heq in Hs |- *. cbn [scaled] in Hs. cbn [ToIntegerOrInfinity].
  destruct e as [|p|p]; try lia.
  - f_equal. change (0 + 200) with 200 in Hs. change (2 ^ 0) with 1.
    assert (0 < 2 ^ 200) by reflexivity. nia.
  - f_equal.
    assert (Hsplit : 2 ^ 200 = 2 ^ (Z.neg p + 200) * 2 ^ Z.pos p).
    { rewrite <- Z.pow_add_r by lia. f_equal. lia. }
    rewrite Hsplit in Hs.
    assert (Hp1 : 0 < 2 ^ (Z.neg p + 200)) by (apply Z.pow_pos_nonneg; lia).
    assert (Hp2 : 0 < 2 ^ Z.pos p) by (apply Z.pow_pos_nonneg; lia).
    assert (Hmi : Z.pos m = i * 2 ^ Z.pos p) by nia.
    rewrite Hmi. apply Z.quot_mul. lia.
Qed.

Lemma alphabet_is_alphanumeric :
  Forall (fun c => cset_mem alnum c = true) possible.
Proof.
  apply Forall_forall. intros c Hin.
  assert (Hall : forallb (cset_mem alnum) possible = true) by (vm_compute; reflexivity).
  rewrite forallb_forall in Hall. exact (Hall c Hin).
Qed.

(** One round of the loop appends one character of the alphabet. *)
Lemma charAt_random x :
  unit_interval x ->
  exists c, In c possible /\
    charAt possible (Math_floor (mul x (of_Z (strlen possible)))) = [c].
Proof.
  intros Hx.
  assert (Hidx : exists i, 0 <= i <= 61 /\
            ToIntegerOrInfinity (Math_floor (mul x (of_Z (strlen possible)))) = Int i).
  { destruct x as [s|s| |s m e].
    - exists 0. split; [lia|]. rewrite of_Z_62. reflexivity.
    - destruct Hx as (_ & Hge & Hlt). destruct s; [discriminate Hge|].
      rewrite of_Z_1 in Hlt. discriminate Hlt.
    - destruct Hx as (_ & Hge & _). discriminate Hge.
    - destruct (unit_interval_finite Hx) as (-> & He & Hm & Hlt).
      destruct (floor_of_scaled_random He Hm Hlt) as (i & Hi & ->).
      exists i. split; [exact Hi|]. apply ToIntegerOrInfinity_of_Z.
      change (2 ^ 53) with 9007199254740992; lia. }
  destruct Hidx as (i & Hi & Heq).
  unfold charAt. rewrite Heq.
  change (strlen possible) with 62.
  replace (0 <=? i) with true by (symmetry; apply Z.leb_le; lia).
  replace (i <? 62) with true by (symmetry; apply Z.ltb_lt; lia).
  cbn [andb]. eexists. split; [|reflexivity].
  apply nth_In. change (length possible) with 62%nat. lia.
Qed.

Lemma getNonce_from_spec random : forall n i text,
  (forall r, (i <= r < i + n)%nat -> unit_interval (random r)) ->
  exists suffix,
    getNonce_from random i n text = text ++ suffix /\
    length suffix = n /\ Forall (fun c => In c possible) suffix.
Proof.
  induction n as [|n IH]; intros i text Hrandom; cbn [getNonce_from].
  - exists []. rewrite app_nil_r. repeat split. constructor.
  - destruct (@charAt_random (random i) (Hrandom i ltac:(lia))) as (c & Hc & ->).
    destruct (IH (S i) (text ++ [c])) as (suffix & -> & Hlen & Hall).
    { intros r Hr. apply Hrandom. lia. }
    exists (c :: suffix). rewrite <- app_assoc. repeat split.
    + cbn [length]. now rewrite Hlen.
    + constructor; assumption.
Qed.

(** X12: whatever numbers of the unit interval [Math.random] returns,
    the nonce has exactly 32 code units, each of them a letter or a
    digit of the alphabet: the rounded product [Math.random() * 62]
    never reaches 62, so [charAt] is never asked for a position outside
    the alphabet. *)
Theorem nonce_is_32_letters_or_digits random :
  (forall i, (i < 32)%nat -> unit_interval (random i)) ->
  length (getNonce random) = 32%nat /\
  Forall (fun c => In c possible /\ cset_mem alnum c = true) (getNonce random).
Proof.
  intros Hrandom.
  destruct (@getNonce_from_spec random 32 0 []) as (suffix & Heq & Hlen & Hall).
  { intros r Hr. apply Hrandom. lia. }
  unfold getNonce. rewrite Heq. cbn [app]. split; [exact Hlen|].
  pose proof alphabet_is_alphanumeric as Halnum.
  rewrite Forall_forall in Hall, Halnum |- *.
  intros c Hc. split; [apply Hall, Hc | apply Halnum, Hall, Hc].
Qed.

Lemma nonce_is_32_letters_or_digits_witness :
  (forall i, (i < 32)%nat -> unit_interval (sampleRandom i)) /\
  length (getNonce sampleRandom) = 32%nat /\
  Forall (fun c => In c possible /\ cset_mem alnum c = true) (getNonce sampleRandom).
Proof.
  assert (Hrandom : forall i, (i < 32)%nat -> unit_interval (sampleRandom i)).
  { intros i Hi.
    do 32 (destruct i as [|i]; [vm_compute; repeat split; reflexivity|]). lia. }
  split; [exact Hrandom|].
  exact (@nonce_is_32_letters_or_digits sampleRandom Hrandom).
Defined.

(** ** The webview *)

(** ** The history of scores *)

Section SliceLast.
Variable A : Type.
Implicit Types l r : list A.

Lemma slice_last_all n l : (length l <= n)%nat -> Webview.slice_last n l = l.
Proof.
  intros H. unfold Webview.slice_last.
  replace (length l - n)%nat with 0%nat by lia. reflexivity.
Qed.

Lemma slice_last_length n l : length (Webview.slice_last n l) = Nat.min n (length l).
Proof. unfold Webview.slice_last. rewrite length_skipn. lia. Qed.

Lemma slice_last_app_short n l r :
  (n <= length r)%nat -> Webview.slice_last n (l ++ r) = Webview.slice_last n r.
Proof.
  intros H. unfold Webview.slice_last. rewrite length_app, skipn_app.
  rewrite skipn_all2 by lia. cbn [app]. f_equal. lia.
Qed.

Lemma slice_last_app_long n l r :
  (length r <= n)%nat ->
  Webview.slice_last n (l ++ r) = Webview.slice_last (n - length r) l ++ r.
Proof.
  intros H. unfold Webview.slice_last. rewrite length_app, skipn_app.
  replace (length l + length r - n - length l)%nat with 0%nat by lia.
  cbn [skipn]. f_equal. f_equal. lia.
Qed.

Lemma slice_last_slice_last n m l :
  (n <= m)%nat -> Webview.slice_last n (Webview.slice_last m l) = Webview.slice_last n l.
Proof.
  intros H. unfold Webview.slice_last at 1. rewrite slice_last_length.
  unfold Webview.slice_last. rewrite skipn_skipn. f_equal. lia.
Qed.

Lemma slice_last_absorb n m l r :
  (n <= m + length r)%nat ->
  Webview.slice_last n (Webview.slice_last m l ++ r) = Webview.slice_last n (l ++ r).
Proof.
  intros H. destruct (Nat.le_gt_cases n (length r)) as [Hle|Hgt].
  - now rewrite !slice_last_app_short.
  - rewrite !slice_last_app_long by lia. now rewrite slice_last_slice_last by lia.
Qed.

End SliceLast.

Lemma history_after_events evs : forall s,
  Webview.history (fold_left Webview.step evs s) =
  match scoresOf evs with
  | [] => Webview.history s
  | _ :: _ => Webview.slice_last 6 (Webview.history s ++ scoresOf evs)
  end.
Proof.
  induction evs as [|ev evs IH]; intros s; cbn [fold_left scoresOf]; [reflexivity|].
  rewrite IH.
  assert (Hsame : forall s', Webview.history s' = Webview.history s ->
            match scoresOf evs with
            | [] => Webview.history s'
            | _ :: _ => Webview.slice_last 6 (Webview.history s' ++ scoresOf evs)
            end =
            match scoresOf evs with
            | [] => Webview.history s
            | _ :: _ => Webview.slice_last 6 (Webview.history s ++ scoresOf evs)
            end) by (intros s' ->; reflexivity).
  destruct ev as [[| v | d |]| |]; try (apply Hsame; reflexivity).
  - (* a report *)
    assert (Hh : Webview.history (Webview.step s (Webview.Receive (Message.analysisResult d)))
                 = Webview.slice_last 5 (Webview.history s) ++ [healthScore d]).
    { cbn [Webview.step Webview.handler].
      destruct (0 <? Z.of_nat (length (securityIssues d))); reflexivity. }
    rewrite Hh. destruct (scoresOf evs) as [|x xs].
    + rewrite slice_last_app_long by (cbn [length]; lia). reflexivity.
    + rewrite <- app_assoc. cbn [app].
      apply slice_last_absorb. cbn [length]. lia.
  - (* a timer *)
    apply Hsame. cbn [Webview.step]. destruct (Webview.timers s); reflexivity.
Qed.

(** X13: whatever happens in the webview in whatever order, after at
    least one report the history shown by the spark line is the last six
    entries of the old history followed by the scores of the reports, in
    the order of arrival; without a report it is unchanged.  So the
    history never has more than six entries once a report arrived. *)
Theorem history_keeps_the_six_latest_scores s evs :
  let s' := fold_left Webview.step evs s in
  Webview.history s' =
    match scoresOf evs with
    | [] => Webview.history s
    | _ :: _ => Webview.slice_last 6 (Webview.history s ++ scoresOf evs)
    end /\
  (scoresOf evs <> [] ->
   (length (Webview.history s') <= 6)%nat /\
   last (Webview.history s') 0 = last (scoresOf evs) 0).
Proof.
  intros s'. unfold s'. split; [apply history_after_events|].
  intros Hne. rewrite history_after_events.
  destruct (scoresOf evs) as [|x xs] eqn:Hs; [congruence|].
  split; [rewrite slice_last_length; lia|].
  destruct (exists_last (l := x :: xs) ltac:(discriminate)) as (front & y & Heq).
  rewrite Heq, app_assoc, slice_last_app_long by (cbn [length]; lia).
  now rewrite !last_app_singleton.
Qed.

(** ** A run of the scanner as the webview sees it *)

Lemma last_cons_default {A} (l : list A) : forall x d d',
  last (x :: l) d = last (x :: l) d'.
Proof.
  induction l as [|y l IH]; intros x d d'; [reflexivity|].
  change (last (y :: l) d = last (y :: l) d'). apply IH.
Qed.

(** Progress notifications only move the progress bar. *)
Lemma deliver_progress vs : forall s,
  Webview.deliver s (map Message.progress vs) =
  Webview.setProgress (last vs (Webview.progress s)) s.
Proof.
  unfold Webview.deliver.
  induction vs as [|v vs IH]; intros s; cbn [map fold_left].
  - destruct s; reflexivity.
  - rewrite IH. cbn [Webview.handler]. destruct vs as [|w vs]; [reflexivity|].
    change (last (v :: w :: vs) (Webview.progress s))
      with (last (w :: vs) (Webview.progress s)).
    rewrite (last_cons_default vs w (Webview.progress (Webview.setProgress v s))
               (Webview.progress s)).
    reflexivity.
Qed.

Lemma states_app s ms ms' :
  Webview.states s (ms ++ ms') =
  Webview.states s ms ++ Webview.states (Webview.deliver s ms) ms'.
Proof.
  revert s. induction ms as [|m ms IH]; intros s; cbn [app Webview.states]; [reflexivity|].
  now rewrite IH.
Qed.

Lemma states_progress vs : forall s,
  map Webview.progress (Webview.states s (map Message.progress vs)) = vs.
Proof.
  induction vs as [|v vs IH]; intros s; cbn [map Webview.states]; [reflexivity|].
  now rewrite IH.
Qed.

Lemma deliver_app s ms ms' :
  Webview.deliver s (ms ++ ms') = Webview.deliver (Webview.deliver s ms) ms'.
Proof. apply fold_left_app. Qed.

Lemma settle_none s : Webview.timers s = 0%nat -> Webview.settle s = s.
Proof. intros H. unfold Webview.settle. now rewrite H. Qed.

Lemma iter_timeout n : forall s,
  Webview.timers s = S n ->
  Nat.iter (S n) Webview.timeout s =
  {| Webview.data := Webview.data s; Webview.scanning := false;
     Webview.progress := Webview.progress s; Webview.history := Webview.history s;
     Webview.hasAlert := Webview.hasAlert s; Webview.scanned := true;
     Webview.timers := 0 |}.
Proof.
  induction n as [|n IH]; intros s Ht.
  - cbn [Nat.iter nat_rect]. unfold Webview.timeout. cbn. now rewrite Ht.
  - change (Nat.iter (S (S n)) Webview.timeout s)
      with (Webview.timeout (Nat.iter (S n) Webview.timeout s)).
    rewrite <- Nat.iter_swap. rewrite IH by (cbn; now rewrite Ht). reflexivity.
Qed.

(** The messages of a run, by the way it ends. *)
Lemma run_messages this h :
  let ms := messages (trace (analyzeWorkspace this h)) in
  (_view this = false /\ ms = []) \/
  (_view this = true /\ workspaceFolders h = Some [] /\
   ms = [Message.analysisStarted]) \/
  (_view this = true /\ workspaceFolders h <> Some [] /\
   exists values,
     ms = Message.analysisStarted :: map Message.progress values ++
          [Message.analysisFailed]) \/
  (_view this = true /\ workspaceFolders h <> Some [] /\
   exists values d,
     ms = Message.analysisStarted :: map Message.progress values ++
          [Message.progress 100; Message.analysisResult d]).
Proof.
  intros ms. unfold ms. rewrite analyzeWorkspace_messages.
  destruct (_view this); cbn [negb]; [|left; split; reflexivity].
  right. unfold workspaceNameOf.
  destruct (workspaceFolders h) as [[|folder folders]|] eqn:Hw.
  - left. repeat split.
  - right. destruct (findFiles h) as [e|files].
    + left. split; [reflexivity|]. split; [discriminate|]. now exists [].
    + destruct (loop_trace_messages h (Z.of_nat (length files)) 0 files) as [vs ->].
      destruct (outcome (theLoop h files)) as [e|st].
      * left. split; [reflexivity|]. split; [discriminate|]. now exists vs.
      * right. split; [reflexivity|]. split; [discriminate|]. now eexists vs, _.
  - right. destruct (findFiles h) as [e|files].
    + left. split; [reflexivity|]. split; [discriminate|]. now exists [].
    + destruct (loop_trace_messages h (Z.of_nat (length files)) 0 files) as [vs ->].
      destruct (outcome (theLoop h files)) as [e|st].
      * left. split; [reflexivity|]. split; [discriminate|]. now exists vs.
      * right. split; [reflexivity|]. split; [discriminate|]. now eexists vs, _.
Qed.

Lemma deliver_result s vs d :
  Webview.deliver s (Message.analysisStarted :: map Message.progress vs ++
                     [Message.progress 100; Message.analysisResult d]) =
  {| Webview.data := d; Webview.scanning := true; Webview.progress := 100;
     Webview.history := Webview.slice_last 5 (Webview.history s) ++ [healthScore d];
     Webview.hasAlert :=
       if 0 <? Z.of_nat (length (securityIssues d)) then true else Webview.hasAlert s;
     Webview.scanned := Webview.scanned s;
     Webview.timers := S (Webview.timers s) |}.
Proof.
  change (Message.analysisStarted :: map Message.progress vs ++
          [Message.progress 100; Message.analysisResult d])
    with ([Message.analysisStarted] ++ map Message.progress vs ++
          [Message.progress 100; Message.analysisResult d]).
  rewrite !deliver_app, deliver_progress.
  unfold Webview.deliver. cbn [fold_left Webview.handler].
  destruct (0 <? Z.of_nat (length (securityIssues d))); reflexivity.
Qed.

Lemma deliver_failed s vs :
  Webview.deliver s (Message.analysisStarted :: map Message.progress vs ++
                     [Message.analysisFailed]) =
  {| Webview.data := Webview.data s; Webview.scanning := false;
     Webview.progress := last vs 0;
     Webview.history := Webview.history s;
     Webview.hasAlert := Webview.hasAlert s;
     Webview.scanned := Webview.scanned s;
     Webview.timers := Webview.timers s |}.
Proof.
  change (Message.analysisStarted :: map Message.progress vs ++
          [Message.analysisFailed])
    with ([Message.analysisStarted] ++ map Message.progress vs ++
          [Message.analysisFailed]).
  rewrite !deliver_app, deliver_progress.
  unfold Webview.deliver. cbn [fold_left Webview.handler]. reflexivity.
Qed.

Lemma not_in_progress d vs : ~ In (Message.analysisResult d) (map Message.progress vs).
Proof. intros H. apply in_map_iff in H. destruct H as (v & Hv & _). discriminate. Qed.

(** After a report and its timer the loading page is gone; a run that
    posts a report did not start from an empty list of folders. *)
Lemma report_reaches_dashboard_state this h s d :
  In (Message.analysisResult d) (messages (trace (analyzeWorkspace this h))) ->
  Webview.loadingPage
    (Webview.settle (Webview.deliver s (messages (trace (analyzeWorkspace this h)))))
  = false /\
  workspaceFolders h <> Some [].
Proof.
  intros Hin.
  destruct (run_messages this h) as [(_ & Hms)|[(_ & _ & Hms)|[(_ & _ & vs & Hms)|(_ & Hw & vs & d' & Hms)]]];
    cbv zeta in Hms; rewrite Hms in Hin |- *.
  - destruct Hin.
  - destruct Hin as [Habs|[]]. discriminate.
  - destruct Hin as [Habs|Hin]; [discriminate|].
    apply in_app_or in Hin. destruct Hin as [Hin|[Habs|[]]]; [|discriminate].
    now apply not_in_progress in Hin.
  - split; [|exact Hw].
    rewrite deliver_result. unfold Webview.settle. cbn [Webview.timers].
    rewrite (@iter_timeout (Webview.timers s)) by reflexivity. reflexivity.
Qed.

(** X14: when a run posts a report, the webview that received the run's
    messages still shows [scanning] until the timer fires; once it has
    fired the state holds the report, progress 100, [scanning] off and
    [scanned] on, so the dashboard replaces the loading page; the score
    is appended to the last five entries of the history, and the alert
    is raised when the report lists a security finding and is otherwise
    left as it was. *)
Theorem report_reaches_the_dashboard this h s d :
  In (Message.analysisResult d) (messages (trace (analyzeWorkspace this h))) ->
  let arrived := Webview.deliver s (messages (trace (analyzeWorkspace this h))) in
  let s' := Webview.settle arrived in
  Webview.scanning arrived = true /\
  Webview.scanned arrived = Webview.scanned s /\
  Webview.timers arrived = S (Webview.timers s) /\
  Webview.data s' = d /\
  Webview.progress s' = 100 /\
  Webview.scanning s' = false /\
  Webview.scanned s' = true /\
  Webview.loadingPage s' = false /\
  Webview.history s' = Webview.slice_last 5 (Webview.history s) ++ [healthScore d] /\
  Webview.hasAlert s' =
    (Webview.hasAlert s || negb (length (securityIssues d) =? 0)%nat) /\
  Webview.timers s' = 0%nat.
Proof.
  intros Hin arrived s'. unfold s', arrived. clear s' arrived.
  destruct (run_messages this h) as [(_ & Hms)|[(_ & _ & Hms)|[(_ & _ & vs & Hms)|(_ & _ & vs & d' & Hms)]]];
    cbv zeta in Hms; rewrite Hms in Hin |- *.
  - destruct Hin.
  - destruct Hin as [Habs|[]]. discriminate.
  - destruct Hin as [Habs|Hin]; [discriminate|].
    apply in_app_or in Hin. destruct Hin as [Hin|[Habs|[]]]; [|discriminate].
    now apply not_in_progress in Hin.
  - assert (d' = d).
    { destruct Hin as [Habs|Hin]; [discriminate|].
      apply in_app_or in Hin. destruct Hin as [Hin|[Habs|[Heq|[]]]].
      - now apply not_in_progress in Hin.
      - discriminate.
      - now injection Heq. }
    subst d'.
    rewrite deliver_result. unfold Webview.settle. cbn [Webview.timers].
    rewrite (@iter_timeout (Webview.timers s)) by reflexivity.
    unfold Webview.loadingPage. cbn.
    destruct (securityIssues d) as [|issue issues]; cbn;
      rewrite ?orb_false_r, ?orb_true_r; repeat split; reflexivity.
Qed.

Lemma report_reaches_the_dashboard_witness :
  let h := Examples.twoFiles in
  let d := Examples.reportOf h in
  let s := Webview.initial in
  In (Message.analysisResult d) (messages (trace (analyzeWorkspace Samples.view h))) /\
  let arrived := Webview.deliver s (messages (trace (analyzeWorkspace Samples.view h))) in
  let s' := Webview.settle arrived in
  Webview.scanning arrived = true /\
  Webview.scanned arrived = Webview.scanned s /\
  Webview.timers arrived = S (Webview.timers s) /\
  Webview.data s' = d /\
  Webview.progress s' = 100 /\
  Webview.scanning s' = false /\
  Webview.scanned s' = true /\
  Webview.loadingPage s' = false /\
  Webview.history s' = Webview.slice_last 5 (Webview.history s) ++ [healthScore d] /\
  Webview.hasAlert s' =
    (Webview.hasAlert s || negb (length (securityIssues d) =? 0)%nat) /\
  Webview.timers s' = 0%nat.
Proof.
  intros h d s.
  assert (Hin : In (Message.analysisResult d)
                   (messages (trace (analyzeWorkspace Samples.view h)))).
  { vm_compute. do 4 right. left. reflexivity. }
  split; [exact Hin|].
  exact (@report_reaches_the_dashboard Samples.view h s d Hin).
Defined.

(** What is left of the webview's state when a run posts no report. *)
Lemma deliver_without_report this h s :
  _view this = true ->
  ~ reported (messages (trace (analyzeWorkspace this h))) ->
  let arrived := Webview.deliver s (messages (trace (analyzeWorkspace this h))) in
  Webview.data arrived = Webview.data s /\
  Webview.history arrived = Webview.history s /\
  Webview.hasAlert arrived = Webview.hasAlert s /\
  Webview.scanned arrived = Webview.scanned s /\
  Webview.timers arrived = Webview.timers s /\
  Webview.scanning arrived =
    match workspaceFolders h with Some [] => true | _ => false end.
Proof.
  intros Hview Hnone.
  destruct (run_messages this h) as [(Hv & Hms)|[(_ & Hw & Hms)|[(_ & Hw & vs & Hms)|(_ & _ & vs & d' & Hms)]]];
    cbv zeta in Hms |- *; rewrite Hms in Hnone |- *.
  - congruence.
  - rewrite Hw. repeat split.
  - rewrite deliver_failed. cbn.
    destruct (workspaceFolders h) as [[|]|]; try congruence; repeat split.
  - exfalso. apply Hnone. exists d'. right. apply in_or_app. right. right. now left.
Qed.

(** X15: a webview without pending timers receives the messages of a
    run.  Afterwards the loading page is still shown exactly when the
    webview had never shown a report and the run was cut short by an
    empty list of workspace folders; and a run without a report leaves
    the data, the history, the alert and [scanned] as they were: after a
    failed first scan the dashboard shows the placeholder data. *)
Theorem webview_after_a_run_without_report this h s :
  _view this = true ->
  Webview.timers s = 0%nat ->
  let ms := messages (trace (analyzeWorkspace this h)) in
  let s' := Webview.settle (Webview.deliver s ms) in
  (Webview.loadingPage s' = true <->
   workspaceFolders h = Some [] /\ Webview.scanned s = false) /\
  (~ reported ms ->
   Webview.data s' = Webview.data s /\
   Webview.history s' = Webview.history s /\
   Webview.hasAlert s' = Webview.hasAlert s /\
   Webview.scanned s' = Webview.scanned s).
Proof.
  intros Hview Hidle ms s'. unfold s', ms. clear s' ms.
  assert (Hcases : reported (messages (trace (analyzeWorkspace this h))) \/
                   ~ reported (messages (trace (analyzeWorkspace this h)))).
  { destruct (run_messages this h) as [(_ & Hms)|[(_ & _ & Hms)|[(_ & _ & vs & Hms)|(_ & _ & vs & d' & Hms)]]];
      cbv zeta in Hms; rewrite Hms.
    - right. intros [d []].
    - right. intros [d [Habs|[]]]. discriminate.
    - right. intros [d [Habs|Hin]]; [discriminate|].
      apply in_app_or in Hin. destruct Hin as [Hin|[Habs|[]]]; [|discriminate].
      now apply not_in_progress in Hin.
    - left. exists d'. right. apply in_or_app. right. right. now left. }
  assert (Hquiet : ~ reported (messages (trace (analyzeWorkspace this h))) ->
            Webview.settle (Webview.deliver s (messages (trace (analyzeWorkspace this h))))
            = Webview.deliver s (messages (trace (analyzeWorkspace this h)))).
  { intros Hnone. apply settle_none.
    destruct (@deliver_without_report this h s Hview Hnone) as (_ & _ & _ & _ & -> & _).
    exact Hidle. }
  split.
  - destruct Hcases as [[d Hin]|Hnone].
    + destruct (@report_reaches_dashboard_state this h s d Hin) as (Hload & Hw).
      rewrite Hload. split; [discriminate|]. intros [Habs _]. congruence.
    + rewrite (Hquiet Hnone).
      destruct (@deliver_without_report this h s Hview Hnone)
        as (_ & _ & _ & Hscanned & _ & Hscanning).
      unfold Webview.loadingPage. rewrite Hscanned, Hscanning.
      destruct (workspaceFolders h) as [[|folder folders]|];
        destruct (Webview.scanned s); cbn; split; try congruence;
        try (intros [? ?]; congruence); try (intros _; split; reflexivity).
  - intros Hnone. rewrite (Hquiet Hnone).
    destruct (@deliver_without_report this h s Hview Hnone)
      as (Hd & Hh & Ha & Hscanned & _ & _).
    repeat split; assumption.
Qed.

Lemma webview_after_a_run_without_report_witness :
  let this := Samples.view in
  let h := Examples.unreadable in
  let s := Webview.initial in
  _view this = true /\
  Webview.timers s = 0%nat /\
  let ms := messages (trace (analyzeWorkspace this h)) in
  let s' := Webview.settle (Webview.deliver s ms) in
  (Webview.loadingPage s' = true <->
   workspaceFolders h = Some [] /\ Webview.scanned s = false) /\
  (~ reported ms ->
   Webview.data s' = Webview.data s /\
   Webview.history s' = Webview.history s /\
   Webview.hasAlert s' = Webview.hasAlert s /\
   Webview.scanned s' = Webview.scanned s).
Proof.
  intros this h s. split; [reflexivity|]. split; [reflexivity|].
  exact (@webview_after_a_run_without_report this h s eq_refl eq_refl).
Defined.

(** ** The progress bar *)

Lemma progressPct_bounds i len :
  0 < i <= len -> len < 2 ^ 53 -> 0 <= progressPct i len <= 85.
Proof.
  intros Hi Hlen. split.
  - unfold progressPct.
    destruct (@of_Z_normal i ltac:(lia)) as [Hni _].
    destruct (@of_Z_normal len ltac:(lia)) as [Hn _].
    destruct (@div_monotone (of_Z i) (of_Z i) (of_Z len) Hni Hni Hn ltac:(lia))
      as (Hd & _ & _).
    destruct (mul_monotone Hd Hd eighty_five_normal ltac:(lia)) as (Hm & _ & _).
    rewrite (Math_round_scaled Hm) by lia.
    destruct Hm as (m & e & -> & Hm & He). cbn [scaled].
    apply Z.div_pos; [|reflexivity].
    assert (0 < 2 ^ (e + 200)) by (apply Z.pow_pos_nonneg; lia).
    assert (0 < 2 ^ 200) by reflexivity. nia.
  - rewrite <- (@progressPct_full len) by lia.
    apply progressPct_monotone; lia.
Qed.

Lemma sorted_app (l1 l2 : list Z) :
  StronglySorted Z.le l1 -> StronglySorted Z.le l2 ->
  (forall x y, In x l1 -> In y l2 -> x <= y) ->
  StronglySorted Z.le (l1 ++ l2).
Proof.
  intros H1 H2 Hle. induction H1 as [|a l1 Hs IH Ha]; cbn [app]; [exact H2|].
  constructor.
  - apply IH. intros x y Hx Hy. apply Hle; [now right | exact Hy].
  - apply Forall_app. split; [exact Ha|].
    apply Forall_forall. intros y Hy. apply Hle; [now left | exact Hy].
Qed.

Lemma sorted_le_last (l : list Z) d x :
  StronglySorted Z.le l -> In x l -> x <= last l d.
Proof.
  intros Hs. revert x. induction Hs as [|a l Hs IH Ha]; intros x Hin; [destruct Hin|].
  destruct l as [|b l].
  - destruct Hin as [<-|[]]. reflexivity.
  - change (last (a :: b :: l) d) with (last (b :: l) d).
    destruct Hin as [<-|Hin]; [|now apply IH].
    rewrite Forall_forall in Ha.
    transitivity b; [apply Ha; now left | apply IH; now left].
Qed.

(** X16: during a run over fewer than [2 ^ 53] files the progress bar of
    the webview starts at 0, never moves back and stays within 0 and
    100, and it ends at 100 when the run posts a report. *)
Theorem progress_bar_never_moves_back this h s :
  _view this = true ->
  (forall files, findFiles h = inr files -> Z.of_nat (length files) < 2 ^ 53) ->
  let ms := messages (trace (analyzeWorkspace this h)) in
  let shown := map Webview.progress (Webview.states s ms) in
  hd 0 shown = 0 /\
  StronglySorted Z.le shown /\
  Forall (fun v => 0 <= v <= 100) shown /\
  (reported ms -> last shown 0 = 100).
Proof.
  intros Hview Hsmall ms shown. unfold shown, ms. clear shown ms.
  rewrite analyzeWorkspace_messages, Hview. cbn [negb].
  destruct (workspaceNameOf h) as [wn|].
  2:{ cbn. repeat split; try (repeat constructor; lia).
      intros [d [Habs|[]]]. discriminate. }
  destruct (findFiles h) as [e|files] eqn:Hfiles.
  { cbn. repeat split; try (repeat constructor; lia).
    intros [d [Habs|[Habs|[]]]]; discriminate. }
  specialize (Hsmall files eq_refl).
  rewrite loop_trace_progress.
  set (len := Z.of_nat (length files)) in *.
  set (n := length (attempted h files)).
  assert (Hn : (n <= length files)%nat) by apply attempted_length.
  rewrite <- (map_map (fun i => progressPct i len) Message.progress).
  set (vals := map (fun i => progressPct i len) (countFrom (0 + 1) n)).
  assert (Hsorted : StronglySorted Z.le vals).
  { pose proof (@percentages_sorted len [] n (0 + 1) ltac:(lia) ltac:(lia) Hsmall
                  ltac:(constructor) ltac:(constructor)) as H.
    now rewrite app_nil_r in H. }
  assert (Hrange : forall v, In v vals -> 0 <= v <= 85).
  { intros v Hv. apply in_map_iff in Hv. destruct Hv as (i & <- & Hi).
    apply countFrom_In in Hi. apply progressPct_bounds; lia. }
  change (Message.analysisStarted :: map Message.progress vals ++ ?tl)
    with ([Message.analysisStarted] ++ map Message.progress vals ++ tl).
  set (s0 := Webview.handler s Message.analysisStarted).
  assert (Hshape : forall tl,
    map Webview.progress
      (Webview.states s ([Message.analysisStarted] ++ map Message.progress vals ++ tl)) =
    0 :: vals ++
    map Webview.progress
      (Webview.states (Webview.setProgress (last vals 0) s0) tl)).
  { intros tl. cbn [app Webview.states map]. f_equal.
    rewrite states_app, map_app, states_progress. f_equal. f_equal. f_equal.
    fold s0. apply deliver_progress. }
  rewrite Hshape. cbn [hd]. split; [reflexivity|].
  destruct (outcome (theLoop h files)) as [e|st]; cbn [Webview.states map].
  - (* the run fails: the bar stays where it was *)
    cbn [Webview.handler Webview.progress Webview.setProgress Webview.setScanning].
    assert (Hlast : 0 <= last vals 0 <= 85).
    { destruct vals as [|v vs] eqn:Hv; [cbn; lia|].
      apply Hrange. rewrite <- Hv.
      destruct (exists_last (l := vals) ltac:(rewrite Hv; discriminate)) as (front & y & Heq).
      rewrite Heq, last_app_singleton. apply in_or_app. right. now left. }
    split; [|split].
    + constructor.
      * apply sorted_app; [exact Hsorted | repeat constructor |].
        intros x y Hx [<-|[]]. now apply sorted_le_last.
      * apply Forall_app. split.
        -- apply Forall_forall. intros v Hv. apply Hrange in Hv. lia.
        -- repeat constructor. lia.
    + constructor; [lia|]. apply Forall_app. split.
      * apply Forall_forall. intros v Hv. apply Hrange in Hv. lia.
      * repeat constructor; lia.
    + intros [d Hin]. exfalso.
      apply in_app_or in Hin. destruct Hin as [[Habs|[]]|Hin]; [discriminate|].
      apply in_app_or in Hin. destruct Hin as [Hin|[Habs|[]]]; [|discriminate].
      now apply not_in_progress in Hin.
  - (* the run succeeds *)
    assert (Hres : forall s1 d, Webview.progress (Webview.handler s1 (Message.analysisResult d)) = 100).
    { intros s1 d. cbn [Webview.handler].
      destruct (0 <? Z.of_nat (length (securityIssues d))); reflexivity. }
    rewrite Hres.
    cbn [Webview.handler Webview.progress Webview.setProgress Webview.setScanning].
    split; [|split].
    + constructor.
      * apply sorted_app; [exact Hsorted | repeat constructor; lia |].
        intros x y Hx Hy. apply Hrange in Hx.
        destruct Hy as [<-|[<-|[]]]; lia.
      * apply Forall_app. split.
        -- apply Forall_forall. intros v Hv. apply Hrange in Hv. lia.
        -- repeat constructor; lia.
    + constructor; [lia|]. apply Forall_app. split.
      * apply Forall_forall. intros v Hv. apply Hrange in Hv. lia.
      * repeat constructor; lia.
    + intros _.
      replace (0 :: vals ++ [100; 100]) with ((0 :: vals ++ [100]) ++ [100])
        by (cbn [app]; now rewrite <- app_assoc).
      apply last_app_singleton.
Qed.

Lemma progress_bar_never_moves_back_witness :
  let this := Samples.view in
  let h := Examples.twoFiles in
  let s := Webview.initial in
  _view this = true /\
  (forall files, findFiles h = inr files -> Z.of_nat (length files) < 2 ^ 53) /\
  let ms := messages (trace (analyzeWorkspace this h)) in
  let shown := map Webview.progress (Webview.states s ms) in
  hd 0 shown = 0 /\
  StronglySorted Z.le shown /\
  Forall (fun v => 0 <= v <= 100) shown /\
  (reported ms -> last shown 0 = 100).
Proof.
  intros this h s.
  assert (Hsmall : forall files, findFiles h = inr files ->
                                 Z.of_nat (length files) < 2 ^ 53).
  { intros files Hfiles. injection Hfiles as <-. reflexivity. }
  split; [reflexivity|]. split; [exact Hsmall|].
  exact (@progress_bar_never_moves_back this h s eq_refl Hsmall).
Defined.

(** ** The PDF report *)

Lemma textHeights_app ops ops' :
  textHeights (ops ++ ops') = textHeights ops ++ textHeights ops'.
Proof.
  induction ops as [|op ops IH]; [reflexivity|].
  destruct op; cbn [app textHeights]; now rewrite IH.
Qed.

(** The loop over the findings of one section: every line lands between
    20 and 270, whatever [y] was before, and [y] ends at most 6 below. *)
Lemma forEach_onPage {A} (render : A -> jsstring) (items : list A) :
  forall ops y, Forall onPage ops -> 20 <= y ->
  let '(ops', y') := forEach render items (ops, y) in
  Forall onPage ops' /\
  length (textHeights ops') = (length (textHeights ops) + length items)%nat /\
  20 <= y' /\ (items <> [] -> y' <= 276) /\ (items = [] -> y' = y).
Proof.
  unfold forEach.
  induction items as [|item items IH]; intros ops y Hops Hy; cbn [fold_left].
  - split; [exact Hops|]. split; [cbn [length]; lia|]. split; [exact Hy|].
    split; [intros Hne; now destruct Hne | reflexivity].
  - unfold itemLine at 2.
    destruct (Z.gtb_spec y 270) as [Hbreak|Hfits].
    + specialize (IH ((ops ++ Pdf.addPage :: background) ++
                      [Pdf.text (render item) 25 20]) (20 + 6)).
      destruct (fold_left (itemLine render) items _) as [ops' y'].
      destruct IH as (Hall & Hlen & Hlo & Hhi & Hsame).
      { repeat (apply Forall_app; split); try assumption;
          repeat constructor; cbn; lia. }
      { lia. }
      split; [exact Hall|]. split; [|split; [exact Hlo|split; [|discriminate]]].
      * rewrite Hlen, !textHeights_app. cbn [textHeights background length app].
        rewrite !length_app. cbn [length]. lia.
      * intros _. destruct items as [|i items]; [rewrite Hsame by reflexivity; lia|].
        apply Hhi. discriminate.
    + specialize (IH (ops ++ [Pdf.text (render item) 25 y]) (y + 6)).
      destruct (fold_left (itemLine render) items _) as [ops' y'].
      destruct IH as (Hall & Hlen & Hlo & Hhi & Hsame).
      { apply Forall_app; split; [assumption|]. repeat constructor; cbn; lia. }
      { lia. }
      split; [exact Hall|]. split; [|split; [exact Hlo|split; [|discriminate]]].
      * rewrite Hlen, !textHeights_app. cbn [textHeights length app].
        rewrite !length_app. cbn [length]. lia.
      * intros _. destruct items as [|i items]; [rewrite Hsame by reflexivity; lia|].
        apply Hhi. discriminate.
Qed.

Lemma pdfSection_onPage {A} r g b title (render : A -> jsstring) items gap ops y :
  Forall onPage ops -> 20 <= y <= 286 -> 0 <= gap <= 10 ->
  let '(ops', y') := pdfSection r g b title render items gap (ops, y) in
  Forall onPage ops' /\
  length (textHeights ops') =
    (length (textHeights ops) +
     match items with [] => 0 | _ :: _ => 1 + length items end)%nat /\
  20 <= y' <= 286.
Proof.
  intros Hops Hy Hgap. unfold pdfSection.
  destruct items as [|item items]; [cbn; repeat split; try assumption; lia|].
  change (0 <? Z.of_nat (length (item :: items))) with true. cbv iota.
  pose proof (@forEach_onPage A render (item :: items)
                ((ops ++ [Pdf.setTextColor r g b; Pdf.setFontSize 16; Pdf.text title 20 y])
                 ++ [Pdf.setFontSize 10; Pdf.setTextColor 200 200 200]) (y + 10)) as H.
  destruct (forEach render (item :: items) _) as [ops' y'].
  destruct H as (Hall & Hlen & Hlo & Hhi & _).
  { repeat (apply Forall_app; split); try assumption; repeat constructor; cbn; lia. }
  { lia. }
  specialize (Hhi ltac:(discriminate)).
  split; [exact Hall|]. split; [|lia].
  rewrite Hlen, !textHeights_app. cbn [textHeights length app].
  rewrite !length_app. cbn [length]. lia.
Qed.

Lemma pdfHeader_onPage now data :
  Forall onPage (fst (pdfHeader now data)) /\
  length (textHeights (fst (pdfHeader now data))) = 10%nat /\
  snd (pdfHeader now data) = 129.
Proof.
  split; [|split; reflexivity].
  unfold pdfHeader, background. cbn [fst app].
  repeat constructor; cbn; try lia; discriminate.
Qed.

(** X17: whatever the report holds, the exported document never places
    text off the page: every text call is at a height between 20 and
    286 (the page is 297 high), every finding and summary line between
    20 and 270; the document has ten lines of heading and summary, one
    title per non-empty section and one line per security finding, god
    file and performance finding, and nothing for the other lists. *)
Theorem pdf_text_stays_on_the_page now data :
  let ops := fst (exportPDF now data) in
  Forall onPage ops /\
  length (textHeights ops) =
    (10 + sectionLines (length (securityIssues data))
        + sectionLines (length (godFiles data))
        + sectionLines (length (performanceIssues data)))%nat /\
  snd (exportPDF now data) = Posted.showInfo (lit "Full Comprehensive Report Exported!").
Proof.
  intros ops. unfold ops, exportPDF. clear ops. cbn [fst snd].
  destruct (pdfHeader_onPage now data) as (H0 & L0 & Y0).
  destruct (pdfHeader now data) as [ops0 y0]. cbn [fst snd] in *. subst y0.
  pose proof (@pdfSection_onPage _ 255 45 85 (lit "Security Findings") securityLine
                (securityIssues data) 10 ops0 129 H0 ltac:(lia) ltac:(lia)) as H1.
  destruct (pdfSection 255 45 85 _ securityLine _ 10 _) as [ops1 y1].
  destruct H1 as (H1 & L1 & Y1).
  pose proof (@pdfSection_onPage _ 255 184 0 (lit "Architecture Warnings (God Files)")
                godFileLine (godFiles data) 10 ops1 y1 H1 Y1 ltac:(lia)) as H2.
  destruct (pdfSection 255 184 0 _ godFileLine _ 10 _) as [ops2 y2].
  destruct H2 as (H2 & L2 & Y2).
  pose proof (@pdfSection_onPage _ 0 242 254 (lit "Performance Insights")
                performanceLine (performanceIssues data) 0 ops2 y2 H2 Y2 ltac:(lia)) as H3.
  destruct (pdfSection 0 242 254 _ performanceLine _ 0 _) as [ops3 y3].
  destruct H3 as (H3 & L3 & Y3).
  cbn [fst]. split; [|split; [|reflexivity]].
  - apply Forall_app. split; [exact H3|]. repeat constructor.
  - rewrite textHeights_app, length_app, L3, L2, L1, L0. cbn [textHeights length].
    unfold sectionLines.
    destruct (securityIssues data), (godFiles data), (performanceIssues data);
      cbn [length]; lia.
Qed.
